(** * PDF2IMG: the conversion pipeline and the output packager of [src/App.jsx]

    The React component [App] keeps the run in component state ([status],
    [progress], [convertedImages], [errorMsg]) and changes it from two
    asynchronous handlers: [startConversion] (lines 128-185) and
    [downloadAll] (lines 188-207).  This development embeds both handlers:

    - a handler is the list of effects it performs, in program order: the
      state setters it calls and the points where it awaits;
    - the component state is a record, and an effect list is run against it;
    - JavaScript numbers are IEEE binary64: the handlers are written
      against a small interface of the operations they use, whose instance
      is Rocq's primitive binary64; what the arithmetic of lines 142-148
      and 174 gives is proved from the specification of these operations
      ([SpecFloat]), with the value of a double read as a rational;
    - what the browser and the libraries do (pdf.js viewports, the canvas
      size attributes, JSZip) is modelled from their documented behaviour and
      marked as such;
    - the other handlers that write the run state, the conditions under
      which the page offers them, and the [useScript] hook that loads the
      libraries are embedded in the same way. *)

From Stdlib Require Import ZArith QArith Qround Qpower Floats Uint63 Lia Lqa Ascii Sorted.
From stdpp Require Import base strings pretty list gmap.

Local Open Scope Z_scope.

(** ** JavaScript numbers *)

(** The operations of a JS Number that the two handlers use.  The
    structure of a run does not depend on how they compute; what the
    numbers come to is proved for the binary64 instance below. *)
Class JsNumber (num : Type) := {
  (** an integer literal or loop counter as a Number *)
  ofZ : Z -> num;
  (** [x * y] *)
  mul : num -> num -> num;
  (** [x / y] *)
  div : num -> num -> num;
  (** [x > y] *)
  gtb : num -> num -> bool;
  (** truncation toward zero, as in the conversion of a Number to a WebIDL
      integer type *)
  toInteger : num -> Z;
  (** [Math.round(x)]: the nearest integer, ties toward +infinity *)
  Math_round : num -> Z
}.

(** *** IEEE binary64 *)

(** A finite double is [(-1)^s * m * 2^e]; [scaled m e] is
    [floor (m * 2^e)] for a non-negative [m]. *)
Definition scaled (m e : Z) : Z :=
  if 0 <=? e then Z.shiftl m e else Z.shiftr m (- e).

(** Exact for the integers of absolute value up to 2^53. *)
Definition float_ofZ (z : Z) : float :=
  if z <? 0 then PrimFloat.opp (PrimFloat.of_uint63 (Uint63.of_Z (- z)))
  else PrimFloat.of_uint63 (Uint63.of_Z z).

(** NaN and the infinities convert to 0, as WebIDL prescribes. *)
Definition float_truncate (x : float) : Z :=
  match Prim2SF x with
  | S754_finite s m e =>
      let v := scaled (Zpos m) e in if s then - v else v
  | _ => 0
  end.

(** [floor (x + 1/2)] computed on the exact value of [x], with no second
    rounding.  [Math.round] of NaN or of an infinity is not an integer; it
    is given as 0 here and does not arise from the handlers below. *)
Definition float_round (x : float) : Z :=
  match Prim2SF x with
  | S754_finite s m e =>
      let twice := if s then - (2 * Zpos m) else 2 * Zpos m in
      if 0 <=? e then (if s then - Zpos m else Zpos m) * 2 ^ e
      else (twice + 2 ^ (- e)) / 2 ^ (- e + 1)
  | _ => 0
  end.

#[export] Instance binary64 : JsNumber float := {
  ofZ := float_ofZ;
  mul := PrimFloat.mul;
  div := PrimFloat.div;
  gtb := fun x y => PrimFloat.ltb y x;
  toInteger := float_truncate;
  Math_round := float_round
}.

(** *** The value of a double, and its rounding *)

(** [2^e] as a rational. *)
Definition pow2 (e : Z) : Q := (2 ^ e)%Q.

(** The rational a double stands for; 0 for NaN and the infinities. *)
Definition valueOf (x : float) : Q :=
  match Prim2SF x with
  | S754_finite s m e =>
      ((if s then - inject_Z (Zpos m) else inject_Z (Zpos m)) * pow2 e)%Q
  | _ => 0%Q
  end.

(** [k] is [q] rounded to the nearest integer, a tie going to the even
    one. *)
Definition nearestEven (q : Q) (k : Z) : Prop :=
  (q - (1 # 2) < inject_Z k /\ inject_Z k < q + (1 # 2))%Q
  \/ ((inject_Z k == q - (1 # 2) \/ inject_Z k == q + (1 # 2))%Q
      /\ Z.even k = true).

(** [r] is the positive [v] rounded to 53 significant bits, to nearest, a
    tie going to the even significand: what a binary64 operation makes of
    its exact result [v], away from overflow and underflow. *)
Definition rounds (v r : Q) : Prop :=
  exists d k : Z,
    (pow2 (d - 1) <= v)%Q /\ (v < pow2 d)%Q
    /\ (r == inject_Z k * pow2 (d - 53))%Q
    /\ nearestEven (v / pow2 (d - 53)) k.

(** Where [q] lies in the interval from [m] to [m + 1], as the [location]
    that [SpecFloat]'s division hands to its rounding tells it: at [m],
    below, at or above the middle. *)
Definition located (q : Q) (m : Z) (l : location) : Prop :=
  match l with
  | loc_Exact => (q == inject_Z m)%Q
  | loc_Inexact Lt => (inject_Z m < q /\ q < inject_Z m + (1 # 2))%Q
  | loc_Inexact Eq => (q == inject_Z m + (1 # 2))%Q
  | loc_Inexact Gt => (inject_Z m + (1 # 2) < q /\ q < inject_Z m + 1)%Q
  end.

(** A positive normal double between 2^-200 and 2^200: the products and
    quotients that lines 142-148 form from a page size, a scale and a width
    limit of this kind neither overflow nor underflow. *)
Definition moderate (x : float) : Prop :=
  classify x = PNormal
  /\ (pow2 (-200) <= valueOf x)%Q /\ (valueOf x <= pow2 200)%Q.

(** *** The percentage of the specification *)

(** "round(i / N x 100)", in exact arithmetic, a tie going up. *)
Definition exactPercent (totalPages i : nat) : Z :=
  Qfloor (inject_Z (Z.of_nat i) / inject_Z (Z.of_nat totalPages) * 100
          + (1 # 2))%Q.

(** [i / N x 100] lies half-way between two integers. *)
Definition halfway (totalPages i : nat) : Prop :=
  (200 * Z.of_nat i + Z.of_nat totalPages) mod (2 * Z.of_nat totalPages) = 0.

(** ** The data of the component *)

(** [status]: the comment at line 73 lists the four values. *)
Inductive Status := idle | processing | done | error.

#[export] Instance Status_eq_dec : EqDecision Status.
Proof. solve_decision. Defined.

(** [settings.format]: ['png'] or ['jpeg'] (line 80); the buttons of
    lines 252-255 offer no other value. *)
Inductive Format := png | jpeg.

(** The string a [Format] stands for, as interpolated into file names. *)
Definition formatString (fmt : Format) : string :=
  match fmt with png => "png" | jpeg => "jpeg" end.

(** The settings record of lines 79-84. *)
Record Settings (num : Type) := {
  format : Format;
  quality : num;
  scale : num;
  maxPageWidth : num
}.
Arguments format {num} _.
Arguments quality {num} _.
Arguments scale {num} _.
Arguments maxPageWidth {num} _.

(** The outcome of an awaited promise: its value, or the [message] of the
    error it was rejected with. *)
Inductive Outcome (A : Type) :=
| Resolved (value : A)
| Rejected (message : string).
Arguments Resolved {A} _.
Arguments Rejected {A} _.

(** A pdf.js viewport: the fields the handler reads. *)
Record Viewport (num : Type) := {
  viewportScale : num;
  viewportWidth : num;
  viewportHeight : num
}.
Arguments viewportScale {num} _.
Arguments viewportWidth {num} _.
Arguments viewportHeight {num} _.

(** A page of the loaded document, as far as the handler can observe it:
    its size at scale 1 (its view box, as rotated), whether rendering it
    into a canvas of a given viewport succeeds, and the data URL the canvas
    then encodes to for a MIME type and a quality. *)
Record Page (num : Type) := {
  pageWidth : num;
  pageHeight : num;
  render : Viewport num -> Outcome unit;
  toDataURL : Viewport num -> string -> num -> string
}.
Arguments pageWidth {num} _.
Arguments pageHeight {num} _.
Arguments render {num} _ _.
Arguments toDataURL {num} _ _ _ _.

(** The document proxy: [numPages] and [getPage(i)]. *)
Record PdfDoc (num : Type) := {
  numPages : nat;
  getPage : nat -> Outcome (Page num)
}.
Arguments numPages {num} _.
Arguments getPage {num} _ _.

(** The uploaded [File]: its name, its MIME type, and what parsing its bytes
    with pdf.js gives. *)
Record File (num : Type) := {
  name : string;
  type : string;
  parsed : Outcome (PdfDoc num)
}.
Arguments name {num} _.
Arguments type {num} _.
Arguments parsed {num} _.

(** An element of [convertedImages] (lines 166-171). *)
Record Image := {
  page : nat;
  dataUrl : string;
  width : Z;
  height : Z
}.

(** The component state read or written by the handlers. *)
Record App (num : Type) := {
  file : option (File num);
  pdfDoc : option (PdfDoc num);
  status : Status;
  progress : Z;
  convertedImages : list Image;
  errorMsg : string;
  settings : Settings num
}.
Arguments file {num} _.
Arguments pdfDoc {num} _.
Arguments status {num} _.
Arguments progress {num} _.
Arguments convertedImages {num} _.
Arguments errorMsg {num} _.
Arguments settings {num} _.

(** ** Effects *)

Inductive Awaited :=
| ArrayBuffer
| LoadingTask
| GetPage (i : nat)
| RenderTask (i : nat)
| AnimationFrame.

(** What a handler does to the outside: a state setter, [console.error], or
    a suspension at an [await], where the component can be rendered. *)
Inductive Effect (num : Type) :=
| SetFile (f : option (File num))
| SetPdfDoc (d : PdfDoc num)
| SetStatus (s : Status)
| SetProgress (p : Z)
| SetConvertedImages (images : list Image)
| SetErrorMsg (m : string)
| SetSettings (cfg : Settings num)
| ConsoleError (m : string)
| Await (what : Awaited).
Arguments SetFile {num} _.
Arguments SetPdfDoc {num} _.
Arguments SetStatus {num} _.
Arguments SetProgress {num} _.
Arguments SetConvertedImages {num} _.
Arguments SetErrorMsg {num} _.
Arguments SetSettings {num} _.
Arguments ConsoleError {num} _.
Arguments Await {num} _.

Section Handlers.
Context {num : Type} `{JsNumber num}.

Definition applyEffect (st : App num) (e : Effect num) : App num :=
  match e with
  | SetFile f =>
      {| file := f; pdfDoc := pdfDoc st; status := status st;
         progress := progress st; convertedImages := convertedImages st;
         errorMsg := errorMsg st; settings := settings st |}
  | SetPdfDoc d =>
      {| file := file st; pdfDoc := Some d; status := status st;
         progress := progress st; convertedImages := convertedImages st;
         errorMsg := errorMsg st; settings := settings st |}
  | SetStatus s =>
      {| file := file st; pdfDoc := pdfDoc st; status := s;
         progress := progress st; convertedImages := convertedImages st;
         errorMsg := errorMsg st; settings := settings st |}
  | SetProgress p =>
      {| file := file st; pdfDoc := pdfDoc st; status := status st;
         progress := p; convertedImages := convertedImages st;
         errorMsg := errorMsg st; settings := settings st |}
  | SetConvertedImages images =>
      {| file := file st; pdfDoc := pdfDoc st; status := status st;
         progress := progress st; convertedImages := images;
         errorMsg := errorMsg st; settings := settings st |}
  | SetErrorMsg m =>
      {| file := file st; pdfDoc := pdfDoc st; status := status st;
         progress := progress st; convertedImages := convertedImages st;
         errorMsg := m; settings := settings st |}
  | SetSettings cfg =>
      {| file := file st; pdfDoc := pdfDoc st; status := status st;
         progress := progress st; convertedImages := convertedImages st;
         errorMsg := errorMsg st; settings := cfg |}
  | ConsoleError _ | Await _ => st
  end.

(** The state once every effect of a handler has been applied. *)
Definition runEffects (st : App num) (effects : list (Effect num)) : App num :=
  fold_left applyEffect effects st.

(** The states in which the component can be rendered while a handler runs:
    the state at each suspension, and the state when the handler returns. *)
Fixpoint rendered (st : App num) (effects : list (Effect num)) : list (App num) :=
  match effects with
  | [] => [st]
  | Await _ :: rest => st :: rendered st rest
  | e :: rest => rendered (applyEffect st e) rest
  end.

(** An effect of the loop: a progress report or a suspension. *)
Definition quiet (e : Effect num) : Prop :=
  match e with
  | SetProgress _ | Await _ => True
  | _ => False
  end.

(** The arguments of the [setProgress] calls, in order. *)
Fixpoint progressReports (effects : list (Effect num)) : list Z :=
  match effects with
  | [] => []
  | SetProgress p :: rest => p :: progressReports rest
  | _ :: rest => progressReports rest
  end.

(** ** The viewport of a page (lines 141-154) *)

(** pdf.js, [page.getViewport({ scale })]: the size of the page multiplied
    by the scale, with no rounding. *)
Definition getViewport (pg : Page num) (s : num) : Viewport num :=
  {| viewportScale := s;
     viewportWidth := mul (pageWidth pg) s;
     viewportHeight := mul (pageHeight pg) s |}.

(** Lines 142-148. *)
Definition planViewport (pg : Page num) (cfg : Settings num) : Viewport num :=
  let viewport := getViewport pg (scale cfg) in
  if gtb (maxPageWidth cfg) (ofZ 0)
     && gtb (viewportWidth viewport) (maxPageWidth cfg)
  then
    let scaleRatio := div (maxPageWidth cfg) (viewportWidth viewport) in
    getViewport pg (mul (scale cfg) scaleRatio)
  else viewport.

(** HTML, [canvas.width = x] followed by reading [canvas.width]: the
    attribute is a WebIDL [unsigned long], so the Number is truncated and
    taken modulo 2^32, and a value above 2147483647 is replaced by the
    attribute's default. *)
Definition canvasSize (default : Z) (x : num) : Z :=
  let v := toInteger x mod 2 ^ 32 in
  if v <=? 2147483647 then v else default.

(** Lines 153-154. *)
Definition canvasWidth (viewport : Viewport num) : Z :=
  canvasSize 300 (viewportWidth viewport).

Definition canvasHeight (viewport : Viewport num) : Z :=
  canvasSize 150 (viewportHeight viewport).

(** ** The conversion loop (lines 128-185) *)

(** Line 163. *)
Definition mimeType (cfg : Settings num) : string :=
  match format cfg with png => "image/png" | jpeg => "image/jpeg" end.

(** Line 174: [Math.round((i / totalPages) * 100)]. *)
Definition progressAfter (totalPages i : nat) : Z :=
  Math_round
    (mul (div (ofZ (Z.of_nat i)) (ofZ (Z.of_nat totalPages))) (ofZ 100)).

(** One page, lines 139-171: the awaits it goes through, and the image it
    pushes or the error it throws. *)
Definition convertPage (doc : PdfDoc num) (cfg : Settings num) (i : nat)
  : list (Effect num) * Outcome Image :=
  match getPage doc i with
  | Rejected m => ([Await (GetPage i)], Rejected m)
  | Resolved pg =>
      let viewport := planViewport pg cfg in
      match render pg viewport with
      | Rejected m => ([Await (GetPage i); Await (RenderTask i)], Rejected m)
      | Resolved _ =>
          ([Await (GetPage i); Await (RenderTask i)],
           Resolved {| page := i;
                       dataUrl := toDataURL pg viewport (mimeType cfg) (quality cfg);
                       width := canvasWidth viewport;
                       height := canvasHeight viewport |})
      end
  end.

(** Whether page [i] goes through the loop body without an error. *)
Definition converts (doc : PdfDoc num) (cfg : Settings num) (i : nat) : bool :=
  match snd (convertPage doc cfg i) with
  | Resolved _ => true
  | Rejected _ => false
  end.

(** Where the [for] loop stands when it is left: the effects performed, the
    local array [images], and the message of the error thrown, if any. *)
Record Loop := {
  performed : list (Effect num);
  images : list Image;
  thrown : option string
}.

(** The loop of lines 138-176 over the page numbers still to visit;
    [acc] is [images] on entry. *)
Fixpoint convertPages (doc : PdfDoc num) (cfg : Settings num)
    (totalPages : nat) (pending : list nat) (acc : list Image) : Loop :=
  match pending with
  | [] => {| performed := []; images := acc; thrown := None |}
  | i :: rest =>
      match convertPage doc cfg i with
      | (awaits, Rejected m) =>
          {| performed := awaits; images := acc; thrown := Some m |}
      | (awaits, Resolved img) =>
          let after := convertPages doc cfg totalPages rest (acc ++ [img]) in
          {| performed :=
               awaits
               ++ [SetProgress (progressAfter totalPages i); Await AnimationFrame]
               ++ performed after;
             images := images after;
             thrown := thrown after |}
      end
  end.

(** The loop as [startConversion] enters it: [i] from 1 to [totalPages],
    [images] empty. *)
Definition conversionLoop (doc : PdfDoc num) (cfg : Settings num) : Loop :=
  convertPages doc cfg (numPages doc) (seq 1 (numPages doc)) [].

(** Lines 128-185. *)
Definition startConversion (st : App num) : list (Effect num) :=
  match pdfDoc st with
  | None => []
  | Some doc =>
      let loop := conversionLoop doc (settings st) in
      [SetStatus processing; SetProgress 0; SetConvertedImages []]
      ++ performed loop
      ++ match thrown loop with
         | None => [SetConvertedImages (images loop); SetStatus done]
         | Some m =>
             [ConsoleError m;
              SetErrorMsg ("转换过程中发生错误: " +:+ m);
              SetStatus error]
         end
  end.

(** ** The other handlers that write the run state *)

(** Lines 97-117. *)
Definition handleFileChange (selectedFile : option (File num))
  : list (Effect num) :=
  match selectedFile with
  | Some f =>
      if decide (type f = "application/pdf") then
        [SetFile (Some f); SetConvertedImages []; SetStatus idle;
         SetErrorMsg ""; SetProgress 0; Await ArrayBuffer; Await LoadingTask]
        ++ match parsed f with
           | Resolved pdf => [SetPdfDoc pdf]
           | Rejected m =>
               [ConsoleError m;
                SetErrorMsg "无法解析 PDF 文件，文件可能已损坏。"]
           end
      else [SetErrorMsg "请上传有效的 PDF 文件。"]
  | None => [SetErrorMsg "请上传有效的 PDF 文件。"]
  end.

(** Line 362, the remove button. *)
Definition removeFile : list (Effect num) := [SetFile None].

(** Line 410, the reset button. *)
Definition resetRun : list (Effect num) :=
  [SetStatus idle; SetConvertedImages []].

(** Lines 255, 277, 291 and 310: one field of the settings replaced. *)
Definition changeFormat (st : App num) (fmt : Format) : list (Effect num) :=
  [SetSettings {| format := fmt; quality := quality (settings st);
                  scale := scale (settings st);
                  maxPageWidth := maxPageWidth (settings st) |}].

Definition changeQuality (st : App num) (q : num) : list (Effect num) :=
  [SetSettings {| format := format (settings st); quality := q;
                  scale := scale (settings st);
                  maxPageWidth := maxPageWidth (settings st) |}].

Definition changeScale (st : App num) (s : num) : list (Effect num) :=
  [SetSettings {| format := format (settings st);
                  quality := quality (settings st); scale := s;
                  maxPageWidth := maxPageWidth (settings st) |}].

Definition changeMaxPageWidth (st : App num) (w : num) : list (Effect num) :=
  [SetSettings {| format := format (settings st);
                  quality := quality (settings st);
                  scale := scale (settings st); maxPageWidth := w |}].

(** The state the component is mounted with (lines 70-84). *)
Definition initialApp : App num :=
  {| file := None; pdfDoc := None; status := idle; progress := 0;
     convertedImages := []; errorMsg := "";
     settings := {| format := png; quality := div (ofZ 9) (ofZ 10);
                    scale := ofZ 2; maxPageWidth := ofZ 0 |} |}.

(** The handlers that change the state, with their arguments. *)
Inductive Handler :=
| OnFileChange (selectedFile : option (File num))
| OnRemoveFile
| OnStartConversion
| OnReset
| OnFormat (fmt : Format)
| OnQuality (q : num)
| OnScale (s : num)
| OnMaxPageWidth (w : num).

Definition handle (st : App num) (h : Handler) : list (Effect num) :=
  match h with
  | OnFileChange f => handleFileChange f
  | OnRemoveFile => removeFile
  | OnStartConversion => startConversion st
  | OnReset => resetRun
  | OnFormat fmt => changeFormat st fmt
  | OnQuality q => changeQuality st q
  | OnScale s => changeScale st s
  | OnMaxPageWidth w => changeMaxPageWidth st w
  end.

(** When the element that triggers a handler is on the page: the drop zone
    and the file input while no file is chosen (line 322), the remove and
    start buttons while a file is chosen and the status is idle (lines 361
    and 366), the reset button while a file is chosen and the status is
    done (line 402), the settings panel always. *)
Definition enabled (st : App num) (h : Handler) : Prop :=
  match h with
  | OnFileChange _ => file st = None
  | OnRemoveFile | OnStartConversion => file st <> None /\ status st = idle
  | OnReset => file st <> None /\ status st = done
  | OnFormat _ | OnQuality _ | OnScale _ | OnMaxPageWidth _ => True
  end.

(** The states the component gets into, one handler after the other.  Two
    handlers can overlap only in that [handleFileChange] is still waiting
    for the parser, after which it writes [pdfDoc] or [errorMsg] and nothing
    else, and in that the settings are changed during a conversion, which
    goes on with the settings it was started with. *)
Inductive Reachable : App num -> Prop :=
| Reachable_initial : Reachable initialApp
| Reachable_handle st h :
    Reachable st -> enabled st h -> Reachable (runEffects st (handle st h)).

(** ** The download handler (lines 188-207) *)

(** [s.replace(pattern, replacement)] for a string pattern: the first
    occurrence is replaced, the rest of [s] is kept. *)
Fixpoint replaceFirst (pattern replacement s : string) : string :=
  if String.prefix pattern s
  then replacement +:+ String.substring (String.length pattern)
                         (String.length s - String.length pattern) s
  else match s with
       | EmptyString => EmptyString
       | String c rest => String c (replaceFirst pattern replacement rest)
       end.

(** [s.split(sep)] for a one-character separator. *)
Fixpoint split (sep : ascii) (s : string) : list string :=
  match s with
  | EmptyString => [EmptyString]
  | String c rest =>
      if decide (c = sep) then EmptyString :: split sep rest
      else match split sep rest with
           | piece :: pieces => String c piece :: pieces
           | [] => [String c EmptyString]
           end
  end.

(** Line 200: [img.dataUrl.split(',')[1]], [None] for [undefined]. *)
Definition base64Data (img : Image) : option string :=
  split "," (dataUrl img) !! 1%nat.

(** Line 201: the name given to [folder.file]. *)
Definition pageFileName (fmt : Format) (pageIndex : nat) : string :=
  "page-" +:+ pretty pageIndex +:+ "." +:+ formatString fmt.

(** An entry of a JSZip archive: a folder, or a file with its data. *)
Inductive ZipEntry :=
| Folder
| Data (base64 : option string).

(** JSZip, [zip.folder(name)]: the entry [name/] is added; the object
    returned adds files under that prefix. *)
Definition zipFolder (folderName : string) (zip : gmap string ZipEntry)
  : gmap string ZipEntry :=
  <[folderName +:+ "/" := Folder]> zip.

(** JSZip, [folder.file(name, data, ...)] on the folder of prefix [root]:
    the entry [root + name] is added, or replaced when it is there. *)
Definition folderFile (root fileName : string) (data : option string)
    (zip : gmap string ZipEntry) : gmap string ZipEntry :=
  <[root +:+ fileName := Data data]> zip.

(** Lines 196-202. *)
Definition buildZip (fmt : Format) (imgs : list Image)
  : gmap string ZipEntry :=
  fold_left
    (fun zip img =>
       folderFile "images/" (pageFileName fmt (page img)) (base64Data img) zip)
    imgs (zipFolder "images" ∅).

(** What is handed to [window.saveAs]. *)
Inductive Content :=
| DataUrl (url : string)
| ZipBlob (zip : gmap string ZipEntry).

Record Saved := {
  content : Content;
  fileName : string
}.

(** Lines 188-207: the call of [window.saveAs] made, if any; the handler
    is rejected when it reads [file.name] of a null [file]. *)
Definition downloadAll (st : App num) : Outcome (option Saved) :=
  match convertedImages st with
  | [] => Resolved None
  | [img] =>
      Resolved (Some {| content := DataUrl (dataUrl img);
                        fileName := "page-1." +:+ formatString (format (settings st)) |})
  | imgs =>
      let zip := buildZip (format (settings st)) imgs in
      match file st with
      | None => Rejected "Cannot read properties of null (reading 'name')"
      | Some f =>
          Resolved (Some {| content := ZipBlob zip;
                            fileName := replaceFirst ".pdf" "" (name f)
                                        +:+ "-images.zip" |})
      end
  end.

End Handlers.

(** ** Statements about runs and downloads *)

Section Statements.
Context {num : Type} `{JsNumber num}.

(** "Already-produced PageResults remain available to the caller": after a
    run, the component holds what the loop had pushed. *)
Definition resultsKept (st : App num) : Prop :=
  match pdfDoc st with
  | Some doc =>
      convertedImages (runEffects st (startConversion st))
      = images (conversionLoop doc (settings st))
  | None => True
  end.

(** "width = round(intrinsicWidth x baseScale), height =
    round(intrinsicHeight x baseScale), effectiveScale = baseScale". *)
Definition roundedToNearest (pg : Page num) (cfg : Settings num) : Prop :=
  let viewport := planViewport pg cfg in
  canvasWidth viewport = Math_round (mul (pageWidth pg) (scale cfg))
  /\ canvasHeight viewport = Math_round (mul (pageHeight pg) (scale cfg))
  /\ viewportScale viewport = scale cfg.

(** "progressPercent equals exactly 100 only when the run's status is
    done", in every state the run can be rendered in. *)
Definition fullOnlyWhenDone (st : App num) : Prop :=
  Forall (fun s => progress s = 100 -> status s = done)
         (rendered st (startConversion st)).

(** The results are those of pages 1, 2, ... in this order. *)
Definition pagesAscending (imgs : list Image) : Prop :=
  map page imgs = seq 1 (length imgs).

(** What every reachable state satisfies: the results are those of the
    pages 1, 2, ... in order, and there are results only when the status is
    done and a file is chosen. *)
Definition wellFormed (st : App num) : Prop :=
  pagesAscending (convertedImages st)
  /\ (convertedImages st <> [] -> status st = done /\ file st <> None).

(** The handler makes a single-file delivery: [saveAs] of a data URL. *)
Definition deliversSingle (st : App num) : bool :=
  match downloadAll st with
  | Resolved (Some {| content := DataUrl _ |}) => true
  | _ => false
  end.

(** The handler makes a bundle delivery: [saveAs] of a zip archive. *)
Definition deliversBundle (st : App num) : bool :=
  match downloadAll st with
  | Resolved (Some {| content := ZipBlob _ |}) => true
  | _ => false
  end.

End Statements.

(** "The source document's name with its extension stripped": the name up
    to its last dot, or all of it when it has none. *)
Fixpoint hasDot (s : string) : bool :=
  match s with
  | EmptyString => false
  | String c rest => if decide (c = "."%char) then true else hasDot rest
  end.

Fixpoint stripExtension (s : string) : string :=
  match s with
  | EmptyString => EmptyString
  | String c rest =>
      if bool_decide (c = "."%char) && negb (hasDot rest) then EmptyString
      else String c (stripExtension rest)
  end.

(** The name a bundle would have if the extension were stripped. *)
Definition strippedBundleName (documentName : string) : string :=
  stripExtension documentName +:+ "-images.zip".

(** ** Sample documents *)

Section Samples.
Context {num : Type} `{JsNumber num}.

(** A page of the given size that renders, and encodes to a data URL of
    the requested MIME type. *)
Definition blankPage (w h : num) : Page num :=
  {| pageWidth := w;
     pageHeight := h;
     render := fun _ => Resolved tt;
     toDataURL := fun _ mime _ => "data:" +:+ mime +:+ ";base64,AAAA" |}.

(** US Letter, 612 x 792 points. *)
Definition letterPage : Page num := blankPage (ofZ 612) (ofZ 792).

(** A page 613 points wide, and the scale 1.5 of line 295. *)
Definition oddPage : Page num := blankPage (ofZ 613) (ofZ 792).

Definition scale15 : num := div (ofZ 3) (ofZ 2).

(** [n] letter pages. *)
Definition letterDoc (n : nat) : PdfDoc num :=
  {| numPages := n; getPage := fun _ => Resolved letterPage |}.

(** A letter page that cannot be rendered. *)
Definition brokenPage : Page num :=
  {| pageWidth := ofZ 612;
     pageHeight := ofZ 792;
     render := fun _ => Rejected "Invalid page";
     toDataURL := fun _ _ _ => "data:," |}.

(** [n] letter pages, of which page [k] cannot be rendered. *)
Definition brokenDoc (n k : nat) : PdfDoc num :=
  {| numPages := n;
     getPage := fun i =>
       Resolved (if decide (i = k) then brokenPage else letterPage) |}.

Definition sampleFile (fileName : string) (doc : PdfDoc num) : File num :=
  {| name := fileName; type := "application/pdf"; parsed := Resolved doc |}.

(** The component once the file has been chosen and parsed. *)
Definition loaded (fileName : string) (doc : PdfDoc num) : App num :=
  runEffects initialApp (handleFileChange (Some (sampleFile fileName doc))).

(** The component once the conversion of the loaded file has run. *)
Definition converted (fileName : string) (doc : PdfDoc num) : App num :=
  let st := loaded fileName doc in runEffects st (startConversion st).

(** The settings of line 79 with another scale and width limit. *)
Definition settingsWith (s w : num) : Settings num :=
  {| format := png; quality := div (ofZ 9) (ofZ 10); scale := s;
     maxPageWidth := w |}.

End Samples.

(** ** The result panel and the states of a run *)

Section Panel.
Context {num : Type} `{JsNumber num}.

(** Line 433, the download button of one result: the call of
    [window.saveAs] it makes. *)
Definition downloadImage (st : App num) (img : Image) : Saved :=
  {| content := DataUrl (dataUrl img);
     fileName := pageFileName (format (settings st)) (page img) |}.

(** The states in which the component can be rendered before a handler
    returns: the state at each of its suspensions. *)
Fixpoint suspensions (st : App num) (effects : list (Effect num))
  : list (App num) :=
  match effects with
  | [] => []
  | Await _ :: rest => st :: suspensions st rest
  | e :: rest => suspensions (applyEffect st e) rest
  end.

End Panel.

(** Whether the character [c] occurs in [s]. *)
Fixpoint occurs (c : ascii) (s : string) : bool :=
  match s with
  | EmptyString => false
  | String c' rest => if decide (c' = c) then true else occurs c rest
  end.

(** ** Loading the libraries (lines 5-32 and 64-94) *)

(** A [script] element of the page, as far as [useScript] deals with it:
    its [data-status] attribute, and the hook whose [setStatus] its load
    and error listeners call, if listeners were attached. *)
Record ScriptElement := {
  dataStatus : option string;
  listener : option nat
}.

(** The [script] elements of the page by [src], and the [status] state of
    each mounted [useScript] hook; [None] stands for [null]. *)
Record Scripts := {
  scripts : gmap string ScriptElement;
  statuses : gmap nat (option string)
}.

(** Line 6: the initial state of hook [hook]. *)
Definition useScriptState (hook : nat) (src : option string) (d : Scripts)
  : Scripts :=
  {| scripts := scripts d;
     statuses :=
       <[hook := Some (match src with Some _ => "loading" | None => "idle" end)]>
         (statuses d) |}.

(** Lines 8-29, the effect: with no [src] the status is idle; when the page
    has no script of that [src], one is appended with [data-status]
    loading and with listeners for this hook; otherwise the status becomes
    the [data-status] attribute of the script found, and no listener is
    attached. *)
Definition useScriptEffect (hook : nat) (src : option string) (d : Scripts)
  : Scripts :=
  match src with
  | None =>
      {| scripts := scripts d;
         statuses := <[hook := Some "idle"]> (statuses d) |}
  | Some url =>
      match scripts d !! url with
      | None =>
          {| scripts := <[url := {| dataStatus := Some "loading";
                                    listener := Some hook |}]> (scripts d);
             statuses := statuses d |}
      | Some script =>
          {| scripts := scripts d;
             statuses := <[hook := dataStatus script]> (statuses d) |}
      end
  end.

(** A hook is mounted: its state is initialised, then its effect runs. *)
Definition useScript (hook : nat) (src : option string) (d : Scripts)
  : Scripts :=
  useScriptEffect hook src (useScriptState hook src d).

Inductive ScriptEvent := LoadEvent | ErrorEvent.

(** Lines 20-23, [setAttributeFromEvent]: the attribute and the status of
    the listening hook become ready on a load event and error otherwise.
    A script without these listeners is left alone. *)
Definition setAttributeFromEvent (url : string) (event : ScriptEvent)
    (d : Scripts) : Scripts :=
  match scripts d !! url with
  | Some {| listener := Some hook |} =>
      let value :=
        Some (match event with LoadEvent => "ready" | ErrorEvent => "error" end) in
      {| scripts := <[url := {| dataStatus := value; listener := Some hook |}]>
                      (scripts d);
         statuses := <[hook := value]> (statuses d) |}
  | _ => d
  end.

Definition fireEvents (events : list (string * ScriptEvent)) (d : Scripts)
  : Scripts :=
  fold_left (fun d e => setAttributeFromEvent (fst e) (snd e) d) events d.

(** Lines 64-67: the four libraries, by hook. *)
Definition libraries : list string :=
  ["https://cdnjs.cloudflare.com/ajax/libs/pdf.js/3.11.174/pdf.min.js";
   "https://cdnjs.cloudflare.com/ajax/libs/pdf.js/3.11.174/pdf.worker.min.js";
   "https://cdnjs.cloudflare.com/ajax/libs/jszip/3.10.1/jszip.min.js";
   "https://cdnjs.cloudflare.com/ajax/libs/FileSaver.js/2.0.5/FileSaver.min.js"].

(** The four hooks of [App] mounted on a page without scripts. *)
Definition mountLibraries : Scripts :=
  fold_left (fun d hookSrc => useScript (fst hookSrc) (Some (snd hookSrc)) d)
    (imap (fun hook src => (hook, src)) libraries)
    {| scripts := ∅; statuses := ∅ |}.

(** Line 88: the four statuses are all ready. *)
Definition allReady (d : Scripts) : bool :=
  forallb (fun hook => bool_decide (statuses d !! hook = Some (Some "ready")))
    (seq 0 (length libraries)).

(** Lines 87-94: [isReady] after the events, given whether [window.pdfjsLib]
    is defined; the effect runs at every change of a status and only ever
    sets [isReady] to true. *)
Fixpoint isReadyAfter (pdfjsLib : bool) (events : list (string * ScriptEvent))
    (d : Scripts) (isReady : bool) : bool :=
  match events with
  | [] => isReady || (allReady d && pdfjsLib)
  | e :: rest =>
      isReadyAfter pdfjsLib rest (setAttributeFromEvent (fst e) (snd e) d)
        (isReady || (allReady d && pdfjsLib))
  end.

(** The scripts of the page are those of the four libraries, each with
    the listeners of its own hook. *)
Definition libraryScripts (d : Scripts) : Prop :=
  (forall url el i, scripts d !! url = Some el -> listener el = Some i ->
                    libraries !! i = Some url)
  /\ (forall i url, libraries !! i = Some url ->
        exists value, scripts d !! url
                      = Some {| dataStatus := value; listener := Some i |}).

(** A load event has been seen for every library. *)
Definition allLoaded (events : list (string * ScriptEvent)) : Prop :=
  forall url, url ∈ libraries -> (url, LoadEvent) ∈ events.

(** ** Tactics *)

(** The cases of one shift step of [SpecFloat]'s rounding. *)
Ltac located_cases Hq :=
  cbn [shr_1 orb loc_of_shr_record shr_m located] in Hq |- *;
  change (inject_Z 0) with 0%Q in *; change (inject_Z 1) with 1%Q in *;
  (split; [lia|]);
  match goal with
  | H : _ /\ _ |- _ => destruct H
  | _ => idtac
  end;
  try split; lra.

(** A comparison of two closed rationals, by evaluation. *)
Ltac q_compute := vm_compute; first [reflexivity | discriminate].

(** A closed double is [moderate], by evaluation. *)
Ltac moderate_compute := split; [vm_compute; reflexivity|split; q_compute].

(** * Properties *)

(** The third value is the double below 0.5, the fourth the double below
    14.5. *)
Example Math_round_binary64 :
  Math_round 2.5%float = 3 /\ Math_round (-2.5)%float = -2
  /\ Math_round 0x1.fffffffffffffp-2%float = 0
  /\ Math_round 0x1.cffffffffffffp+3%float = 14
  /\ toInteger (-2.75)%float = -2 /\ toInteger 919.5%float = 919.
Proof. repeat split. Qed.

Example replaceFirst_1 : replaceFirst ".pdf" "" "report.pdf" = "report".
Proof. reflexivity. Qed.
Example replaceFirst_2 : replaceFirst ".pdf" "" "my.pdf-notes.pdf" = "my-notes.pdf".
Proof. reflexivity. Qed.
Example replaceFirst_3 : replaceFirst ".pdf" "" "REPORT.PDF" = "REPORT.PDF".
Proof. reflexivity. Qed.
Example split_1 : split "," "data:image/png;base64,iVBOR" = ["data:image/png;base64"; "iVBOR"].
Proof. reflexivity. Qed.
Example split_2 : split "," "a,,b," = ["a"; ""; "b"; ""].
Proof. reflexivity. Qed.


(** ** Running effect lists *)

Section EffectLemmas.
Context {num : Type} `{JsNumber num}.

Lemma runEffects_app (st : App num) e1 e2 :
  runEffects st (e1 ++ e2) = runEffects (runEffects st e1) e2.
Proof. apply fold_left_app. Qed.

Lemma progressReports_app (e1 e2 : list (Effect num)) :
  progressReports (e1 ++ e2) = progressReports e1 ++ progressReports e2.
Proof.
  induction e1 as [|e rest IH]; [reflexivity|].
  destruct e; simpl; rewrite IH; reflexivity.
Qed.

Lemma runEffects_quiet (st : App num) effects :
  Forall quiet effects ->
  let st' := runEffects st effects in
  file st' = file st /\ pdfDoc st' = pdfDoc st /\ status st' = status st
  /\ convertedImages st' = convertedImages st /\ errorMsg st' = errorMsg st
  /\ settings st' = settings st.
Proof.
  intros Hq. revert st. induction Hq as [|e rest He _ IH]; intros st.
  - simpl. repeat split.
  - simpl. specialize (IH (applyEffect st e)). simpl in IH.
    destruct e; simpl in He; try contradiction; simpl in *; exact IH.
Qed.

Lemma last_cons_default {A} (l : list A) (a d d' : A) :
  List.last (a :: l) d = List.last (a :: l) d'.
Proof.
  revert a. induction l as [|b l IH]; intros a; [reflexivity|].
  change (List.last (b :: l) d = List.last (b :: l) d'). apply IH.
Qed.

(** [progress] holds the last value reported, if any. *)
Lemma runEffects_progress (st : App num) effects :
  progress (runEffects st effects)
  = List.last (progressReports effects) (progress st).
Proof.
  revert st. induction effects as [|e rest IH]; intros st; [reflexivity|].
  simpl. rewrite IH.
  destruct e; simpl; try reflexivity.
  destruct (progressReports rest); [reflexivity|apply last_cons_default].
Qed.

(** ** The loop *)

Lemma convertPage_page doc cfg i img :
  snd (convertPage doc cfg i) = Resolved img -> page img = i.
Proof.
  unfold convertPage. destruct (getPage doc i) as [pg|m]; simpl; [|discriminate].
  destruct (render pg _); simpl; [|discriminate].
  intros [= <-]. reflexivity.
Qed.

Lemma convertPage_quiet doc cfg i :
  Forall quiet (fst (convertPage doc cfg i)).
Proof.
  unfold convertPage. destruct (getPage doc i) as [pg|m]; simpl.
  - destruct (render pg _); simpl; repeat constructor.
  - repeat constructor.
Qed.

Lemma convertPage_reports doc cfg i :
  progressReports (fst (convertPage doc cfg i)) = [].
Proof.
  unfold convertPage. destruct (getPage doc i) as [pg|m]; simpl.
  - destruct (render pg _); reflexivity.
  - reflexivity.
Qed.

Lemma convertPages_quiet doc cfg total pending acc :
  Forall quiet (performed (convertPages doc cfg total pending acc)).
Proof.
  revert acc. induction pending as [|i rest IH]; intros acc; simpl.
  - constructor.
  - pose proof (convertPage_quiet doc cfg i) as Hq.
    destruct (convertPage doc cfg i) as [awaits [img|m]]; simpl in *.
    + apply Forall_app. split; [exact Hq|].
      constructor; [exact I|]. constructor; [exact I|]. apply IH.
    + exact Hq.
Qed.

(** When every pending page converts, the loop runs to its end: nothing is
    thrown, one image is pushed per page, in order, and one report is made
    per page. *)
Lemma convertPages_all doc cfg total pending acc :
  Forall (fun i => converts doc cfg i = true) pending ->
  let loop := convertPages doc cfg total pending acc in
  thrown loop = None
  /\ map page (images loop) = map page acc ++ pending
  /\ progressReports (performed loop) = map (progressAfter total) pending.
Proof.
  intros Hall. revert acc.
  induction Hall as [|i rest Hi _ IH]; intros acc; simpl.
  - rewrite app_nil_r. repeat split.
  - unfold converts in Hi.
    pose proof (convertPage_page doc cfg i) as Hpage.
    pose proof (convertPage_reports doc cfg i) as Hrep.
    destruct (convertPage doc cfg i) as [awaits [img|m]]; simpl in *;
      [|discriminate].
    destruct (IH (acc ++ [img])) as (Hthr & Himgs & Hprog).
    repeat split.
    + exact Hthr.
    + rewrite Himgs, map_app. simpl. rewrite (Hpage img eq_refl).
      rewrite <- app_assoc. reflexivity.
    + rewrite progressReports_app, Hrep. simpl. rewrite Hprog. reflexivity.
Qed.

(** When the pages before [k] convert and page [k] throws, the loop is left
    at [k]: the images pushed are those of the pages before [k]. *)
Lemma convertPages_stop doc cfg total before k after acc m :
  Forall (fun i => converts doc cfg i = true) before ->
  snd (convertPage doc cfg k) = Rejected m ->
  let loop := convertPages doc cfg total (before ++ k :: after) acc in
  thrown loop = Some m
  /\ map page (images loop) = map page acc ++ before
  /\ progressReports (performed loop) = map (progressAfter total) before.
Proof.
  intros Hall Hk. revert acc.
  induction Hall as [|i rest Hi _ IH]; intros acc; simpl.
  - pose proof (convertPage_reports doc cfg k) as Hrep.
    destruct (convertPage doc cfg k) as [awaits [img|m']]; simpl in *;
      [discriminate|].
    injection Hk as ->. rewrite app_nil_r. repeat split. exact Hrep.
  - unfold converts in Hi.
    pose proof (convertPage_page doc cfg i) as Hpage.
    pose proof (convertPage_reports doc cfg i) as Hrep.
    destruct (convertPage doc cfg i) as [awaits [img|m']]; simpl in *;
      [|discriminate].
    destruct (IH (acc ++ [img])) as (Hthr & Himgs & Hprog).
    repeat split.
    + exact Hthr.
    + rewrite Himgs, map_app. simpl. rewrite (Hpage img eq_refl).
      rewrite <- app_assoc. reflexivity.
    + rewrite progressReports_app, Hrep. simpl. rewrite Hprog. reflexivity.
Qed.

End EffectLemmas.

(** ** Binary64 arithmetic *)

(** [FloatAxioms] specifies the operations of [PrimFloat] by the functions
    of [SpecFloat].  This part derives from that specification what the
    arithmetic of the handlers needs: away from overflow and underflow, the
    product and the quotient of two normal doubles are the exact result
    rounded to 53 bits, to nearest ([rounds]); this rounding is monotone,
    changes its argument by at most one part in 2^53, and leaves the
    integers below 2^53 as they are. *)

(** *** Powers of two *)

Lemma pow2_pos e : (0 < pow2 e)%Q.
Proof. apply Qpower_0_lt. reflexivity. Qed.

Lemma pow2_plus a b : (pow2 (a + b) == pow2 a * pow2 b)%Q.
Proof. apply Qpower_plus. discriminate. Qed.

Lemma pow2_succ a : (pow2 (a + 1) == 2 * pow2 a)%Q.
Proof. rewrite pow2_plus. unfold pow2 at 2. rewrite Qpower_1_r. ring. Qed.

Lemma pow2_le a b : a <= b -> (pow2 a <= pow2 b)%Q.
Proof. intros. apply Qpower_le_compat_l; [assumption|discriminate]. Qed.

Lemma pow2_lt a b : a < b -> (pow2 a < pow2 b)%Q.
Proof. intros. apply Qpower_lt_compat_l; [assumption|reflexivity]. Qed.

Lemma pow2_lt_inv a b : (pow2 a < pow2 b)%Q -> a < b.
Proof. intros. eapply Qpower_lt_compat_l_inv; [eassumption|reflexivity]. Qed.

Lemma pow2_Z n : 0 <= n -> (pow2 n == inject_Z (2 ^ n))%Q.
Proof. intros. unfold pow2. rewrite Zpower_Qpower by assumption. reflexivity. Qed.

Lemma pow2_div a b : (pow2 a / pow2 b == pow2 (a - b))%Q.
Proof.
  unfold pow2. rewrite Qpower_minus by discriminate. reflexivity.
Qed.

(** *** Rounding to nearest *)

Lemma inject_Z_succ k : (inject_Z (k + 1) == inject_Z k + 1)%Q.
Proof. rewrite inject_Z_plus. reflexivity. Qed.

Lemma nearestEven_mono q q' k k' :
  (q <= q')%Q -> nearestEven q k -> nearestEven q' k' -> k <= k'.
Proof.
  intros Hq Hk Hk'.
  destruct (Z_le_gt_dec k k') as [|Hgt]; [assumption|exfalso].
  assert (k' + 1 <= k) as Hs by lia.
  assert (inject_Z k' + 1 <= inject_Z k)%Q as HsQ.
  { rewrite <- inject_Z_succ. rewrite <- Zle_Qle. exact Hs. }
  destruct Hk as [[Hk1 Hk2]|[Hk He]], Hk' as [[Hk1' Hk2']|[Hk' He']];
    try lra.
  assert (inject_Z k == inject_Z k' + 1)%Q as Heq
    by (destruct Hk, Hk'; lra).
  rewrite <- inject_Z_succ in Heq. apply (proj1 (inject_Z_injective _ _)) in Heq.
  rewrite Heq in He. rewrite Z.even_add in He. rewrite He' in He. discriminate.
Qed.

Lemma inject_Z_pred k : (inject_Z (k - 1) == inject_Z k - 1)%Q.
Proof. unfold Z.sub. rewrite inject_Z_plus. reflexivity. Qed.

Lemma nearestEven_integer (j k : Z) : nearestEven (inject_Z j) k -> k = j.
Proof.
  intros Hk.
  assert (inject_Z (j - 1) < inject_Z k /\ inject_Z k < inject_Z (j + 1))%Q
    as [H1 H2].
  { rewrite inject_Z_succ, inject_Z_pred.
    destruct Hk as [[]|[[|] _]]; split; lra. }
  rewrite <- Zlt_Qlt in H1, H2. lia.
Qed.

Lemma nearestEven_bounds q k (a b : Z) :
  (inject_Z a <= q)%Q -> (q <= inject_Z b)%Q -> nearestEven q k -> a <= k <= b.
Proof.
  intros Ha Hb Hk.
  assert (nearestEven (inject_Z a) a) as Hna.
  { left. split; lra. }
  assert (nearestEven (inject_Z b) b) as Hnb.
  { left. split; lra. }
  split.
  - exact (nearestEven_mono _ _ _ _ Ha Hna Hk).
  - exact (nearestEven_mono _ _ _ _ Hb Hk Hnb).
Qed.

Lemma nearestEven_compat q q' k : (q == q')%Q -> nearestEven q k -> nearestEven q' k.
Proof.
  intros Hq [[H1 H2]|[H He]]; [left|right].
  - split; lra.
  - split; [|exact He]. destruct H; [left|right]; lra.
Qed.

Lemma Qdiv_pow2 v e : (v / pow2 e == v * pow2 (- e))%Q.
Proof.
  unfold Qdiv. apply Qmult_comp; [reflexivity|].
  unfold pow2. rewrite Qpower_opp. reflexivity.
Qed.

Lemma pow2_0 : (pow2 0 == 1)%Q.
Proof. reflexivity. Qed.

Lemma pow2_inv e : (pow2 e * pow2 (- e) == 1)%Q.
Proof. rewrite <- pow2_plus. rewrite Z.add_opp_diag_r. reflexivity. Qed.

Lemma scaled_bounds v d :
  (pow2 (d - 1) <= v)%Q -> (v < pow2 d)%Q ->
  (inject_Z (2 ^ 52) <= v / pow2 (d - 53))%Q
  /\ (v / pow2 (d - 53) < inject_Z (2 ^ 53))%Q.
Proof.
  intros Hlo Hhi. rewrite Qdiv_pow2.
  rewrite <- !pow2_Z by lia.
  assert (0 < pow2 (- (d - 53)))%Q as Hp by apply pow2_pos.
  split.
  - setoid_replace (pow2 52) with (pow2 (d - 1) * pow2 (- (d - 53)))%Q using relation Qeq.
    + apply Qmult_le_compat_r; [exact Hlo|apply Qlt_le_weak, Hp].
    + rewrite <- pow2_plus. replace (d - 1 + - (d - 53)) with 52 by lia. reflexivity.
  - setoid_replace (pow2 53) with (pow2 d * pow2 (- (d - 53)))%Q using relation Qeq.
    + apply Qmult_lt_compat_r; [exact Hp|exact Hhi].
    + rewrite <- pow2_plus. replace (d + - (d - 53)) with 53 by lia. reflexivity.
Qed.

Lemma rounds_compat v v' r r' :
  (v == v')%Q -> (r == r')%Q -> rounds v r -> rounds v' r'.
Proof.
  intros Hv Hr (d & k & H1 & H2 & H3 & H4). exists d, k.
  split; [rewrite <- Hv; exact H1|]. split; [rewrite <- Hv; exact H2|].
  split; [rewrite <- Hr; exact H3|].
  eapply nearestEven_compat; [|exact H4]. rewrite Hv. reflexivity.
Qed.

Lemma rounds_mono v w r r' :
  rounds v r -> rounds w r' -> (v <= w)%Q -> (r <= r')%Q.
Proof.
  intros (d & k & Hv1 & Hv2 & Hr & Hk) (d' & k' & Hw1 & Hw2 & Hr' & Hk') Hvw.
  assert (d <= d') as Hd.
  { assert (pow2 (d - 1) < pow2 d')%Q as H by lra. apply pow2_lt_inv in H. lia. }
  destruct (scaled_bounds v d Hv1 Hv2) as [Hq1 Hq2].
  destruct (scaled_bounds w d' Hw1 Hw2) as [Hq1' Hq2'].
  rewrite Hr, Hr'.
  destruct (Z.eq_dec d d') as [<-|Hne].
  - apply Qmult_le_compat_r; [|apply Qlt_le_weak, pow2_pos].
    rewrite <- Zle_Qle. eapply nearestEven_mono; [|exact Hk|exact Hk'].
    rewrite !Qdiv_pow2. apply Qmult_le_compat_r; [exact Hvw|apply Qlt_le_weak, pow2_pos].
  - assert (k <= 2 ^ 53) as Hk53.
    { eapply (nearestEven_bounds _ k (2 ^ 52) (2 ^ 53)); [exact Hq1| |exact Hk].
      apply Qlt_le_weak, Hq2. }
    assert (2 ^ 52 <= k') as Hk52.
    { eapply (nearestEven_bounds _ k' (2 ^ 52) (2 ^ 53)); [exact Hq1'| |exact Hk'].
      apply Qlt_le_weak, Hq2'. }
    apply Qle_trans with (pow2 d).
    + setoid_replace (pow2 d) with (inject_Z (2 ^ 53) * pow2 (d - 53))%Q using relation Qeq.
      * apply Qmult_le_compat_r; [|apply Qlt_le_weak, pow2_pos].
        rewrite <- Zle_Qle. exact Hk53.
      * rewrite <- pow2_Z by lia. rewrite <- pow2_plus.
        replace (53 + (d - 53)) with d by lia. reflexivity.
    + apply Qle_trans with (pow2 (d' - 1)); [apply pow2_le; lia|].
      setoid_replace (pow2 (d' - 1)) with (inject_Z (2 ^ 52) * pow2 (d' - 53))%Q using relation Qeq.
      * apply Qmult_le_compat_r; [|apply Qlt_le_weak, pow2_pos].
        rewrite <- Zle_Qle. exact Hk52.
      * rewrite <- pow2_Z by lia. rewrite <- pow2_plus.
        replace (52 + (d' - 53)) with (d' - 1) by lia. reflexivity.
Qed.


Lemma rounds_error v r :
  rounds v r ->
  (v * (1 - pow2 (-53)) <= r)%Q /\ (r <= v * (1 + pow2 (-53)))%Q.
Proof.
  intros (d & k & Hv1 & Hv2 & Hr & Hk).
  set (p := pow2 (d - 53)) in *.
  assert (0 < p)%Q as Hp by apply pow2_pos.
  set (q := (v / p)%Q) in *.
  assert (v == q * p)%Q as Hv.
  { unfold q. field. intros H0. rewrite H0 in Hp. exact (Qlt_irrefl 0 Hp). }
  assert (q - (1 # 2) <= inject_Z k /\ inject_Z k <= q + (1 # 2))%Q as [Hk1 Hk2].
  { destruct Hk as [[]|[[|] _]]; split; lra. }
  assert (p * (1 # 2) <= v * pow2 (-53))%Q as Hu.
  { apply Qle_trans with (pow2 (d - 1) * pow2 (-53))%Q.
    - unfold p. change (1 # 2)%Q with (pow2 (-1)).
      rewrite <- !pow2_plus. apply pow2_le. lia.
    - apply Qmult_le_compat_r; [exact Hv1|apply Qlt_le_weak, pow2_pos]. }
  rewrite Hr.
  assert ((q - (1 # 2)) * p <= inject_Z k * p)%Q as Ha
    by (apply Qmult_le_compat_r; [exact Hk1|apply Qlt_le_weak, Hp]).
  assert (inject_Z k * p <= (q + (1 # 2)) * p)%Q as Hb
    by (apply Qmult_le_compat_r; [exact Hk2|apply Qlt_le_weak, Hp]).
  split; lra.
Qed.

Lemma rounds_integer (z : Z) r :
  0 < z < 2 ^ 53 -> rounds (inject_Z z) r -> (r == inject_Z z)%Q.
Proof.
  intros Hz (d & k & Hv1 & Hv2 & Hr & Hk).
  assert (d <= 53) as Hd.
  { assert (pow2 (d - 1) < pow2 53)%Q as H.
    { eapply Qle_lt_trans; [exact Hv1|]. rewrite pow2_Z by lia.
      rewrite <- Zlt_Qlt. lia. }
    apply pow2_lt_inv in H. lia. }
  assert (inject_Z z / pow2 (d - 53) == inject_Z (z * 2 ^ (53 - d)))%Q as Hq.
  { rewrite Qdiv_pow2, inject_Z_mult, <- pow2_Z by lia.
    replace (- (d - 53)) with (53 - d) by lia. reflexivity. }
  apply (nearestEven_compat _ _ _ Hq) in Hk. apply nearestEven_integer in Hk.
  rewrite Hr, Hk, inject_Z_mult, <- pow2_Z by lia.
  rewrite <- Qmult_assoc, <- pow2_plus.
  replace (53 - d + (d - 53)) with 0 by lia. rewrite pow2_0. ring.
Qed.

(** *** The rounding routine of [SpecFloat] *)

Lemma located_compat q q' m l : (q == q')%Q -> located q m l -> located q' m l.
Proof.
  intros Hq. destruct l as [|[]]; cbn [located]; intros H.
  - lra.
  - lra.
  - destruct H; split; lra.
  - destruct H; split; lra.
Qed.

Lemma located_bounds q m l :
  located q m l -> (inject_Z m <= q)%Q /\ (q < inject_Z m + 1)%Q.
Proof.
  destruct l as [|[]]; cbn [located]; intros H.
  - split; lra.
  - split; lra.
  - destruct H; split; lra.
  - destruct H; split; lra.
Qed.

Lemma shr_record_of_loc_m m l : shr_m (shr_record_of_loc m l) = m.
Proof. destruct l as [|[]]; reflexivity. Qed.

Lemma loc_of_shr_record_of_loc m l :
  loc_of_shr_record (shr_record_of_loc m l) = l.
Proof. destruct l as [|[]]; reflexivity. Qed.

Lemma inject_Z_xO p : (inject_Z (Zpos p~0) == 2 * inject_Z (Zpos p))%Q.
Proof. rewrite Pos2Z.inj_xO, inject_Z_mult. reflexivity. Qed.

Lemma inject_Z_xI p : (inject_Z (Zpos p~1) == 2 * inject_Z (Zpos p) + 1)%Q.
Proof. rewrite Pos2Z.inj_xI, inject_Z_plus, inject_Z_mult. reflexivity. Qed.

(** One step of the shift keeps track of where the exact value lies. *)
Lemma shr_1_located mrs q :
  0 <= shr_m mrs ->
  located q (shr_m mrs) (loc_of_shr_record mrs) ->
  0 <= shr_m (shr_1 mrs)
  /\ located (q * (1 # 2)) (shr_m (shr_1 mrs)) (loc_of_shr_record (shr_1 mrs)).
Proof.
  destruct mrs as [m r s]. cbn [shr_m]. intros Hm Hq.
  destruct m as [|p|p]; [| |lia].
  - destruct r, s; located_cases Hq.
  - destruct p as [p|p|].
    + pose proof (inject_Z_xI p) as Hp.
      destruct r, s; located_cases Hq.
    + pose proof (inject_Z_xO p) as Hp.
      destruct r, s; located_cases Hq.
    + destruct r, s; located_cases Hq.
Qed.

Lemma iter_shr_1_located (n : positive) : forall mrs q,
  0 <= shr_m mrs ->
  located q (shr_m mrs) (loc_of_shr_record mrs) ->
  0 <= shr_m (SpecFloat.iter_pos shr_1 n mrs)
  /\ located (q * pow2 (- Zpos n)) (shr_m (SpecFloat.iter_pos shr_1 n mrs))
       (loc_of_shr_record (SpecFloat.iter_pos shr_1 n mrs)).
Proof.
  induction n as [n IH|n IH|]; intros mrs q Hm Hq; cbn [SpecFloat.iter_pos].
  - destruct (shr_1_located mrs q Hm Hq) as [Hm1 Hq1].
    destruct (IH _ _ Hm1 Hq1) as [Hm2 Hq2].
    destruct (IH _ _ Hm2 Hq2) as [Hm3 Hq3].
    split; [exact Hm3|]. eapply located_compat; [|exact Hq3].
    rewrite <- !Qmult_assoc. apply Qmult_comp; [reflexivity|].
    change (1 # 2)%Q with (pow2 (-1)). rewrite <- !pow2_plus.
    replace (-1 + (- Zpos n + - Zpos n)) with (- Zpos n~1) by lia. reflexivity.
  - destruct (IH _ _ Hm Hq) as [Hm2 Hq2].
    destruct (IH _ _ Hm2 Hq2) as [Hm3 Hq3].
    split; [exact Hm3|]. eapply located_compat; [|exact Hq3].
    rewrite <- !Qmult_assoc. apply Qmult_comp; [reflexivity|].
    rewrite <- !pow2_plus.
    replace (- Zpos n + - Zpos n) with (- Zpos n~0) by lia. reflexivity.
  - exact (shr_1_located mrs q Hm Hq).
Qed.

Lemma shr_located mrs e n q :
  0 <= n -> 0 <= shr_m mrs ->
  located q (shr_m mrs) (loc_of_shr_record mrs) ->
  exists mrs', shr mrs e n = (mrs', e + n)
    /\ 0 <= shr_m mrs'
    /\ located (q * pow2 (- n)) (shr_m mrs') (loc_of_shr_record mrs').
Proof.
  intros Hn Hm Hq. destruct n as [|n|n]; [| |lia].
  - exists mrs. cbn [shr]. rewrite Z.add_0_r. split; [reflexivity|].
    split; [exact Hm|]. eapply located_compat; [|exact Hq].
    change (pow2 (-0)) with 1%Q. ring.
  - exists (SpecFloat.iter_pos shr_1 n mrs). split; [reflexivity|].
    apply iter_shr_1_located; assumption.
Qed.

Lemma round_nearest_even_nearest q m l :
  located q m l -> nearestEven q (round_nearest_even m l).
Proof.
  destruct l as [|[]]; cbn [located round_nearest_even]; intros H.
  - left. split; lra.
  - destruct (Z.even m) eqn:He.
    + right. split; [left; lra|exact He].
    + right. split.
      * right. rewrite inject_Z_succ. lra.
      * rewrite Z.even_add, He. reflexivity.
  - left. destruct H. split; lra.
  - left. destruct H. rewrite inject_Z_succ. split; lra.
Qed.

Lemma digits2_pos_bounds (p : positive) :
  2 ^ (Zpos (digits2_pos p) - 1) <= Zpos p < 2 ^ Zpos (digits2_pos p).
Proof.
  induction p as [p IH|p IH|]; cbn [digits2_pos].
  - rewrite Pos2Z.inj_succ. replace (Z.succ (Zpos (digits2_pos p)) - 1) with (Z.succ (Zpos (digits2_pos p) - 1)) by lia.
    rewrite !Z.pow_succ_r by lia. lia.
  - rewrite Pos2Z.inj_succ. replace (Z.succ (Zpos (digits2_pos p)) - 1) with (Z.succ (Zpos (digits2_pos p) - 1)) by lia.
    rewrite !Z.pow_succ_r by lia. lia.
  - simpl. lia.
Qed.

Lemma Zdigits2_unique (m n : Z) :
  2 ^ (n - 1) <= m < 2 ^ n -> 0 < n -> Zdigits2 m = n.
Proof.
  intros Hm Hn.
  assert (0 < m) as Hpos by (pose proof (Z.pow_pos_nonneg 2 (n - 1)); lia).
  destruct m as [|p|p]; try lia. cbn [Zdigits2].
  pose proof (digits2_pos_bounds p) as Hd.
  set (d := Zpos (digits2_pos p)) in *.
  assert (0 < d) by (unfold d; lia).
  destruct (Z_lt_ge_dec d n), (Z_lt_ge_dec n d); try lia.
  - assert (2 ^ d <= 2 ^ (n - 1)) by (apply Z.pow_le_mono_r; lia). lia.
  - assert (2 ^ n <= 2 ^ (d - 1)) by (apply Z.pow_le_mono_r; lia). lia.
Qed.

Lemma fexp_normal d : -1021 <= d -> fexp prec emax d = d - 53.
Proof. intros. unfold fexp, SpecFloat.emin, prec, emax. lia. Qed.

(** In the normal range [binary_round_aux] returns a normal double, whose
    value is the exact value rounded. *)
Lemma binary_round_aux_correct (mx e : Z) (l : location) (v : Q) :
  0 < mx -> 53 <= Zdigits2 mx ->
  located (v / pow2 e) mx l ->
  (pow2 (-1022) <= v)%Q -> (v < pow2 1023)%Q ->
  exists m' e',
    binary_round_aux prec emax false mx e l = S754_finite false m' e'
    /\ digits2_pos m' = 53%positive
    /\ -1074 <= e' <= 971
    /\ rounds v (inject_Z (Zpos m') * pow2 e').
Proof.
  intros Hmx Hdig Hloc Hlo Hhi.
  set (dm := Zdigits2 mx) in *.
  assert (2 ^ (dm - 1) <= mx < 2 ^ dm) as Hmb.
  { destruct mx as [|p|p]; try lia. apply digits2_pos_bounds. }
  destruct (located_bounds _ _ _ Hloc) as [Hq1 Hq2].
  assert (0 < pow2 e)%Q as Hpe by apply pow2_pos.
  assert (v == v / pow2 e * pow2 e)%Q as Hv.
  { field. intros H0. rewrite H0 in Hpe. exact (Qlt_irrefl 0 Hpe). }
  set (d := dm + e).
  assert (pow2 (d - 1) <= v)%Q as Hv1.
  { rewrite Hv. unfold d. replace (dm + e - 1) with ((dm - 1) + e) by lia.
    rewrite pow2_plus. apply Qmult_le_compat_r; [|apply Qlt_le_weak, Hpe].
    eapply Qle_trans; [|exact Hq1]. rewrite pow2_Z by lia.
    rewrite <- Zle_Qle. lia. }
  assert (v < pow2 d)%Q as Hv2.
  { rewrite Hv. unfold d. rewrite pow2_plus.
    apply Qmult_lt_compat_r; [exact Hpe|].
    eapply Qlt_le_trans; [exact Hq2|]. rewrite pow2_Z by lia.
    rewrite <- inject_Z_succ, <- Zle_Qle. lia. }
  assert (-1021 <= d <= 1023) as Hd.
  { assert (pow2 (-1022) < pow2 d)%Q as H1 by lra.
    assert (pow2 (d - 1) < pow2 1023)%Q as H2 by lra.
    apply pow2_lt_inv in H1, H2. lia. }
  destruct (scaled_bounds v d Hv1 Hv2) as [Hs1 Hs2].
  unfold binary_round_aux, shr_fexp. fold dm. fold d.
  rewrite (fexp_normal d) by lia.
  destruct (shr_located (shr_record_of_loc mx l) e (d - 53 - e) (v / pow2 e))
    as (mrs' & -> & Hm' & Hloc').
  { unfold d. lia. }
  { rewrite shr_record_of_loc_m. lia. }
  { rewrite shr_record_of_loc_m, loc_of_shr_record_of_loc. exact Hloc. }
  replace (e + (d - 53 - e)) with (d - 53) by lia.
  set (k := round_nearest_even (shr_m mrs') (loc_of_shr_record mrs')).
  assert (nearestEven (v / pow2 (d - 53)) k) as Hk.
  { apply round_nearest_even_nearest. eapply located_compat; [|exact Hloc'].
    rewrite !Qdiv_pow2, <- Qmult_assoc, <- pow2_plus.
    replace (- e + - (d - 53 - e)) with (- (d - 53)) by lia. reflexivity. }
  assert (2 ^ 52 <= k <= 2 ^ 53) as Hkb.
  { eapply nearestEven_bounds; [exact Hs1| |exact Hk]. apply Qlt_le_weak, Hs2. }
  destruct (Z.eq_dec k (2 ^ 53)) as [Hk53|Hk53].
  - rewrite Hk53. change (Zdigits2 (2 ^ 53)) with 54.
    rewrite (fexp_normal (54 + (d - 53))) by lia.
    replace (54 + (d - 53) - 53 - (d - 53)) with 1 by lia.
    change (shr (shr_record_of_loc (2 ^ 53) loc_Exact) (d - 53) 1)
      with ({| shr_m := 4503599627370496; shr_r := false; shr_s := false |},
            d - 53 + 1).
    cbn [shr_m].
    assert ((d - 53 + 1 <=? emax - prec) = true) as ->
      by (apply Z.leb_le; unfold emax, prec; lia).
    exists 4503599627370496%positive, (d - 53 + 1).
    split; [reflexivity|]. split; [reflexivity|].
    split; [lia|].
    exists d, k. split; [exact Hv1|]. split; [exact Hv2|]. split; [|exact Hk].
    rewrite Hk53. replace (d - 53 + 1) with (1 + (d - 53)) by lia.
    rewrite pow2_plus. change (pow2 1) with 2%Q.
    assert (inject_Z (2 ^ 53) == 2 * inject_Z 4503599627370496)%Q as ->
      by reflexivity.
    ring.
  - assert (Zdigits2 k = 53) as Hdk by (apply Zdigits2_unique; lia).
    rewrite Hdk. rewrite (fexp_normal (53 + (d - 53))) by lia.
    replace (53 + (d - 53) - 53 - (d - 53)) with 0 by lia.
    cbn [shr_record_of_loc shr shr_m].
    destruct k as [|p|p] eqn:Ek; try lia.
    assert ((d - 53 <=? emax - prec) = true) as ->
      by (apply Z.leb_le; unfold emax, prec; lia).
    exists p, (d - 53). split; [reflexivity|].
    split; [cbn [Zdigits2] in Hdk; injection Hdk as ->; reflexivity|].
    split; [lia|].
    exists d, (Zpos p). split; [exact Hv1|]. split; [exact Hv2|].
    split; [reflexivity|]. exact Hk.
Qed.

(** *** Products and quotients of doubles *)

(** A double that [classify] calls positive and normal has a 53-bit
    significand and an exponent in range. *)
Lemma classify_PNormal x :
  classify x = PNormal ->
  exists m e, Prim2SF x = S754_finite false m e
    /\ digits2_pos m = 53%positive /\ -1074 <= e <= 971.
Proof.
  intros Hc. rewrite classify_spec in Hc. pose proof (Prim2SF_valid x) as Hv.
  unfold SF64classify, SFclassify in Hc.
  destruct (Prim2SF x) as [[]|[]| |[] m e]; try discriminate.
  - destruct (Z.pos (digits2_pos m) =? prec); discriminate.
  - destruct (Z.pos (digits2_pos m) =? prec) eqn:Hd; [|discriminate].
    apply Z.eqb_eq in Hd. unfold prec in Hd. injection Hd as Hd.
    exists m, e. split; [reflexivity|]. split; [exact Hd|].
    cbn [SpecFloat.valid_binary] in Hv. unfold bounded, canonical_mantissa in Hv.
    apply andb_prop in Hv as [Hcan Hle].
    apply Z.eqb_eq in Hcan. apply Z.leb_le in Hle.
    rewrite Hd in Hcan. unfold fexp, SpecFloat.emin, prec, emax in *. lia.
Qed.

Lemma PNormal_classify x m e :
  Prim2SF x = S754_finite false m e -> digits2_pos m = 53%positive ->
  classify x = PNormal.
Proof.
  intros Hx Hd. rewrite classify_spec, Hx. unfold SF64classify, SFclassify.
  rewrite Hd. reflexivity.
Qed.

Lemma valueOf_finite x m e :
  Prim2SF x = S754_finite false m e ->
  valueOf x = (inject_Z (Zpos m) * pow2 e)%Q.
Proof. intros Hx. unfold valueOf. rewrite Hx. reflexivity. Qed.

Lemma digits_53_bounds m :
  digits2_pos m = 53%positive -> 2 ^ 52 <= Zpos m < 2 ^ 53.
Proof.
  intros Hd. pose proof (digits2_pos_bounds m) as H. rewrite Hd in H. exact H.
Qed.

Lemma valueOf_normal_pos x : classify x = PNormal -> (0 < valueOf x)%Q.
Proof.
  intros Hc. destruct (classify_PNormal x Hc) as (m & e & Hx & _).
  rewrite (valueOf_finite x m e Hx).
  apply Qmult_lt_0_compat; [reflexivity|apply pow2_pos].
Qed.

Lemma Zdigits2_ge m n : 0 <= n -> 2 ^ n <= m -> n + 1 <= Zdigits2 m.
Proof.
  intros Hn Hm.
  assert (0 < m) as Hpos by (pose proof (Z.pow_pos_nonneg 2 n); lia).
  destruct m as [|p|p]; try lia. cbn [Zdigits2].
  pose proof (digits2_pos_bounds p) as Hd.
  destruct (Z_lt_ge_dec n (Zpos (digits2_pos p))); [lia|].
  assert (2 ^ Zpos (digits2_pos p) <= 2 ^ n) by (apply Z.pow_le_mono_r; lia).
  lia.
Qed.

(** [x * y] *)
Lemma mul_rounds x y :
  classify x = PNormal -> classify y = PNormal ->
  (pow2 (-1022) <= valueOf x * valueOf y)%Q ->
  (valueOf x * valueOf y < pow2 1023)%Q ->
  classify (x * y)%float = PNormal
  /\ rounds (valueOf x * valueOf y) (valueOf (x * y)%float).
Proof.
  intros Hx Hy Hlo Hhi.
  destruct (classify_PNormal x Hx) as (mx & ex & Ex & Dx & Bx).
  destruct (classify_PNormal y Hy) as (my & ey & Ey & Dy & By).
  rewrite (valueOf_finite x mx ex Ex), (valueOf_finite y my ey Ey) in *.
  pose proof (digits_53_bounds mx Dx) as Hmx.
  pose proof (digits_53_bounds my Dy) as Hmy.
  destruct (binary_round_aux_correct (Zpos (mx * my)) (ex + ey) loc_Exact
              (inject_Z (Zpos mx) * pow2 ex * (inject_Z (Zpos my) * pow2 ey)))
    as (m' & e' & Hres & Hd' & He' & Hr).
  - lia.
  - apply (Zdigits2_ge _ 52); [lia|]. rewrite Pos2Z.inj_mul.
    change (2 ^ 52) with (2 ^ 52 * 1). apply Z.mul_le_mono_nonneg; lia.
  - cbn [located]. rewrite Pos2Z.inj_mul, inject_Z_mult, pow2_plus.
    field. split; intros H0; [pose proof (pow2_pos ey)|pose proof (pow2_pos ex)]; lra.
  - exact Hlo.
  - exact Hhi.
  - assert (Prim2SF (x * y)%float = S754_finite false m' e') as Hxy.
    { rewrite FloatAxioms.mul_spec, Ex, Ey. exact Hres. }
    split; [exact (PNormal_classify _ _ _ Hxy Hd')|].
    rewrite (valueOf_finite _ _ _ Hxy). exact Hr.
Qed.

(** The location that the division computes from the remainder. *)
Lemma new_location_located (my q r : Z) :
  0 < my -> 0 <= r < my ->
  located (inject_Z q + inject_Z r / inject_Z my) q (new_location my r).
Proof.
  intros Hmy Hr.
  assert (0 < inject_Z my)%Q as HmyQ by (change 0%Q with (inject_Z 0); rewrite <- Zlt_Qlt; lia).
  set (t := (inject_Z r / inject_Z my)%Q).
  assert (forall a b : Z, a * r < b * my -> (inject_Z a * t < inject_Z b)%Q) as Hlt.
  { intros a b H. unfold t. unfold Qdiv. rewrite Qmult_assoc.
    apply Qlt_shift_div_r; [exact HmyQ|]. rewrite <- !inject_Z_mult, <- Zlt_Qlt. exact H. }
  assert (forall a b : Z, b * my < a * r -> (inject_Z b < inject_Z a * t)%Q) as Hgt.
  { intros a b H. unfold t. unfold Qdiv. rewrite Qmult_assoc.
    apply Qlt_shift_div_l; [exact HmyQ|]. rewrite <- !inject_Z_mult, <- Zlt_Qlt. exact H. }
  assert (forall a b : Z, a * r = b * my -> (inject_Z a * t == inject_Z b)%Q) as Heq.
  { intros a b H. unfold t. unfold Qdiv. rewrite Qmult_assoc. apply Qle_antisym.
    - apply Qle_shift_div_r; [exact HmyQ|].
      rewrite <- !inject_Z_mult, <- Zle_Qle. lia.
    - apply Qle_shift_div_l; [exact HmyQ|].
      rewrite <- !inject_Z_mult, <- Zle_Qle. lia. }
  clearbody t.
  unfold new_location.
  destruct (Z.eq_dec r 0) as [->|Hr0].
  { assert (t == 0)%Q as Ht.
    { specialize (Heq 1 0 ltac:(lia)). change (inject_Z 0) with 0%Q in Heq.
      change (inject_Z 1) with 1%Q in Heq. lra. }
    destruct (Z.even my); unfold new_location_even, new_location_odd;
      change (0 =? 0) with true; cbn [located]; lra. }
  assert (0 < t)%Q as Htpos.
  { specialize (Hgt 1 0 ltac:(lia)). change (inject_Z 0) with 0%Q in Hgt.
    change (inject_Z 1) with 1%Q in Hgt. lra. }
  destruct (Z.even my) eqn:Heven; unfold new_location_even, new_location_odd;
    rewrite (proj2 (Z.eqb_neq r 0) Hr0).
  - destruct (Z.compare_spec (2 * r) my) as [Hc|Hc|Hc]; cbn [located].
    + specialize (Heq 2 1 ltac:(lia)).
      change (inject_Z 2) with 2%Q in Heq. change (inject_Z 1) with 1%Q in Heq. lra.
    + specialize (Hlt 2 1 ltac:(lia)).
      change (inject_Z 2) with 2%Q in Hlt. change (inject_Z 1) with 1%Q in Hlt.
      split; lra.
    + specialize (Hgt 2 1 ltac:(lia)). specialize (Hlt 1 1 ltac:(lia)).
      change (inject_Z 2) with 2%Q in Hgt. change (inject_Z 1) with 1%Q in *.
      split; lra.
  - assert (2 * r <> my) as Hodd.
    { intros <-. rewrite Z.even_mul in Heven. discriminate. }
    destruct (Z.compare_spec (2 * r + 1) my) as [Hc|Hc|Hc]; cbn [located].
    + specialize (Hlt 2 1 ltac:(lia)).
      change (inject_Z 2) with 2%Q in Hlt. change (inject_Z 1) with 1%Q in Hlt.
      split; lra.
    + specialize (Hlt 2 1 ltac:(lia)).
      change (inject_Z 2) with 2%Q in Hlt. change (inject_Z 1) with 1%Q in Hlt.
      split; lra.
    + specialize (Hgt 2 1 ltac:(lia)). specialize (Hlt 1 1 ltac:(lia)).
      change (inject_Z 2) with 2%Q in Hgt. change (inject_Z 1) with 1%Q in *.
      split; lra.
Qed.

Lemma inject_Z_pos_lt (z : Z) : 0 < z -> (0 < inject_Z z)%Q.
Proof. intros. change 0%Q with (inject_Z 0). rewrite <- Zlt_Qlt. assumption. Qed.

(** [x / y] *)
Lemma div_rounds x y :
  classify x = PNormal -> classify y = PNormal ->
  (pow2 (-1021) <= valueOf x / valueOf y)%Q ->
  (valueOf x / valueOf y < pow2 1023)%Q ->
  classify (x / y)%float = PNormal
  /\ rounds (valueOf x / valueOf y) (valueOf (x / y)%float).
Proof.
  intros Hx Hy Hlo Hhi.
  destruct (classify_PNormal x Hx) as (mx & ex & Ex & Dx & Bx).
  destruct (classify_PNormal y Hy) as (my & ey & Ey & Dy & By).
  rewrite (valueOf_finite x mx ex Ex), (valueOf_finite y my ey Ey) in *.
  pose proof (digits_53_bounds mx Dx) as Hmx.
  pose proof (digits_53_bounds my Dy) as Hmy.
  pose proof (inject_Z_pos_lt (Zpos mx) ltac:(lia)) as HmxQ.
  pose proof (inject_Z_pos_lt (Zpos my) ltac:(lia)) as HmyQ.
  pose proof (pow2_pos ex) as Hpex. pose proof (pow2_pos ey) as Hpey.
  set (v := (inject_Z (Zpos mx) * pow2 ex / (inject_Z (Zpos my) * pow2 ey))%Q) in *.
  set (delta := ex - ey).
  assert (v == inject_Z (Zpos mx) / inject_Z (Zpos my) * pow2 delta)%Q as Hv.
  { unfold v, delta. rewrite <- pow2_div. field. split; lra. }
  assert (-1021 <= delta) as Hdelta.
  { assert (pow2 (-1021) < pow2 (delta + 1))%Q as H.
    { eapply Qle_lt_trans; [exact Hlo|]. rewrite Hv, pow2_succ.
      apply Qmult_lt_compat_r; [apply pow2_pos|].
      apply Qlt_shift_div_r; [exact HmyQ|].
      change 2%Q with (inject_Z 2). rewrite <- inject_Z_mult, <- Zlt_Qlt. lia. }
    apply pow2_lt_inv in H. lia. }
  assert (Prim2SF (x / y)%float
          = let '(q, r) := Z.div_eucl (Zpos mx * 2 ^ 53) (Zpos my) in
            binary_round_aux prec emax false q (delta - 53)
              (new_location (Zpos my) r)) as Hres.
  { rewrite FloatAxioms.div_spec, Ex, Ey. unfold SF64div, SFdiv, SFdiv_core_binary.
    cbn [Zdigits2 xorb]. rewrite Dx, Dy.
    replace (53 + ex - (53 + ey)) with delta by (unfold delta; lia).
    rewrite (fexp_normal delta) by lia. fold delta.
    rewrite (Z.min_l (delta - 53) delta) by lia.
    replace (delta - (delta - 53)) with 53 by lia.
    rewrite Z.shiftl_mul_pow2 by lia.
    destruct (Z.div_eucl (Zpos mx * 2 ^ 53) (Zpos my)) as [q r]. reflexivity. }
  pose proof (Z_div_mod (Zpos mx * 2 ^ 53) (Zpos my) ltac:(lia)) as Hdm.
  destruct (Z.div_eucl (Zpos mx * 2 ^ 53) (Zpos my)) as [q r].
  destruct Hdm as [Hdiv Hr].
  assert (2 ^ 52 <= q) as Hq by nia.
  destruct (binary_round_aux_correct q (delta - 53) (new_location (Zpos my) r) v)
    as (m' & e' & Hres' & Hd' & He' & Hround).
  - lia.
  - apply (Zdigits2_ge _ 52); lia.
  - eapply located_compat; [|apply new_location_located; [|exact Hr]; lia].
    rewrite Hv, Qdiv_pow2.
    replace (- (delta - 53)) with (- delta + 53) by lia.
    rewrite pow2_plus, (pow2_Z 53) by lia.
    pose proof (pow2_inv delta) as Hinv.
    transitivity (inject_Z (Zpos mx * 2 ^ 53) / inject_Z (Zpos my))%Q.
    + rewrite Hdiv, inject_Z_plus, inject_Z_mult. field. lra.
    + rewrite inject_Z_mult.
      transitivity (inject_Z (Zpos mx) / inject_Z (Zpos my)
                    * (pow2 delta * pow2 (- delta)) * inject_Z (2 ^ 53))%Q.
      * rewrite Hinv. field. lra.
      * field. lra.
  - eapply Qle_trans; [|exact Hlo]. apply pow2_le. lia.
  - exact Hhi.
  - rewrite Hres' in Hres.
    split; [exact (PNormal_classify _ _ _ Hres Hd')|].
    rewrite (valueOf_finite _ _ _ Hres). exact Hround.
Qed.

(** *** Integers, truncation and [Math.round] *)

Lemma iter_xO (p d : positive) : Zpos (Pos.iter xO p d) = Zpos p * 2 ^ Zpos d.
Proof.
  revert p. induction d as [|d IH] using Pos.peano_ind; intros p.
  - cbn [Pos.iter]. lia.
  - rewrite Pos.iter_succ, Pos2Z.inj_xO, IH, Pos2Z.inj_succ, Z.pow_succ_r by lia.
    lia.
Qed.

(** A positive integer below 2^53 is a normal double, exactly. *)
Lemma float_ofZ_exact (z : Z) :
  0 < z < 2 ^ 53 ->
  classify (float_ofZ z) = PNormal
  /\ (valueOf (float_ofZ z) == inject_Z z)%Q.
Proof.
  intros Hz. unfold float_ofZ.
  assert ((z <? 0) = false) as -> by (apply Z.ltb_ge; lia).
  assert (Prim2SF (of_uint63 (of_Z z)) = binary_normalize prec emax z 0 false)
    as Hspec.
  { rewrite of_uint63_spec, of_Z_spec. rewrite Z.mod_small; [reflexivity|].
    change wB with (2 ^ 63). lia. }
  destruct z as [|p|p]; try lia.
  cbn [binary_normalize] in Hspec. unfold binary_round in Hspec.
  pose proof (digits2_pos_bounds p) as Hp.
  set (dp := Zpos (digits2_pos p)) in *.
  assert (0 < dp <= 53) as Hdp.
  { split; [unfold dp; lia|].
    destruct (Z_lt_ge_dec 53 dp); [|lia].
    assert (2 ^ 53 <= 2 ^ (dp - 1)) by (apply Z.pow_le_mono_r; lia). lia. }
  assert (fexp prec emax (dp + 0) = dp - 53) as Hfexp
    by (unfold fexp, SpecFloat.emin, prec, emax; lia).
  rewrite Hfexp in Hspec.
  assert (exists mz, shl_align p 0 (dp - 53) = (mz, dp - 53)
                     /\ Zpos mz = Zpos p * 2 ^ (53 - dp)) as (mz & Hal & Hmz).
  { unfold shl_align. rewrite Z.sub_0_r.
    destruct (dp - 53) as [|n|n] eqn:En; try lia.
    - exists p. split; [reflexivity|]. replace (53 - dp) with 0 by lia. lia.
    - exists (Pos.iter xO p n). split; [reflexivity|].
      rewrite iter_xO. replace (53 - dp) with (Zpos n) by lia. reflexivity. }
  rewrite Hal in Hspec.
  assert (2 ^ 52 <= Zpos mz) as Hmz52.
  { rewrite Hmz. replace 52 with ((dp - 1) + (53 - dp)) by lia.
    rewrite Z.pow_add_r by lia. apply Z.mul_le_mono_nonneg_r; [|lia].
    apply Z.pow_nonneg. lia. }
  destruct (binary_round_aux_correct (Zpos mz) (dp - 53) loc_Exact
              (inject_Z (Zpos p))) as (m' & e' & Hres & Hd' & He' & Hr).
  - lia.
  - apply (Zdigits2_ge _ 52); lia.
  - cbn [located]. rewrite Hmz, Qdiv_pow2, inject_Z_mult, <- pow2_Z by lia.
    replace (- (dp - 53)) with (53 - dp) by lia. reflexivity.
  - apply Qle_trans with (pow2 0); [apply pow2_le; lia|].
    change (pow2 0) with (inject_Z 1). rewrite <- Zle_Qle. lia.
  - apply Qlt_le_trans with (pow2 53); [|apply pow2_le; lia].
    rewrite pow2_Z by lia. rewrite <- Zlt_Qlt. lia.
  - rewrite Hres in Hspec.
    split; [exact (PNormal_classify _ _ _ Hspec Hd')|].
    rewrite (valueOf_finite _ _ _ Hspec).
    apply rounds_integer; [lia|exact Hr].
Qed.

Lemma Qfloor_unique (x : Q) (n : Z) :
  (inject_Z n <= x)%Q -> (x < inject_Z (n + 1))%Q -> Qfloor x = n.
Proof.
  intros H1 H2.
  pose proof (Qfloor_le x) as H3. pose proof (Qlt_floor x) as H4.
  assert (inject_Z n < inject_Z (Qfloor x + 1))%Q as H5 by lra.
  assert (inject_Z (Qfloor x) < inject_Z (n + 1))%Q as H6 by lra.
  rewrite <- Zlt_Qlt in H5, H6. lia.
Qed.

Lemma scaled_floor (m e : Z) : scaled m e = Qfloor (inject_Z m * pow2 e).
Proof.
  unfold scaled. destruct (Z.leb_spec 0 e) as [He|He].
  - rewrite Z.shiftl_mul_pow2 by lia.
    rewrite pow2_Z, <- inject_Z_mult by lia. symmetry. apply Qfloor_Z.
  - rewrite Z.shiftr_div_pow2 by lia. rewrite Zdiv_Qdiv.
    apply Qfloor_comp. rewrite <- pow2_Z by lia. rewrite Qdiv_pow2.
    rewrite Z.opp_involutive. reflexivity.
Qed.

(** [toInteger] and [Math.round] of a positive normal double. *)
Lemma float_truncate_floor x :
  classify x = PNormal -> float_truncate x = Qfloor (valueOf x).
Proof.
  intros Hc. destruct (classify_PNormal x Hc) as (m & e & Hx & _).
  unfold float_truncate, valueOf. rewrite Hx. apply scaled_floor.
Qed.

Lemma float_round_floor x :
  classify x = PNormal -> float_round x = Qfloor (valueOf x + (1 # 2)).
Proof.
  intros Hc. destruct (classify_PNormal x Hc) as (m & e & Hx & _).
  unfold float_round, valueOf. rewrite Hx.
  destruct (Z.leb_spec 0 e) as [He|He].
  - symmetry. apply Qfloor_unique.
    + rewrite pow2_Z, <- inject_Z_mult by lia. lra.
    + rewrite inject_Z_succ. rewrite pow2_Z, <- inject_Z_mult by lia. lra.
  - rewrite Zdiv_Qdiv. apply Qfloor_comp.
    rewrite inject_Z_plus, inject_Z_mult.
    replace (- e + 1) with (1 + - e) by lia.
    rewrite <- !pow2_Z by lia. rewrite pow2_plus.
    change (pow2 1) with 2%Q. change (inject_Z 2) with 2%Q.
    pose proof (pow2_inv e) as Hinv. pose proof (pow2_pos (- e)) as Hpos.
    assert ((1 # 2) == / 2)%Q as -> by reflexivity.
    transitivity (inject_Z (Zpos m) * (pow2 e * pow2 (- e)) / pow2 (- e) + / 2)%Q.
    + rewrite Hinv. field. lra.
    + field. lra.
Qed.

(** ** Line 174 in binary64 *)

Lemma ratio_bounds (zi zn : Z) :
  0 < zi <= zn -> zn < 2 ^ 53 ->
  (pow2 (-53) <= inject_Z zi / inject_Z zn)%Q
  /\ (inject_Z zi / inject_Z zn <= 1)%Q.
Proof.
  intros Hi Hn.
  pose proof (inject_Z_pos_lt zn ltac:(lia)) as HnQ.
  split.
  - apply Qle_shift_div_l; [exact HnQ|].
    apply Qle_trans with (pow2 (-53) * inject_Z (2 ^ 53))%Q.
    + apply Qmult_le_l; [apply pow2_pos|]. rewrite <- Zle_Qle. lia.
    + rewrite <- pow2_Z by lia. rewrite <- pow2_plus.
      change (pow2 (-53 + 53)) with (inject_Z 1). rewrite <- Zle_Qle. lia.
  - apply Qle_shift_div_r; [exact HnQ|]. rewrite Qmult_1_l.
    rewrite <- Zle_Qle. lia.
Qed.

(** The value of line 174: the quotient is rounded, then the product, then
    [Math.round] takes the floor of the sum with one half. *)
Lemma progressAfter_binary64 (totalPages i : nat) :
  (1 <= i <= totalPages)%nat -> Z.of_nat totalPages < 2 ^ 53 ->
  exists q p : Q,
    rounds (inject_Z (Z.of_nat i) / inject_Z (Z.of_nat totalPages)) q
    /\ rounds (q * 100) p
    /\ progressAfter (num:=float) totalPages i = Qfloor (p + (1 # 2)).
Proof.
  intros Hi Hn.
  set (zi := Z.of_nat i). set (zn := Z.of_nat totalPages).
  assert (0 < zi <= zn) as Hzi by (unfold zi, zn; lia).
  destruct (float_ofZ_exact zi ltac:(lia)) as [Ci Vi].
  destruct (float_ofZ_exact zn ltac:(lia)) as [Cn Vn].
  destruct (float_ofZ_exact 100 ltac:(lia)) as [Cc Vc].
  destruct (ratio_bounds zi zn Hzi Hn) as [Hlo Hhi].
  destruct (div_rounds (float_ofZ zi) (float_ofZ zn) Ci Cn) as [Cq Rq].
  { rewrite Vi, Vn. eapply Qle_trans; [|exact Hlo]. apply pow2_le. lia. }
  { rewrite Vi, Vn. eapply Qle_lt_trans; [exact Hhi|].
    change 1%Q with (pow2 0). apply pow2_lt. lia. }
  set (fq := (float_ofZ zi / float_ofZ zn)%float) in *.
  assert (rounds (inject_Z zi / inject_Z zn) (valueOf fq)) as Rq'.
  { eapply rounds_compat; [|reflexivity|exact Rq]. rewrite Vi, Vn. reflexivity. }
  destruct (rounds_error _ _ Rq') as [Eq1 Eq2].
  change (pow2 (-53)) with (1 # 9007199254740992)%Q in *.
  destruct (mul_rounds fq (float_ofZ 100) Cq Cc) as [Cp Rp].
  { rewrite Vc. apply Qle_trans with (pow2 (-60)); [apply pow2_le; lia|].
    change (pow2 (-60)) with (1 # 1152921504606846976)%Q.
    change (inject_Z 100) with 100%Q. lra. }
  { rewrite Vc. apply Qlt_le_trans with (pow2 10); [|apply pow2_le; lia].
    change (pow2 10) with 1024%Q. change (inject_Z 100) with 100%Q. lra. }
  exists (valueOf fq), (valueOf (fq * float_ofZ 100)%float).
  split; [exact Rq'|]. split.
  - eapply rounds_compat; [|reflexivity|exact Rp]. rewrite Vc. reflexivity.
  - unfold progressAfter. cbn [Math_round mul div ofZ binary64].
    fold zi. fold zn. fold fq. apply float_round_floor. exact Cp.
Qed.

Lemma Qdiv_le_compat (a b c : Q) :
  (0 < c)%Q -> (a <= b)%Q -> (a / c <= b / c)%Q.
Proof.
  intros Hc Hab. apply Qle_shift_div_l; [exact Hc|].
  setoid_replace (a / c * c)%Q with a using relation Qeq; [exact Hab|].
  field. lra.
Qed.

Lemma progressAfter_mono_binary64 (totalPages i j : nat) :
  (1 <= i <= j)%nat -> (j <= totalPages)%nat -> Z.of_nat totalPages < 2 ^ 53 ->
  progressAfter (num:=float) totalPages i
  <= progressAfter (num:=float) totalPages j.
Proof.
  intros Hi Hj Hn.
  destruct (progressAfter_binary64 totalPages i ltac:(lia) Hn)
    as (q & p & Rq & Rp & ->).
  destruct (progressAfter_binary64 totalPages j ltac:(lia) Hn)
    as (q' & p' & Rq' & Rp' & ->).
  apply Qfloor_resp_le.
  assert (q <= q')%Q as Hq.
  { apply (rounds_mono _ _ _ _ Rq Rq'). apply Qdiv_le_compat.
    - apply inject_Z_pos_lt. lia.
    - rewrite <- Zle_Qle. lia. }
  assert (p <= p')%Q as Hp by (apply (rounds_mono _ _ _ _ Rp Rp'); lra).
  lra.
Qed.

Lemma progressAfter_last_binary64 (totalPages : nat) :
  (0 < totalPages)%nat -> Z.of_nat totalPages < 2 ^ 53 ->
  progressAfter (num:=float) totalPages totalPages = 100.
Proof.
  intros Hpos Hn.
  destruct (progressAfter_binary64 totalPages totalPages ltac:(lia) Hn)
    as (q & p & Rq & Rp & ->).
  assert (q == 1)%Q as Hq.
  { apply (rounds_integer 1); [lia|]. eapply rounds_compat; [|reflexivity|exact Rq].
    change (inject_Z 1) with 1%Q. field.
    pose proof (inject_Z_pos_lt (Z.of_nat totalPages) ltac:(lia)). lra. }
  assert (p == 100)%Q as Hp.
  { apply (rounds_integer 100); [lia|]. eapply rounds_compat; [|reflexivity|exact Rp].
    rewrite Hq. reflexivity. }
  rewrite Hp. reflexivity.
Qed.

Lemma progressAfter_range_binary64 (totalPages i : nat) :
  (1 <= i <= totalPages)%nat -> Z.of_nat totalPages < 2 ^ 53 ->
  0 <= progressAfter (num:=float) totalPages i <= 100.
Proof.
  intros Hi Hn. split.
  - destruct (progressAfter_binary64 totalPages i Hi Hn)
      as (q & p & Rq & Rp & ->).
    destruct (ratio_bounds (Z.of_nat i) (Z.of_nat totalPages) ltac:(lia) Hn)
      as [Hlo _].
    destruct (rounds_error _ _ Rq) as [Eq1 _].
    destruct (rounds_error _ _ Rp) as [Ep1 _].
    change (pow2 (-53)) with (1 # 9007199254740992)%Q in *.
    change 0 with (Qfloor 0). apply Qfloor_resp_le. lra.
  - rewrite <- (progressAfter_last_binary64 totalPages) by lia.
    apply progressAfter_mono_binary64; lia.
Qed.

(** The value that line 174 rounds differs from the exact percentage by at
    most 2^-44. *)
Lemma progressAfter_enclosure (totalPages i : nat) :
  (1 <= i <= totalPages)%nat -> Z.of_nat totalPages < 2 ^ 53 ->
  exists p : Q,
    progressAfter (num:=float) totalPages i = Qfloor (p + (1 # 2))
    /\ (inject_Z (Z.of_nat i) / inject_Z (Z.of_nat totalPages) * 100
        - pow2 (-44) <= p)%Q
    /\ (p <= inject_Z (Z.of_nat i) / inject_Z (Z.of_nat totalPages) * 100
             + pow2 (-44))%Q.
Proof.
  intros Hi Hn.
  destruct (progressAfter_binary64 totalPages i Hi Hn)
    as (q & p & Rq & Rp & Heq).
  destruct (ratio_bounds (Z.of_nat i) (Z.of_nat totalPages) ltac:(lia) Hn)
    as [Hlo Hhi].
  destruct (rounds_error _ _ Rq) as [Eq1 Eq2].
  destruct (rounds_error _ _ Rp) as [Ep1 Ep2].
  change (pow2 (-53)) with (1 # 9007199254740992)%Q in *.
  exists p. split; [exact Heq|].
  change (pow2 (-44)) with (1 # 17592186044416)%Q.
  split; lra.
Qed.

(** The percentage of the specification, in integers. *)
Lemma exactPercent_div (totalPages i : nat) :
  (0 < totalPages)%nat ->
  exactPercent totalPages i
  = (200 * Z.of_nat i + Z.of_nat totalPages) / (2 * Z.of_nat totalPages).
Proof.
  intros Hn. unfold exactPercent. rewrite Zdiv_Qdiv. apply Qfloor_comp.
  rewrite inject_Z_plus, !inject_Z_mult.
  change (inject_Z 200) with 200%Q. change (inject_Z 2) with 2%Q.
  assert ((1 # 2) == / 2)%Q as -> by reflexivity.
  field. pose proof (inject_Z_pos_lt (Z.of_nat totalPages) ltac:(lia)). lra.
Qed.

(** Line 174 against the percentage of the specification: equal, unless
    the exact percentage is half-way between two integers, where line 174
    may also give one less. *)
Lemma progressAfter_exactPercent (totalPages i : nat) :
  (1 <= i <= totalPages)%nat -> Z.of_nat totalPages < 2 ^ 32 ->
  exactPercent totalPages i - 1 <= progressAfter (num:=float) totalPages i
  /\ progressAfter (num:=float) totalPages i <= exactPercent totalPages i
  /\ (~ halfway totalPages i ->
      progressAfter (num:=float) totalPages i = exactPercent totalPages i).
Proof.
  intros Hi Hn. unfold halfway.
  destruct (progressAfter_enclosure totalPages i Hi ltac:(lia))
    as (p & -> & Hp1 & Hp2).
  rewrite exactPercent_div by lia.
  set (zi := Z.of_nat i) in *. set (zn := Z.of_nat totalPages) in *.
  assert (0 < zn) as Hzn by (unfold zn; lia).
  set (a := 200 * zi + zn). set (b := 2 * zn).
  pose proof (Z.div_mod a b ltac:(lia)) as Hdm.
  pose proof (Z.mod_pos_bound a b ltac:(lia)) as Hr.
  set (k := a / b) in *. set (r := a mod b) in *.
  pose proof (inject_Z_pos_lt zn Hzn) as HznQ.
  pose proof (inject_Z_pos_lt b ltac:(lia)) as HbQ.
  set (c := (/ inject_Z b)%Q).
  assert (inject_Z b * c == 1)%Q as Hbc by (unfold c; field; lra).
  assert (pow2 (-33) < c)%Q as Hc.
  { assert (inject_Z b < inject_Z (2 ^ 33))%Q as Hb
      by (rewrite <- Zlt_Qlt; unfold b; lia).
    change (pow2 (-33)) with (/ inject_Z (2 ^ 33))%Q. unfold c.
    apply Qlt_shift_inv_l; [exact HbQ|].
    setoid_replace (/ inject_Z (2 ^ 33) * inject_Z b)%Q
      with (inject_Z b / inject_Z (2 ^ 33))%Q using relation Qeq
      by (field; discriminate).
    apply Qlt_shift_div_r; [reflexivity|]. lra. }
  change (pow2 (-44)) with (1 # 17592186044416)%Q in *.
  change (pow2 (-33)) with (1 # 8589934592)%Q in *.
  assert (inject_Z zi / inject_Z zn * 100 + (1 # 2)
          == inject_Z k + inject_Z r * c)%Q as HX.
  { transitivity (inject_Z a * c)%Q.
    - unfold c, a, b. rewrite inject_Z_plus, !inject_Z_mult.
      change (inject_Z 200) with 200%Q. change (inject_Z 2) with 2%Q.
      assert ((1 # 2) == / 2)%Q as -> by reflexivity. field. lra.
    - rewrite Hdm, inject_Z_plus, inject_Z_mult.
      rewrite Qmult_plus_distr_l.
      setoid_replace (inject_Z b * inject_Z k * c)%Q
        with (inject_Z k * (inject_Z b * c))%Q using relation Qeq by ring.
      rewrite Hbc. ring. }
  assert (0 <= inject_Z r * c)%Q as Ht0.
  { apply Qmult_le_0_compat; [|unfold c; apply Qlt_le_weak, Qinv_lt_0_compat, HbQ].
    change 0%Q with (inject_Z 0). rewrite <- Zle_Qle. lia. }
  assert (inject_Z r * c <= 1 - c)%Q as Ht1.
  { assert (inject_Z r <= inject_Z b - 1)%Q as Hrb.
    { rewrite <- inject_Z_pred, <- Zle_Qle. lia. }
    assert (inject_Z r * c <= (inject_Z b - 1) * c)%Q as H
      by (apply Qmult_le_compat_r; [exact Hrb|lra]).
    lra. }
  split; [|split].
  - assert (inject_Z (k - 1) <= p + (1 # 2))%Q as H
      by (rewrite inject_Z_pred; lra).
    apply Qfloor_resp_le in H. rewrite Qfloor_Z in H. exact H.
  - assert (p + (1 # 2) < inject_Z (k + 1))%Q as H
      by (rewrite inject_Z_succ; lra).
    pose proof (Qfloor_le (p + (1 # 2))) as Hfl.
    assert (inject_Z (Qfloor (p + (1 # 2))) < inject_Z (k + 1))%Q as H'
      by lra.
    rewrite <- Zlt_Qlt in H'. lia.
  - intros Hr0.
    assert (c <= inject_Z r * c)%Q as Ht2.
    { assert (1 <= inject_Z r)%Q as Hr1.
      { change 1%Q with (inject_Z 1). rewrite <- Zle_Qle. lia. }
      assert (1 * c <= inject_Z r * c)%Q as H
        by (apply Qmult_le_compat_r; [exact Hr1|lra]).
      lra. }
    apply Qfloor_unique; [lra|rewrite inject_Z_succ; lra].
Qed.

(** 100 is reported only from 99.5 percent of the pages on. *)
Lemma progressAfter_full_binary64 (totalPages i : nat) :
  (1 <= i <= totalPages)%nat -> Z.of_nat totalPages < 2 ^ 32 ->
  progressAfter (num:=float) totalPages i = 100 ->
  199 * Z.of_nat totalPages <= 200 * Z.of_nat i.
Proof.
  intros Hi Hn Hfull.
  destruct (progressAfter_exactPercent totalPages i Hi Hn) as (_ & Hle & _).
  rewrite Hfull, exactPercent_div in Hle by lia.
  assert (0 < 2 * Z.of_nat totalPages) as Hb by lia.
  pose proof (Z.mul_div_le (200 * Z.of_nat i + Z.of_nat totalPages)
                (2 * Z.of_nat totalPages) Hb) as Hdiv.
  nia.
Qed.

(** ** Sizes in binary64 *)

Lemma rounds_integer_self (z : Z) :
  0 < z < 2 ^ 53 -> rounds (inject_Z z) (inject_Z z).
Proof.
  intros Hz. set (d := Z.log2 z + 1).
  pose proof (Z.log2_spec z ltac:(lia)) as Hlog.
  pose proof (Z.log2_nonneg z) as Hnn.
  assert (d <= 53) as Hd.
  { unfold d. destruct (Z_lt_ge_dec (Z.log2 z) 53); [lia|].
    assert (2 ^ 53 <= 2 ^ Z.log2 z) by (apply Z.pow_le_mono_r; lia). lia. }
  exists d, (z * 2 ^ (53 - d)).
  split; [|split; [|split]].
  - unfold d. replace (Z.log2 z + 1 - 1) with (Z.log2 z) by lia.
    rewrite pow2_Z by lia. rewrite <- Zle_Qle. lia.
  - unfold d. rewrite pow2_Z by lia. rewrite <- Zlt_Qlt.
    replace (Z.log2 z + 1) with (Z.succ (Z.log2 z)) by lia. lia.
  - rewrite inject_Z_mult, <- pow2_Z by lia.
    rewrite <- Qmult_assoc, <- pow2_plus.
    replace (53 - d + (d - 53)) with 0 by lia. rewrite pow2_0. ring.
  - left. rewrite Qdiv_pow2, inject_Z_mult, <- pow2_Z by lia.
    replace (- (d - 53)) with (53 - d) by lia. split; lra.
Qed.

Lemma rounds_le_integer (v r : Q) (z : Z) :
  rounds v r -> 0 < z < 2 ^ 53 -> (v <= inject_Z z)%Q -> (r <= inject_Z z)%Q.
Proof.
  intros Hr Hz Hv. exact (rounds_mono _ _ _ _ Hr (rounds_integer_self z Hz) Hv).
Qed.

Lemma rounds_ge_integer (v r : Q) (z : Z) :
  rounds v r -> 0 < z < 2 ^ 53 -> (inject_Z z <= v)%Q -> (inject_Z z <= r)%Q.
Proof.
  intros Hr Hz Hv. exact (rounds_mono _ _ _ _ (rounds_integer_self z Hz) Hr Hv).
Qed.

Lemma canvasSize_binary64 (default : Z) (x : float) :
  classify x = PNormal -> (valueOf x < inject_Z 2147483648)%Q ->
  canvasSize default x = Qfloor (valueOf x)
  /\ 0 <= Qfloor (valueOf x) <= 2147483647.
Proof.
  intros Hc Hx. pose proof (valueOf_normal_pos x Hc) as Hpos.
  assert (0 <= Qfloor (valueOf x) <= 2147483647) as Hfl.
  { split.
    - change 0 with (Qfloor 0). apply Qfloor_resp_le. lra.
    - pose proof (Qfloor_le (valueOf x)) as Hle.
      assert (inject_Z (Qfloor (valueOf x)) < inject_Z 2147483648)%Q as H by lra.
      rewrite <- Zlt_Qlt in H. lia. }
  split; [|exact Hfl].
  unfold canvasSize. cbn [toInteger binary64].
  rewrite (float_truncate_floor x Hc).
  rewrite Z.mod_small by lia.
  destruct (Z.leb_spec (Qfloor (valueOf x)) 2147483647); [reflexivity|lia].
Qed.

Lemma Qmult_bounds (x y lx ux ly uy : Q) :
  (0 < lx)%Q -> (lx <= x)%Q -> (x <= ux)%Q ->
  (0 < ly)%Q -> (ly <= y)%Q -> (y <= uy)%Q ->
  (lx * ly <= x * y)%Q /\ (x * y <= ux * uy)%Q.
Proof.
  intros. split.
  - apply Qle_trans with (x * ly)%Q.
    + apply Qmult_le_compat_r; lra.
    + apply Qmult_le_l; lra.
  - apply Qle_trans with (x * uy)%Q.
    + apply Qmult_le_l; lra.
    + apply Qmult_le_compat_r; lra.
Qed.

Lemma pow2_half (a : Z) : (pow2 (a - 1) == pow2 a * (1 # 2))%Q.
Proof.
  unfold Z.sub. rewrite pow2_plus. reflexivity.
Qed.

Lemma pow2_double (a : Z) : (pow2 (a + 1) == pow2 a * 2)%Q.
Proof. rewrite pow2_plus. reflexivity. Qed.

(** A product of two normal doubles away from overflow and underflow. *)
Lemma mul_rounds_range (x y : float) (a b c d : Z) :
  classify x = PNormal -> classify y = PNormal ->
  (pow2 a <= valueOf x)%Q -> (valueOf x <= pow2 b)%Q ->
  (pow2 c <= valueOf y)%Q -> (valueOf y <= pow2 d)%Q ->
  -1022 <= a + c -> b + d < 1023 ->
  classify (x * y)%float = PNormal
  /\ rounds (valueOf x * valueOf y) (valueOf (x * y)%float)
  /\ (pow2 (a + c - 1) <= valueOf (x * y)%float)%Q
  /\ (valueOf (x * y)%float <= pow2 (b + d + 1))%Q.
Proof.
  intros Hx Hy Ha Hb Hc Hd Hlo Hhi.
  destruct (Qmult_bounds (valueOf x) (valueOf y) (pow2 a) (pow2 b) (pow2 c) (pow2 d))
    as [Hl Hu]; try assumption; try apply pow2_pos.
  rewrite <- !pow2_plus in Hl, Hu.
  destruct (mul_rounds x y Hx Hy) as [Hn Hr].
  { eapply Qle_trans; [|exact Hl]. apply pow2_le. lia. }
  { eapply Qle_lt_trans; [exact Hu|]. apply pow2_lt. lia. }
  split; [exact Hn|]. split; [exact Hr|].
  destruct (rounds_error _ _ Hr) as [E1 E2].
  pose proof (pow2_half (a + c)) as Hh. pose proof (pow2_double (b + d)) as Hdb.
  pose proof (pow2_pos (a + c)). pose proof (pow2_pos (b + d)).
  change (pow2 (-53)) with (1 # 9007199254740992)%Q in *.
  split; lra.
Qed.

Lemma Qdiv_bounds (x y lx ux ly uy : Q) :
  (0 < lx)%Q -> (lx <= x)%Q -> (x <= ux)%Q ->
  (0 < ly)%Q -> (ly <= y)%Q -> (y <= uy)%Q ->
  (lx / uy <= x / y)%Q /\ (x / y <= ux / ly)%Q.
Proof.
  intros. unfold Qdiv.
  assert (0 < / y)%Q by (apply Qinv_lt_0_compat; lra).
  assert (0 < / uy)%Q by (apply Qinv_lt_0_compat; lra).
  assert (0 < / ly)%Q by (apply Qinv_lt_0_compat; lra).
  assert (/ uy <= / y)%Q.
  { apply Qle_shift_inv_l; [lra|]. 
    setoid_replace (/ uy * y)%Q with (y / uy)%Q using relation Qeq by (field; lra).
    apply Qle_shift_div_r; lra. }
  assert (/ y <= / ly)%Q.
  { apply Qle_shift_inv_l; [lra|].
    setoid_replace (/ y * ly)%Q with (ly / y)%Q using relation Qeq by (field; lra).
    apply Qle_shift_div_r; lra. }
  apply Qmult_bounds; lra.
Qed.

Lemma div_rounds_range (x y : float) (a b c d : Z) :
  classify x = PNormal -> classify y = PNormal ->
  (pow2 a <= valueOf x)%Q -> (valueOf x <= pow2 b)%Q ->
  (pow2 c <= valueOf y)%Q -> (valueOf y <= pow2 d)%Q ->
  -1021 <= a - d -> b - c < 1023 ->
  classify (x / y)%float = PNormal
  /\ rounds (valueOf x / valueOf y) (valueOf (x / y)%float)
  /\ (pow2 (a - d - 1) <= valueOf (x / y)%float)%Q
  /\ (valueOf (x / y)%float <= pow2 (b - c + 1))%Q.
Proof.
  intros Hx Hy Ha Hb Hc Hd Hlo Hhi.
  destruct (Qdiv_bounds (valueOf x) (valueOf y) (pow2 a) (pow2 b) (pow2 c) (pow2 d))
    as [Hl Hu]; try assumption; try apply pow2_pos.
  rewrite !pow2_div in Hl, Hu.
  destruct (div_rounds x y Hx Hy) as [Hn Hr].
  { eapply Qle_trans; [|exact Hl]. apply pow2_le. lia. }
  { eapply Qle_lt_trans; [exact Hu|]. apply pow2_lt. lia. }
  split; [exact Hn|]. split; [exact Hr|].
  destruct (rounds_error _ _ Hr) as [E1 E2].
  pose proof (pow2_half (a - d)) as Hh. pose proof (pow2_double (b - c)) as Hdb.
  pose proof (pow2_pos (a - d)). pose proof (pow2_pos (b - c)).
  change (pow2 (-53)) with (1 # 9007199254740992)%Q in *.
  split; lra.
Qed.

(** ** Comparisons in binary64 *)

Lemma normal_exponent_lt (m m' : positive) (e e' : Z) :
  2 ^ 52 <= Zpos m < 2 ^ 53 -> 2 ^ 52 <= Zpos m' < 2 ^ 53 -> e < e' ->
  (inject_Z (Zpos m) * pow2 e < inject_Z (Zpos m') * pow2 e')%Q.
Proof.
  intros Hm Hm' He.
  apply Qlt_le_trans with (pow2 (53 + e)).
  - rewrite pow2_plus, (pow2_Z 53) by lia.
    apply Qmult_lt_compat_r; [apply pow2_pos|]. rewrite <- Zlt_Qlt. lia.
  - apply Qle_trans with (pow2 (52 + e')); [apply pow2_le; lia|].
    rewrite pow2_plus, (pow2_Z 52) by lia.
    apply Qmult_le_compat_r; [|apply Qlt_le_weak, pow2_pos].
    rewrite <- Zle_Qle. lia.
Qed.

(** [x < y] on normal doubles compares their values. *)
Lemma ltb_normal (x y : float) :
  classify x = PNormal -> classify y = PNormal ->
  (x <? y)%float = true <-> (valueOf x < valueOf y)%Q.
Proof.
  intros Hx Hy.
  destruct (classify_PNormal x Hx) as (mx & ex & Ex & Dx & Bx).
  destruct (classify_PNormal y Hy) as (my & ey & Ey & Dy & By).
  rewrite (valueOf_finite x mx ex Ex), (valueOf_finite y my ey Ey).
  pose proof (digits_53_bounds mx Dx) as Hmx.
  pose proof (digits_53_bounds my Dy) as Hmy.
  rewrite FloatAxioms.ltb_spec, Ex, Ey. unfold SFltb, SFcompare.
  destruct (Z.compare_spec ex ey) as [He|He|He].
  - subst ey. rewrite Pos.compare_cont_spec. cbn [Pos.switch_Eq].
    fold (Pos.compare mx my).
    pose proof (pow2_pos ex) as Hp.
    destruct (Pos.compare_spec mx my) as [Hm|Hm|Hm].
    + subst my. split; [discriminate|]. intros H. exfalso. lra.
    + split; [intros _|reflexivity].
      apply Qmult_lt_compat_r; [exact Hp|]. rewrite <- Zlt_Qlt. lia.
    + split; [discriminate|]. intros H. exfalso.
      assert (inject_Z (Zpos my) * pow2 ex < inject_Z (Zpos mx) * pow2 ex)%Q.
      { apply Qmult_lt_compat_r; [exact Hp|]. rewrite <- Zlt_Qlt. lia. }
      lra.
  - split; [intros _|reflexivity]. apply normal_exponent_lt; assumption.
  - split; [discriminate|]. intros H. exfalso.
    pose proof (normal_exponent_lt my mx ey ex Hmy Hmx He). lra.
Qed.


Lemma ltb_zero_positive (z : Z) :
  0 < z < 2 ^ 53 -> (float_ofZ 0 <? float_ofZ z)%float = true.
Proof.
  intros Hz. destruct (float_ofZ_exact z Hz) as [Hc _].
  destruct (classify_PNormal _ Hc) as (m & e & E & _).
  rewrite FloatAxioms.ltb_spec, E. reflexivity.
Qed.

(** The conversion of an integer never gives a negative double. *)
Lemma of_uint63_sign (n : int) :
  match Prim2SF (of_uint63 n) with
  | S754_zero s | S754_infinity s | S754_finite s _ _ => s = false
  | S754_nan => True
  end.
Proof.
  rewrite of_uint63_spec. unfold binary_normalize.
  pose proof (to_Z_bounded n) as Hb.
  destruct (to_Z n) as [|p|p]; [reflexivity| |lia].
  unfold binary_round.
  destruct (shl_align p 0 (fexp prec emax (Z.pos (digits2_pos p) + 0))) as [mz ez].
  unfold binary_round_aux.
  destruct (shr_fexp prec emax (Z.pos mz) ez loc_Exact) as [mrs' e'].
  destruct (shr_fexp prec emax _ e' loc_Exact) as [mrs'' e''].
  destruct (shr_m mrs'') as [|q|q]; [reflexivity| |exact I].
  destruct (e'' <=? emax - prec); reflexivity.
Qed.

Lemma ltb_zero_nonpositive (z : Z) :
  z <= 0 -> (float_ofZ 0 <? float_ofZ z)%float = false.
Proof.
  intros Hz. destruct (Z.eq_dec z 0) as [->|Hne]; [reflexivity|].
  unfold float_ofZ at 2.
  assert ((z <? 0) = true) as -> by (apply Z.ltb_lt; lia).
  rewrite FloatAxioms.ltb_spec, FloatAxioms.opp_spec.
  pose proof (of_uint63_sign (of_Z (- z))) as Hs.
  change (Prim2SF (float_ofZ 0)) with (S754_zero false).
  destruct (Prim2SF (of_uint63 (of_Z (- z)))) as [s|s| |s m e];
    try subst s; reflexivity.
Qed.

Lemma rounds_normal_self (x : float) :
  classify x = PNormal -> rounds (valueOf x) (valueOf x).
Proof.
  intros Hx. destruct (classify_PNormal x Hx) as (m & e & Ex & Dx & Bx).
  rewrite (valueOf_finite x m e Ex).
  pose proof (digits_53_bounds m Dx) as Hm.
  exists (53 + e), (Zpos m).
  replace (53 + e - 53) with e by lia.
  split; [|split; [|split]].
  - replace (53 + e - 1) with (52 + e) by lia.
    rewrite pow2_plus, (pow2_Z 52) by lia.
    apply Qmult_le_compat_r; [|apply Qlt_le_weak, pow2_pos].
    rewrite <- Zle_Qle. lia.
  - rewrite pow2_plus, (pow2_Z 53) by lia.
    apply Qmult_lt_compat_r; [apply pow2_pos|]. rewrite <- Zlt_Qlt. lia.
  - reflexivity.
  - left. pose proof (pow2_pos e) as Hp.
    assert (inject_Z (Zpos m) * pow2 e / pow2 e == inject_Z (Zpos m))%Q as ->
      by (field; lra).
    split; lra.
Qed.

(** ** The canvas of a scaled page *)

(** The canvas side for a product of page side and scale: the double
    product with its fraction cut off, hence within one pixel and one
    rounding of the exact product. *)
Lemma canvas_side (default : Z) (side sc : float) :
  classify (side * sc)%float = PNormal ->
  rounds (valueOf side * valueOf sc) (valueOf (side * sc)%float) ->
  (valueOf (side * sc)%float < inject_Z 2147483648)%Q ->
  canvasSize default (side * sc)%float = Qfloor (valueOf (side * sc)%float)
  /\ 0 <= canvasSize default (side * sc)%float <= 2147483647
  /\ (valueOf side * valueOf sc * (1 - pow2 (-53)) - 1
      < inject_Z (canvasSize default (side * sc)%float))%Q
  /\ (inject_Z (canvasSize default (side * sc)%float)
      <= valueOf side * valueOf sc * (1 + pow2 (-53)))%Q.
Proof.
  intros Hc Hr Hlt.
  destruct (canvasSize_binary64 default _ Hc Hlt) as [Hcs Hrange].
  rewrite Hcs. split; [reflexivity|]. split; [exact Hrange|].
  destruct (rounds_error _ _ Hr) as [E1 E2].
  pose proof (Qfloor_le (valueOf (side * sc)%float)) as Hfl.
  pose proof (Qlt_floor (valueOf (side * sc)%float)) as Hfl'.
  rewrite inject_Z_succ in Hfl'.
  split; lra.
Qed.

(** Two canvas sides cut from the products of the page sides with one
    scale are in the ratio of the page sides, up to one pixel and one
    rounding. *)
Lemma aspect_within (w h sc : Q) (cw ch : Z) :
  (0 < w)%Q -> (0 < h)%Q ->
  (w * sc * (1 - pow2 (-53)) - 1 < inject_Z cw)%Q ->
  (inject_Z cw <= w * sc * (1 + pow2 (-53)))%Q ->
  (h * sc * (1 - pow2 (-53)) - 1 < inject_Z ch)%Q ->
  (inject_Z ch <= h * sc * (1 + pow2 (-53)))%Q ->
  (- (h + pow2 (-52) * (w * h * sc)) < inject_Z cw * h - inject_Z ch * w)%Q
  /\ (inject_Z cw * h - inject_Z ch * w < w + pow2 (-52) * (w * h * sc))%Q.
Proof.
  intros Hw Hh Hcw1 Hcw2 Hch1 Hch2.
  change (pow2 (-53)) with (1 # 9007199254740992)%Q in *.
  change (pow2 (-52)) with (1 # 4503599627370496)%Q.
  assert ((w * sc * (1 - (1 # 9007199254740992)) - 1) * h < inject_Z cw * h)%Q
    as H1 by (apply Qmult_lt_compat_r; assumption).
  assert (inject_Z cw * h <= w * sc * (1 + (1 # 9007199254740992)) * h)%Q
    as H2 by (apply Qmult_le_compat_r; [assumption|lra]).
  assert ((h * sc * (1 - (1 # 9007199254740992)) - 1) * w < inject_Z ch * w)%Q
    as H3 by (apply Qmult_lt_compat_r; assumption).
  assert (inject_Z ch * w <= h * sc * (1 + (1 # 9007199254740992)) * w)%Q
    as H4 by (apply Qmult_le_compat_r; [assumption|lra]).
  split; lra.
Qed.

(** The viewport of lines 146-147: the reduced scale and the width it
    gives. *)
Lemma limited_viewport (pw s l : float) :
  moderate pw -> moderate s -> moderate l ->
  let reduced := (s * (l / (pw * s)))%float in
  classify reduced = PNormal
  /\ (pow2 (-803) <= valueOf reduced)%Q /\ (valueOf reduced <= pow2 803)%Q
  /\ (valueOf l * (1 - pow2 (-51)) <= valueOf reduced * valueOf pw)%Q
  /\ (valueOf reduced * valueOf pw <= valueOf l * (1 + pow2 (-51)))%Q
  /\ classify (pw * reduced)%float = PNormal
  /\ rounds (valueOf pw * valueOf reduced) (valueOf (pw * reduced)%float)
  /\ (valueOf l * (1 - pow2 (-50)) <= valueOf (pw * reduced)%float)%Q
  /\ (valueOf (pw * reduced)%float <= valueOf l * (1 + pow2 (-50)))%Q
  /\ ((valueOf l < valueOf (pw * s)%float)%Q ->
      (valueOf reduced <= valueOf s)%Q).
Proof.
  intros (Cw & Lw & Uw) (Cs & Ls & Us) (Cm & Lm & Um) reduced.
  destruct (mul_rounds_range pw s (-200) 200 (-200) 200 Cw Cs Lw Uw Ls Us)
    as (C0 & R0 & L0 & U0); [lia|lia|].
  destruct (div_rounds_range l (pw * s)%float (-200) 200
              (-200 + -200 - 1) (200 + 200 + 1) Cm C0 Lm Um L0 U0)
    as (C1 & R1 & L1 & U1); [lia|lia|].
  destruct (mul_rounds_range s (l / (pw * s))%float (-200) 200
              (-200 - (200 + 200 + 1) - 1) (200 - (-200 + -200 - 1) + 1)
              Cs C1 Ls Us L1 U1)
    as (C2 & R2 & L2 & U2); [lia|lia|].
  fold reduced in C2, R2, L2, U2.
  destruct (mul_rounds_range pw reduced (-200) 200
              (-200 + (-200 - (200 + 200 + 1) - 1) - 1)
              (200 + (200 - (-200 + -200 - 1) + 1) + 1)
              Cw C2 Lw Uw L2 U2)
    as (C3 & R3 & _ & _); [lia|lia|].
  destruct (rounds_error _ _ R0) as [E0a E0b].
  destruct (rounds_error _ _ R1) as [E1a E1b].
  destruct (rounds_error _ _ R2) as [E2a E2b].
  destruct (rounds_error _ _ R3) as [E3a E3b].
  pose proof (valueOf_normal_pos pw Cw) as Hpw.
  pose proof (valueOf_normal_pos s Cs) as Hs.
  pose proof (valueOf_normal_pos l Cm) as Hm.
  pose proof (valueOf_normal_pos _ C0) as Hw0.
  pose proof (valueOf_normal_pos _ C1) as Hr.
  pose proof (valueOf_normal_pos _ C2) as Hsig.
  set (vpw := valueOf pw) in *. set (vs := valueOf s) in *.
  set (W0 := valueOf (pw * s)%float) in *.
  set (R := valueOf (l / (pw * s))%float) in *.
  set (S := valueOf reduced) in *.
  set (VW := valueOf (pw * reduced)%float) in *.
  set (m := valueOf l) in *.
  change (pow2 (-53)) with (1 # 9007199254740992)%Q in *.
  change (pow2 (-51)) with (1 # 2251799813685248)%Q.
  change (pow2 (-50)) with (1 # 1125899906842624)%Q.
  set (u := (1 # 9007199254740992)%Q) in *.
  (* R * W0 lies within m (1 -+ u) *)
  assert (m * (1 - u) <= R * W0)%Q as F1.
  { assert (m / W0 * (1 - u) * W0 <= R * W0)%Q as H
      by (apply Qmult_le_compat_r; [exact E1a|lra]).
    setoid_replace (m / W0 * (1 - u) * W0)%Q
      with (m * (1 - u))%Q using relation Qeq in H by (field; lra).
    exact H. }
  assert (R * W0 <= m * (1 + u))%Q as F2.
  { assert (R * W0 <= m / W0 * (1 + u) * W0)%Q as H
      by (apply Qmult_le_compat_r; [exact E1b|lra]).
    setoid_replace (m / W0 * (1 + u) * W0)%Q
      with (m * (1 + u))%Q using relation Qeq in H by (field; lra).
    exact H. }
  (* t = vpw * vs * R *)
  set (t := (vpw * vs * R)%Q).
  assert (t * (1 - u) <= R * W0)%Q as F3.
  { assert (R * (vpw * vs * (1 - u)) <= R * W0)%Q as H
      by (apply Qmult_le_l; [exact Hr|exact E0a]).
    unfold t. lra. }
  assert (R * W0 <= t * (1 + u))%Q as F4.
  { assert (R * W0 <= R * (vpw * vs * (1 + u)))%Q as H
      by (apply Qmult_le_l; [exact Hr|exact E0b]).
    unfold t. lra. }
  assert (t * (1 - u) <= S * vpw)%Q as F5.
  { assert (vs * R * (1 - u) * vpw <= S * vpw)%Q as H
      by (apply Qmult_le_compat_r; [exact E2a|lra]).
    unfold t. lra. }
  assert (S * vpw <= t * (1 + u))%Q as F6.
  { assert (S * vpw <= vs * R * (1 + u) * vpw)%Q as H
      by (apply Qmult_le_compat_r; [exact E2b|lra]).
    unfold t. lra. }
  assert (vpw * S == S * vpw)%Q as Hcomm by ring.
  rewrite Hcomm in E3a, E3b.
  clearbody t. unfold u in *.
  split; [exact C2|]. split.
  { eapply Qle_trans; [|exact L2]. apply pow2_le. lia. }
  split.
  { eapply Qle_trans; [exact U2|]. apply pow2_le. lia. }
  split; [lra|]. split; [lra|]. split; [exact C3|]. split; [exact R3|].
  split; [lra|]. split; [lra|].
  intros Hlt.
  assert (R <= 1)%Q as HR1.
  { change 1%Q with (inject_Z 1). apply (rounds_le_integer _ _ 1 R1); [lia|].
    change (inject_Z 1) with 1%Q.
    apply Qle_shift_div_r; [exact Hw0|]. lra. }
  apply (rounds_mono _ _ _ _ R2 (rounds_normal_self s Cs)).
  fold vs. assert (vs * R <= vs * 1)%Q as H
    by (apply Qmult_le_l; [exact Hs|exact HR1]).
  lra.
Qed.

(** For an integer limit the width is within one pixel of the limit. *)
Lemma limited_width_integer (l : float) (limit : Z) (vw : Q) :
  1 <= limit < 2 ^ 31 -> (valueOf l == inject_Z limit)%Q ->
  (valueOf l * (1 - pow2 (-50)) <= vw)%Q ->
  (vw <= valueOf l * (1 + pow2 (-50)))%Q ->
  (inject_Z limit - 1 < vw)%Q /\ (vw < inject_Z limit + 1)%Q.
Proof.
  intros Hlimit Hl Hlo Hhi. rewrite Hl in Hlo, Hhi.
  assert (1 <= inject_Z limit)%Q as Hm1.
  { change 1%Q with (inject_Z 1). rewrite <- Zle_Qle. lia. }
  assert (inject_Z limit <= 2147483647)%Q as Hm2.
  { change 2147483647%Q with (inject_Z 2147483647).
    rewrite <- Zle_Qle. lia. }
  change (pow2 (-50)) with (1 # 1125899906842624)%Q in *.
  split; lra.
Qed.

(** ** Runs of the conversion *)

Section Runs.
Context {num : Type} `{JsNumber num}.

(** Either every pending page converts, or there is a first one that does
    not. *)
Lemma first_failure (doc : PdfDoc num) cfg (pending : list nat) :
  Forall (fun i => converts doc cfg i = true) pending
  \/ exists before k after m,
       pending = before ++ k :: after
       /\ Forall (fun i => converts doc cfg i = true) before
       /\ snd (convertPage doc cfg k) = Rejected m.
Proof.
  induction pending as [|i rest IH]; [left; constructor|].
  destruct (converts doc cfg i) eqn:Hi.
  - destruct IH as [Hall|(before & k & after & m & -> & Hb & Hk)].
    + left. constructor; assumption.
    + right. exists (i :: before), k, after, m.
      repeat split; [constructor; assumption|exact Hk].
  - right. unfold converts in Hi.
    destruct (snd (convertPage doc cfg i)) as [img|m] eqn:Hs; [discriminate|].
    exists [], i, rest, m. repeat split; [constructor|exact Hs].
Qed.

(** The reports of the loop are those of the pages it got through. *)
Lemma conversionLoop_reports (doc : PdfDoc num) cfg :
  exists n, (n <= numPages doc)%nat
    /\ map page (images (conversionLoop doc cfg)) = seq 1 n
    /\ progressReports (performed (conversionLoop doc cfg))
       = map (progressAfter (numPages doc)) (seq 1 n)
    /\ (thrown (conversionLoop doc cfg) = None -> n = numPages doc).
Proof.
  unfold conversionLoop.
  destruct (first_failure doc cfg (seq 1 (numPages doc)))
    as [Hall|(before & k & after & m & Hseq & Hb & Hk)].
  - exists (numPages doc).
    destruct (convertPages_all doc cfg (numPages doc) _ [] Hall)
      as (_ & Himgs & Hrep).
    repeat split; [lia|exact Himgs|exact Hrep].
  - exists (length before).
    assert (before = seq 1 (length before)) as Hbefore.
    { apply (f_equal (take (length before))) in Hseq.
      rewrite take_app_length, take_seq in Hseq.
      rewrite <- Hseq at 1. f_equal.
      apply (f_equal length) in Hseq. rewrite length_seq in Hseq. lia. }
    assert (length before <= numPages doc)%nat as Hle.
    { apply (f_equal length) in Hseq.
      rewrite length_seq, length_app in Hseq. lia. }
    rewrite Hseq.
    destruct (convertPages_stop doc cfg (numPages doc) before k after [] m Hb Hk)
      as (Hthr & Himgs & Hrep).
    repeat split; [exact Hle| | |].
    + rewrite Himgs. simpl. exact Hbefore.
    + rewrite Hrep. rewrite <- Hbefore. reflexivity.
    + rewrite Hthr. discriminate.
Qed.

Lemma seq_split_at (n k : nat) :
  (1 <= k <= n)%nat ->
  seq 1 n = seq 1 (k - 1) ++ k :: seq (S k) (n - k).
Proof.
  intros Hk. destruct k as [|k]; [lia|].
  replace (S k - 1)%nat with k by lia.
  replace n with (k + S (n - S k))%nat at 1 by lia.
  rewrite seq_app. reflexivity.
Qed.

(** The state in which [startConversion] returns, and what it reported. *)
Lemma startConversion_result (st : App num) (doc : PdfDoc num) :
  pdfDoc st = Some doc ->
  let loop := conversionLoop doc (settings st) in
  let st' := runEffects st (startConversion st) in
  progressReports (startConversion st) = 0 :: progressReports (performed loop)
  /\ progress st' = List.last (progressReports (performed loop)) 0
  /\ match thrown loop with
     | None => status st' = done /\ convertedImages st' = images loop
               /\ errorMsg st' = errorMsg st
     | Some m => status st' = error /\ convertedImages st' = []
                 /\ errorMsg st' = "转换过程中发生错误: " +:+ m
     end.
Proof.
  intros Hdoc loop st'. subst st'. unfold startConversion. rewrite Hdoc.
  fold loop.
  pose proof (convertPages_quiet doc (settings st) (numPages doc)
                (seq 1 (numPages doc)) []) as Hq.
  fold (conversionLoop doc (settings st)) in Hq. fold loop in Hq.
  split; [|split].
  - simpl. rewrite progressReports_app. f_equal.
    destruct (thrown loop); simpl; apply app_nil_r.
  - rewrite runEffects_progress.
    change (progressReports ?l) with (progressReports l).
    simpl. rewrite progressReports_app.
    replace (progressReports
               match thrown loop with
               | Some m => _
               | None => _
               end) with (@nil Z) by (destruct (thrown loop); reflexivity).
    rewrite app_nil_r.
    destruct (progressReports (performed loop)); [reflexivity|].
    apply last_cons_default.
  - rewrite !runEffects_app.
    set (st0 := runEffects st _).
    destruct (runEffects_quiet st0 (performed loop) Hq)
      as (_ & _ & Hst & Himg & Herr & _).
    destruct (thrown loop) as [m|]; simpl; repeat split; try reflexivity.
    + rewrite Himg. reflexivity.
    + rewrite Herr. reflexivity.
Qed.

End Runs.

Lemma last_map_seq {A} (f : nat -> A) (n : nat) (d : A) :
  (0 < n)%nat -> List.last (map f (seq 1 n)) d = f n.
Proof.
  intros Hn. destruct n as [|n]; [lia|].
  rewrite seq_S, map_app. simpl. apply last_last.
Qed.

Lemma sorted_map_seq (f : nat -> Z) (a n : nat) :
  (forall i j, (a <= i <= j)%nat -> (j < a + n)%nat -> f i <= f j) ->
  StronglySorted Z.le (map f (seq a n)).
Proof.
  revert a. induction n as [|n IH]; intros a Hf; simpl; constructor.
  - apply IH. intros i j Hij Hj. apply Hf; lia.
  - rewrite Forall_map. apply Forall_forall. intros j Hj.
    apply elem_of_seq in Hj. apply Hf; lia.
Qed.

(** C1 (amended).  When every page of an N-page document converts, the run
    ends with status done and N results for the pages 1, ..., N in this
    order; the progress reported after page i is the value of line 174 in
    binary64, one report per page in page order, after the initial reset to
    0.  That value is round(i / N x 100), except that when i / N x 100 lies
    half-way between two integers it may also be one less; the last report
    and the final progress are 100.  Page counts are below 2^32. *)
Theorem successful_run (st : App float) (doc : PdfDoc float) :
  pdfDoc st = Some doc ->
  (forall i, (1 <= i <= numPages doc)%nat ->
             converts doc (settings st) i = true) ->
  Z.of_nat (numPages doc) < 2 ^ 32 ->
  status (runEffects st (startConversion st)) = done
  /\ length (convertedImages (runEffects st (startConversion st)))
     = numPages doc
  /\ map page (convertedImages (runEffects st (startConversion st)))
     = seq 1 (numPages doc)
  /\ progressReports (startConversion st)
     = 0 :: map (progressAfter (numPages doc)) (seq 1 (numPages doc))
  /\ (forall i, (1 <= i <= numPages doc)%nat ->
        exactPercent (numPages doc) i - 1 <= progressAfter (numPages doc) i
        /\ progressAfter (numPages doc) i <= exactPercent (numPages doc) i
        /\ (~ halfway (numPages doc) i ->
            progressAfter (numPages doc) i = exactPercent (numPages doc) i))
  /\ ((0 < numPages doc)%nat ->
      List.last (progressReports (startConversion st)) 0 = 100
      /\ progress (runEffects st (startConversion st)) = 100).
Proof.
  intros Hdoc Hall Hsize.
  assert (Forall (fun i => converts doc (settings st) i = true)
            (seq 1 (numPages doc))) as Hforall.
  { apply Forall_forall. intros i Hi. apply elem_of_seq in Hi.
    apply Hall. lia. }
  destruct (convertPages_all doc (settings st) (numPages doc) _ [] Hforall)
    as (Hthr & Himgs & Hrep).
  fold (conversionLoop doc (settings st)) in Hthr, Himgs, Hrep.
  destruct (startConversion_result st doc Hdoc) as (Hreports & Hprog & Hend).
  rewrite Hthr in Hend. destruct Hend as (Hstatus & Hconv & _).
  simpl in Himgs.
  split; [exact Hstatus|].
  split; [rewrite Hconv, <- (length_map page), Himgs; apply length_seq|].
  split; [rewrite Hconv; exact Himgs|].
  split; [rewrite Hreports, Hrep; reflexivity|].
  split; [intros i Hi; apply progressAfter_exactPercent; assumption|].
  intros Hn. rewrite Hreports, Hprog, Hrep. split.
  - transitivity (List.last (map (progressAfter (num:=float) (numPages doc))
                               (seq 1 (numPages doc))) 0).
    { destruct (numPages doc); [lia|reflexivity]. }
    rewrite last_map_seq by assumption.
    apply progressAfter_last_binary64; lia.
  - rewrite last_map_seq by assumption.
    apply progressAfter_last_binary64; lia.
Qed.

Lemma successful_run_witness :
  status (converted (num:=float) "a.pdf" (letterDoc 3)) = done
  /\ length (convertedImages (converted (num:=float) "a.pdf" (letterDoc 3)))
     = 3%nat
  /\ map page (convertedImages (converted (num:=float) "a.pdf" (letterDoc 3)))
     = [1; 2; 3]%nat
  /\ progressReports (startConversion (loaded (num:=float) "a.pdf" (letterDoc 3)))
     = [0; 33; 67; 100].
Proof.
  destruct (successful_run (loaded "a.pdf" (letterDoc 3)) (letterDoc 3))
    as (Hs & Hl & Hp & Hr & _).
  - reflexivity.
  - intros i _. reflexivity.
  - vm_compute. reflexivity.
  - exact (conj Hs (conj Hl (conj Hp Hr))).
Defined.

(** C1, as stated, fails.  In binary64 line 174 rounds after the division
    and after the multiplication: 23 / 40 * 100 is 57.49999999999999, and
    the run of a 40-page document reports 57 after page 23, where
    round(23 / 40 x 100) = round(57.5) is 58. *)
Lemma progress_not_rounded_percentage :
  status (converted (num:=float) "a.pdf" (letterDoc 40)) = done
  /\ nth 23 (progressReports
               (startConversion (loaded (num:=float) "a.pdf" (letterDoc 40)))) 0
     = 57
  /\ exactPercent 40 23 = 58
  /\ halfway 40 23.
Proof. repeat split; vm_compute; reflexivity. Qed.

(** C2 (amended).  When page k is the first that fails, the run ends with
    status error; the loop had pushed exactly k-1 results, for the pages
    1, ..., k-1; none of them reaches the component state, whose result
    list is empty; the error message carries the cause. *)
Theorem failed_run {num : Type} `{JsNumber num}
    (st : App num) (doc : PdfDoc num) (k : nat) (m : string) :
  pdfDoc st = Some doc ->
  (1 <= k <= numPages doc)%nat ->
  (forall i, (1 <= i < k)%nat -> converts doc (settings st) i = true) ->
  snd (convertPage doc (settings st) k) = Rejected m ->
  status (runEffects st (startConversion st)) = error
  /\ length (images (conversionLoop doc (settings st))) = (k - 1)%nat
  /\ map page (images (conversionLoop doc (settings st))) = seq 1 (k - 1)
  /\ convertedImages (runEffects st (startConversion st)) = []
  /\ errorMsg (runEffects st (startConversion st))
     = "转换过程中发生错误: " +:+ m.
Proof.
  intros Hdoc Hk Hbefore Hfail.
  assert (Forall (fun i => converts doc (settings st) i = true)
            (seq 1 (k - 1))) as Hforall.
  { apply Forall_forall. intros i Hi. apply elem_of_seq in Hi.
    apply Hbefore. lia. }
  destruct (convertPages_stop doc (settings st) (numPages doc)
              (seq 1 (k - 1)) k (seq (S k) (numPages doc - k)) [] m
              Hforall Hfail) as (Hthr & Himgs & _).
  rewrite <- (seq_split_at (numPages doc) k Hk) in Hthr, Himgs.
  fold (conversionLoop doc (settings st)) in Hthr, Himgs.
  destruct (startConversion_result st doc Hdoc) as (_ & _ & Hend).
  rewrite Hthr in Hend. destruct Hend as (Hstatus & Hconv & Herr).
  simpl in Himgs. repeat split.
  - exact Hstatus.
  - rewrite <- (length_map page), Himgs. apply length_seq.
  - exact Himgs.
  - exact Hconv.
  - exact Herr.
Qed.

Lemma failed_run_witness :
  status (converted (num:=float) "a.pdf" (brokenDoc 3 2)) = error
  /\ map page (images (conversionLoop (brokenDoc 3 2)
                         (settings (loaded (num:=float) "a.pdf" (brokenDoc 3 2)))))
     = [1%nat]
  /\ convertedImages (converted (num:=float) "a.pdf" (brokenDoc 3 2)) = [].
Proof.
  destruct (failed_run (loaded (num:=float) "a.pdf" (brokenDoc 3 2))
              (brokenDoc 3 2) 2 "Invalid page")
    as (Hs & _ & Hp & Hc & _).
  - reflexivity.
  - simpl. lia.
  - intros i Hi. assert (i = 1%nat) as -> by lia. reflexivity.
  - reflexivity.
  - exact (conj Hs (conj Hp Hc)).
Defined.

(** C2, as stated, fails: page 2 of 3 cannot be rendered, the loop has the
    result of page 1, and the component ends with no result at all. *)
Lemma failed_run_discards_results :
  let st := loaded (num:=float) "a.pdf" (brokenDoc 3 2) in
  status (runEffects st (startConversion st)) = error
  /\ map page (images (conversionLoop (brokenDoc 3 2) (settings st))) = [1%nat]
  /\ convertedImages (runEffects st (startConversion st)) = []
  /\ ~ resultsKept st.
Proof.
  repeat split. intros Hkept. vm_compute in Hkept. discriminate Hkept.
Qed.

(** C9.  Without a loaded document [startConversion] does nothing: no
    effect is performed and the state is the same in every respect. *)
Theorem startConversion_no_document {num : Type} `{JsNumber num}
    (st : App num) :
  pdfDoc st = None ->
  startConversion st = []
  /\ runEffects st (startConversion st) = st
  /\ rendered st (startConversion st) = [st].
Proof.
  intros Hdoc. unfold startConversion. rewrite Hdoc. repeat split.
Qed.

Lemma startConversion_no_document_witness :
  startConversion (initialApp (num:=float)) = []
  /\ runEffects initialApp (startConversion (initialApp (num:=float)))
     = initialApp.
Proof.
  destruct (startConversion_no_document (initialApp (num:=float)))
    as (He & Hs & _).
  - reflexivity.
  - exact (conj He Hs).
Defined.

(** ** Progress *)

(** The progress shown in a state in which a handler can be rendered is the
    progress it started with or one of its reports. *)
Lemma rendered_progress {num : Type} `{JsNumber num}
    (st : App num) (effects : list (Effect num)) :
  Forall (fun s => progress s = progress st
                   \/ In (progress s) (progressReports effects))
         (rendered st effects).
Proof.
  revert st. induction effects as [|e rest IH]; intros st.
  - constructor; [left; reflexivity|constructor].
  - destruct e; cbn [rendered progressReports];
      try (match goal with
           | |- Forall _ (rendered (applyEffect ?st0 ?e0) _) =>
               exact (IH (applyEffect st0 e0))
           end).
    + eapply Forall_impl; [exact (IH _)|].
      cbn beta. intros s Hs. cbn [progress applyEffect] in Hs.
      destruct Hs as [Hs|Hs]; right;
        [rewrite Hs; apply in_eq|apply in_cons; exact Hs].
    + constructor; [left; reflexivity|exact (IH st)].
Qed.

(** C7 (amended).  The values passed to [setProgress] during a run never
    decrease; a run that ends with status done, on a document with at least
    one page, ends with progress 100; and 100 is reported only for a page
    i with i / N >= 0.995, so that a state with progress 100 is reached only
    after such a page of this run has been converted: with fewer than 200
    pages only after the last one.  Page counts are below 2^32. *)
Theorem progress_reports_sorted (st : App float) (doc : PdfDoc float) :
  pdfDoc st = Some doc ->
  Z.of_nat (numPages doc) < 2 ^ 32 ->
  StronglySorted Z.le (progressReports (startConversion st))
  /\ (status (runEffects st (startConversion st)) = done ->
      (0 < numPages doc)%nat ->
      progress (runEffects st (startConversion st)) = 100)
  /\ (forall i, (1 <= i <= numPages doc)%nat ->
        progressAfter (numPages doc) i = 100 ->
        199 * Z.of_nat (numPages doc) <= 200 * Z.of_nat i
        /\ ((numPages doc < 200)%nat -> i = numPages doc))
  /\ Forall (fun s =>
               progress s = 100 ->
               exists i,
                 (1 <= i <= length (images (conversionLoop doc (settings st))))%nat
                 /\ nth i (progressReports (startConversion st)) 0 = 100
                 /\ 199 * Z.of_nat (numPages doc) <= 200 * Z.of_nat i)
            (rendered st (startConversion st)).
Proof.
  intros Hdoc Hsize.
  destruct (startConversion_result st doc Hdoc) as (Hreports & Hprog & Hend).
  destruct (conversionLoop_reports doc (settings st))
    as (n & Hn & Himgs & Hrep & Hfull).
  assert (length (images (conversionLoop doc (settings st))) = n) as Hlen.
  { rewrite <- (length_map page), Himgs. apply length_seq. }
  split; [|split; [|split]].
  - rewrite Hreports, Hrep.
    destruct (Nat.eq_dec (numPages doc) 0%nat) as [Hzero|Hpos].
    + assert (n = 0%nat) as -> by lia. repeat constructor.
    + constructor.
      * apply sorted_map_seq. intros i j Hij Hj.
        apply progressAfter_mono_binary64; lia.
      * rewrite Forall_map. apply Forall_forall. intros i Hi.
        apply elem_of_seq in Hi.
        apply progressAfter_range_binary64; lia.
  - intros Hdone Hpos.
    destruct (thrown (conversionLoop doc (settings st))) as [m|].
    + destruct Hend as (Herror & _). congruence.
    + rewrite Hprog, Hrep, (Hfull eq_refl).
      rewrite last_map_seq by assumption.
      apply progressAfter_last_binary64; lia.
  - intros i Hi Hfulli.
    pose proof (progressAfter_full_binary64 _ _ Hi Hsize Hfulli) as Hbound.
    split; [exact Hbound|]. intros Hsmall. lia.
  - unfold startConversion. rewrite Hdoc.
    fold (conversionLoop doc (settings st)).
    cbn [app rendered applyEffect].
    set (st0 := {| file := file st; pdfDoc := pdfDoc st; status := processing;
                   progress := 0; convertedImages := [];
                   errorMsg := errorMsg st; settings := settings st |}).
    eapply Forall_impl; [apply (rendered_progress st0)|].
    intros s Hs Hfulls. cbn [progress st0] in Hs.
    destruct Hs as [Hs|Hs]; [simpl in Hs; lia|].
    rewrite Hfulls in Hs. rewrite progressReports_app, Hrep in Hs.
    replace (progressReports
               match thrown (conversionLoop doc (settings st)) with
               | Some m => _
               | None => _
               end) with (@nil Z) in Hs
      by (destruct (thrown (conversionLoop doc (settings st))); reflexivity).
    rewrite app_nil_r in Hs. apply in_map_iff in Hs as (i & Hi100 & Hi).
    apply in_seq in Hi. exists i. rewrite Hlen.
    split; [lia|]. split.
    + cbn [progressReports app]. rewrite progressReports_app, Hrep.
      destruct i as [|i]; [lia|]. cbn [nth].
      rewrite app_nth1 by (rewrite length_map, length_seq; lia).
      rewrite (nth_indep _ 0 (progressAfter (num:=float) (numPages doc) 0))
        by (rewrite length_map, length_seq; lia).
      rewrite map_nth, seq_nth by lia. exact Hi100.
    + apply progressAfter_full_binary64; [lia|exact Hsize|exact Hi100].
Qed.

Lemma progress_reports_sorted_witness :
  StronglySorted Z.le [0; 33; 67; 100]
  /\ progress (converted (num:=float) "a.pdf" (letterDoc 3)) = 100.
Proof.
  destruct (progress_reports_sorted (loaded "a.pdf" (letterDoc 3)) (letterDoc 3))
    as (Hsorted & Hfull & _).
  - reflexivity.
  - vm_compute. reflexivity.
  - exact (conj Hsorted (Hfull eq_refl ltac:(simpl; lia))).
Defined.

(** C7, as stated, fails.  A one-page document is rendered with progress
    100 while its status is still processing, at the suspension of line
    175.  With 201 pages the report after page 200 is already 100, and
    when page 201 then fails the run ends with status error and progress
    100. *)
Lemma full_progress_without_done :
  ~ fullOnlyWhenDone (loaded (num:=float) "a.pdf" (letterDoc 1))
  /\ status (converted (num:=float) "a.pdf" (brokenDoc 201 201)) = error
  /\ progress (converted (num:=float) "a.pdf" (brokenDoc 201 201)) = 100.
Proof.
  split; [|split; vm_compute; reflexivity].
  intros Hall. unfold fullOnlyWhenDone in Hall.
  eapply (Forall_lookup_1 _ _ 2%nat) in Hall; [|vm_compute; reflexivity].
  simpl in Hall. specialize (Hall eq_refl). discriminate Hall.
Qed.

(** ** The viewport *)


Lemma planViewport_base {num : Type} `{JsNumber num}
    (pg : Page num) (cfg : Settings num) :
  gtb (maxPageWidth cfg) (ofZ 0) = false
  \/ gtb (mul (pageWidth pg) (scale cfg)) (maxPageWidth cfg) = false ->
  planViewport pg cfg = getViewport pg (scale cfg).
Proof.
  intros Hcase. unfold planViewport. cbn [viewportWidth getViewport].
  destruct Hcase as [-> | ->]; [reflexivity|].
  rewrite andb_false_r. reflexivity.
Qed.



Lemma moderate_ofZ (z : Z) : 1 <= z < 2 ^ 31 -> moderate (float_ofZ z).
Proof.
  intros Hz. destruct (float_ofZ_exact z ltac:(lia)) as [Cz Vz].
  split; [exact Cz|]. rewrite Vz. split.
  - apply Qle_trans with (pow2 0); [apply pow2_le; lia|].
    change (pow2 0) with (inject_Z 1). rewrite <- Zle_Qle. lia.
  - apply Qle_trans with (pow2 31); [|apply pow2_le; lia].
    rewrite pow2_Z by lia. rewrite <- Zle_Qle. lia.
Qed.



(** C3 (amended).  Without a width limit the viewport keeps the base scale:
    its sides are the products of the page sides with the scale, as
    binary64 rounds them, and the canvas gets these sides with the fraction
    cut off, not rounded to nearest.  Each canvas side is therefore less
    than one pixel below the exact product, up to the rounding of the
    product (one part in 2^53), and the ratio of the canvas sides is that
    of the page up to one pixel and that rounding.  The page sides and the
    scale are positive doubles between 2^-200 and 2^200, and the sides of
    the scaled page are such as a canvas attribute can hold, at most
    2147483647. *)
Theorem viewport_without_limit (pg : Page float) (cfg : Settings float) :
  moderate (pageWidth pg) -> moderate (pageHeight pg) -> moderate (scale cfg) ->
  maxPageWidth cfg = ofZ 0 ->
  (valueOf (pageWidth pg) * valueOf (scale cfg) <= inject_Z 2147483647)%Q ->
  (valueOf (pageHeight pg) * valueOf (scale cfg) <= inject_Z 2147483647)%Q ->
  planViewport pg cfg = getViewport pg (scale cfg)
  /\ canvasWidth (planViewport pg cfg)
     = Qfloor (valueOf (mul (pageWidth pg) (scale cfg)))
  /\ canvasHeight (planViewport pg cfg)
     = Qfloor (valueOf (mul (pageHeight pg) (scale cfg)))
  /\ (valueOf (pageWidth pg) * valueOf (scale cfg) * (1 - pow2 (-53)) - 1
      < inject_Z (canvasWidth (planViewport pg cfg)))%Q
  /\ (inject_Z (canvasWidth (planViewport pg cfg))
      <= valueOf (pageWidth pg) * valueOf (scale cfg) * (1 + pow2 (-53)))%Q
  /\ (valueOf (pageHeight pg) * valueOf (scale cfg) * (1 - pow2 (-53)) - 1
      < inject_Z (canvasHeight (planViewport pg cfg)))%Q
  /\ (inject_Z (canvasHeight (planViewport pg cfg))
      <= valueOf (pageHeight pg) * valueOf (scale cfg) * (1 + pow2 (-53)))%Q
  /\ (- (valueOf (pageHeight pg)
         + pow2 (-52) * (valueOf (pageWidth pg) * valueOf (pageHeight pg)
                         * valueOf (scale cfg)))
      < inject_Z (canvasWidth (planViewport pg cfg)) * valueOf (pageHeight pg)
        - inject_Z (canvasHeight (planViewport pg cfg)) * valueOf (pageWidth pg))%Q
  /\ (inject_Z (canvasWidth (planViewport pg cfg)) * valueOf (pageHeight pg)
      - inject_Z (canvasHeight (planViewport pg cfg)) * valueOf (pageWidth pg)
      < valueOf (pageWidth pg)
        + pow2 (-52) * (valueOf (pageWidth pg) * valueOf (pageHeight pg)
                        * valueOf (scale cfg)))%Q.
Proof.
  intros (Cw & Lw & Uw) (Ch & Lh & Uh) (Cs & Ls & Us) Hmax Hbw Hbh.
  assert (planViewport pg cfg = getViewport pg (scale cfg)) as Hplan.
  { apply planViewport_base. left. rewrite Hmax. reflexivity. }
  rewrite Hplan. unfold canvasWidth, canvasHeight.
  cbn [viewportWidth viewportHeight getViewport mul binary64].
  destruct (mul_rounds_range _ _ (-200) 200 (-200) 200 Cw Cs Lw Uw Ls Us)
    as (CW & RW & _); [lia|lia|].
  destruct (mul_rounds_range _ _ (-200) 200 (-200) 200 Ch Cs Lh Uh Ls Us)
    as (CH & RH & _); [lia|lia|].
  destruct (canvas_side 300 (pageWidth pg) (scale cfg) CW RW)
    as (Ecw & _ & Lcw & Ucw).
  { apply Qle_lt_trans with (inject_Z 2147483647); [|rewrite <- Zlt_Qlt; lia].
    apply (rounds_le_integer _ _ _ RW); [lia|exact Hbw]. }
  destruct (canvas_side 150 (pageHeight pg) (scale cfg) CH RH)
    as (Ech & _ & Lch & Uch).
  { apply Qle_lt_trans with (inject_Z 2147483647); [|rewrite <- Zlt_Qlt; lia].
    apply (rounds_le_integer _ _ _ RH); [lia|exact Hbh]. }
  split; [reflexivity|]. split; [exact Ecw|]. split; [exact Ech|].
  split; [exact Lcw|]. split; [exact Ucw|]. split; [exact Lch|].
  split; [exact Uch|].
  apply aspect_within; try assumption.
  - exact (valueOf_normal_pos _ Cw).
  - exact (valueOf_normal_pos _ Ch).
Qed.

Lemma viewport_without_limit_witness :
  canvasWidth (planViewport (oddPage (num:=float)) (settingsWith scale15 (ofZ 0)))
  = Qfloor (valueOf 919.5%float)
  /\ canvasHeight
       (planViewport (oddPage (num:=float)) (settingsWith scale15 (ofZ 0)))
     = Qfloor (valueOf 1188%float).
Proof.
  destruct (viewport_without_limit oddPage (settingsWith scale15 (ofZ 0)))
    as (_ & Hcw & Hch & _).
  - moderate_compute.
  - moderate_compute.
  - moderate_compute.
  - reflexivity.
  - q_compute.
  - q_compute.
  - exact (conj Hcw Hch).
Defined.

(** C3, as stated, fails: a page 613 points wide at scale 1.5 has a viewport
    919.5 wide (the product is exact in binary64); the canvas is 919 wide,
    and round(919.5) is 920. *)
Lemma canvas_width_not_rounded :
  canvasWidth (planViewport (oddPage (num:=float)) (settingsWith scale15 (ofZ 0)))
  = 919
  /\ Math_round (mul (num:=float) (ofZ 613) scale15) = 920
  /\ ~ roundedToNearest (oddPage (num:=float)) (settingsWith scale15 (ofZ 0)).
Proof.
  split; [reflexivity|]. split; [reflexivity|].
  intros (Hw & _). vm_compute in Hw. discriminate Hw.
Qed.




(** The same scenario evaluated: 1200 / 1836 and its product with 3 are
    rounded, and the viewport is still exactly 1200 wide. *)
Lemma viewport_with_limit_binary64 :
  viewportWidth (planViewport (num:=float) letterPage
                   (settingsWith (ofZ 3) (ofZ 1200)))
  = 1200%float
  /\ canvasWidth (planViewport (num:=float) letterPage
                    (settingsWith (ofZ 3) (ofZ 1200)))
     = 1200
  /\ canvasHeight (planViewport (num:=float) letterPage
                     (settingsWith (ofZ 3) (ofZ 1200)))
     = 1552.
Proof. repeat split; vm_compute; reflexivity. Qed.

(** The viewport of a limited page can come out just below the limit, and
    the canvas is then one pixel narrower than the limit: a letter page at
    scale 1 under the limit 112 has a viewport 111.99999999999999 wide and
    a canvas 111 wide.  At scale 2 under the limit 663 the canvas is 663 by
    857. *)
Lemma viewport_below_limit_binary64 :
  canvasWidth (planViewport (num:=float) letterPage
                 (settingsWith (ofZ 1) (ofZ 112)))
  = 111
  /\ canvasWidth (planViewport (num:=float) letterPage
                    (settingsWith (ofZ 2) (ofZ 663)))
     = 663
  /\ canvasHeight (planViewport (num:=float) letterPage
                     (settingsWith (ofZ 2) (ofZ 663)))
     = 857.
Proof. repeat split; vm_compute; reflexivity. Qed.

(** A product that rounds up to an integer gives that integer: a page side
    of 0.3333333333333333 at scale 3 has the exact size 0.9999999999999999,
    the double product is 1, and the canvas is 1 wide. *)
Lemma canvas_of_rounded_product :
  canvasWidth (planViewport (blankPage 0x1.5555555555555p-2%float (ofZ 792))
                 (settingsWith (ofZ 3) (ofZ 0)))
  = 1.
Proof. vm_compute. reflexivity. Qed.

(** ** Reachable states *)

Section Invariant.
Context {num : Type} `{JsNumber num}.

Lemma startConversion_file (st : App num) :
  file (runEffects st (startConversion st)) = file st.
Proof.
  unfold startConversion. destruct (pdfDoc st) as [doc|]; [|reflexivity].
  rewrite !runEffects_app.
  pose proof (convertPages_quiet doc (settings st) (numPages doc)
                (seq 1 (numPages doc)) []) as Hq.
  fold (conversionLoop doc (settings st)) in Hq.
  set (st0 := runEffects st _).
  destruct (runEffects_quiet st0 _ Hq) as (Hfile & _).
  destruct (thrown (conversionLoop doc (settings st))); simpl; rewrite Hfile;
    reflexivity.
Qed.

Lemma conversionLoop_ascending (doc : PdfDoc num) cfg :
  pagesAscending (images (conversionLoop doc cfg)).
Proof.
  destruct (conversionLoop_reports doc cfg) as (n & _ & Hpages & _).
  unfold pagesAscending. rewrite Hpages. f_equal.
  rewrite <- (length_map page), Hpages, length_seq. reflexivity.
Qed.

Lemma wellFormed_no_results (st : App num) :
  convertedImages st = [] -> wellFormed st.
Proof.
  intros Hnil. unfold wellFormed. rewrite Hnil.
  split; [reflexivity|]. intros Hne. contradiction.
Qed.

Lemma reachable_wellFormed (st : App num) : Reachable st -> wellFormed st.
Proof.
  induction 1 as [|st h _ IH Hen].
  - apply wellFormed_no_results. reflexivity.
  - destruct h as [[f|]| | | | | | |]; simpl in *.
    + unfold handleFileChange.
      destruct (decide (type f = "application/pdf")).
      * apply wellFormed_no_results.
        destruct (parsed f); reflexivity.
      * exact IH.
    + exact IH.
    + apply wellFormed_no_results. simpl.
      destruct (convertedImages st) as [|img imgs] eqn:Himgs; [reflexivity|].
      destruct IH as (_ & Hdone). rewrite Himgs in Hdone.
      destruct (Hdone ltac:(discriminate)) as (Hdone' & _).
      destruct Hen as (_ & Hidle). congruence.
    + destruct (pdfDoc st) as [doc|] eqn:Hdoc.
      * pose proof (startConversion_file st) as Hfile.
        destruct (startConversion_result st doc Hdoc) as (_ & _ & Hend).
        destruct (thrown (conversionLoop doc (settings st))).
        -- apply wellFormed_no_results. apply Hend.
        -- destruct Hend as (Hstatus & Himgs & _). unfold wellFormed.
           rewrite Himgs, Hstatus, Hfile.
           split; [apply conversionLoop_ascending|].
           intros _. split; [reflexivity|apply Hen].
      * unfold startConversion. rewrite Hdoc. exact IH.
    + apply wellFormed_no_results. reflexivity.
    + exact IH.
    + exact IH.
    + exact IH.
    + exact IH.
Qed.

Lemma loaded_reachable (fileName : string) (doc : PdfDoc num) :
  Reachable (loaded fileName doc).
Proof.
  apply (Reachable_handle initialApp
           (OnFileChange (Some (sampleFile fileName doc)))).
  - constructor.
  - reflexivity.
Qed.

Lemma converted_reachable (fileName : string) (doc : PdfDoc num) :
  Reachable (converted fileName doc).
Proof.
  apply (Reachable_handle (loaded fileName doc) OnStartConversion).
  - apply loaded_reachable.
  - split; [discriminate|reflexivity].
Qed.

End Invariant.

(** ** File names *)

Lemma list_ascii_of_string_app (s t : string) :
  String.list_ascii_of_string (s +:+ t)
  = String.list_ascii_of_string s ++ String.list_ascii_of_string t.
Proof. induction s as [|c s IH]; simpl; [reflexivity|rewrite IH; reflexivity]. Qed.

Lemma string_app_inj_r (s1 s2 t : string) : s1 +:+ t = s2 +:+ t -> s1 = s2.
Proof.
  intros Heq. apply (f_equal String.list_ascii_of_string) in Heq.
  rewrite !list_ascii_of_string_app in Heq. apply app_inv_tail in Heq.
  apply (f_equal String.string_of_list_ascii) in Heq.
  rewrite !String.string_of_list_ascii_of_string in Heq. exact Heq.
Qed.

(** Different pages get different file names. *)
Lemma pageFileName_inj (fmt : Format) (i j : nat) :
  pageFileName fmt i = pageFileName fmt j -> i = j.
Proof.
  unfold pageFileName. intros Heq.
  apply (inj (String.app "page-")) in Heq.
  apply string_app_inj_r in Heq.
  apply (inj pretty) in Heq. exact Heq.
Qed.

Lemma pageFileName_first (fmt : Format) :
  pageFileName fmt 1 = "page-1." +:+ formatString fmt.
Proof. destruct fmt; reflexivity. Qed.

(** ** The archive *)

Lemma buildZip_snoc (fmt : Format) (imgs : list Image) (img : Image) :
  buildZip fmt (imgs ++ [img])
  = folderFile "images/" (pageFileName fmt (page img)) (base64Data img)
      (buildZip fmt imgs).
Proof. unfold buildZip. rewrite fold_left_app. reflexivity. Qed.

(** The entries of the archive: the folder, and for each image a file
    named after its page, holding its data. *)
Lemma buildZip_entries (fmt : Format) (imgs : list Image) :
  NoDup (map page imgs) ->
  (forall img, img ∈ imgs ->
     buildZip fmt imgs !! ("images/" +:+ pageFileName fmt (page img))
     = Some (Data (base64Data img)))
  /\ (forall key entry, buildZip fmt imgs !! key = Some entry ->
        (key = "images/" /\ entry = Folder)
        \/ exists img, img ∈ imgs
             /\ key = "images/" +:+ pageFileName fmt (page img)
             /\ entry = Data (base64Data img))
  /\ size (buildZip fmt imgs) = S (length imgs).
Proof.
  induction imgs as [|img imgs IH] using rev_ind; intros Hnodup.
  - split; [|split].
    + intros img Him. inversion Him.
    + intros key entry Hlook. left. unfold buildZip, zipFolder in Hlook.
      cbn [fold_left] in Hlook. rewrite insert_empty in Hlook.
      apply lookup_singleton_Some in Hlook.
      destruct Hlook as (<- & <-). split; reflexivity.
    + unfold buildZip, zipFolder. cbn [fold_left length].
      rewrite insert_empty. apply map_size_singleton.
  - rewrite map_app in Hnodup. apply NoDup_app in Hnodup.
    destruct Hnodup as (Hnd & Hfresh & _).
    destruct (IH Hnd) as (IHfile & IHonly & IHsize).
    assert (buildZip fmt imgs
              !! ("images/" +:+ pageFileName fmt (page img)) = None) as Hnew.
    { destruct (buildZip fmt imgs
                  !! ("images/" +:+ pageFileName fmt (page img)))
        as [entry|] eqn:Hlook; [|reflexivity].
      exfalso.
      destruct (IHonly _ _ Hlook) as [(Hkey & _)|(img' & Hin & Hkey & _)].
      - destruct fmt; discriminate Hkey.
      - apply (inj (String.app "images/")) in Hkey.
        apply pageFileName_inj in Hkey.
        apply (Hfresh (page img)).
        + rewrite Hkey. apply list_elem_of_fmap_2. exact Hin.
        + left. }
    rewrite buildZip_snoc. unfold folderFile. split; [|split].
    + intros img' Hin. apply elem_of_app in Hin.
      destruct Hin as [Hin|Hin].
      * rewrite lookup_insert_ne; [apply IHfile; exact Hin|].
        intros Heq. specialize (IHfile img' Hin).
        rewrite <- Heq, Hnew in IHfile. discriminate.
      * apply list_elem_of_singleton in Hin. subst img'.
        apply lookup_insert_eq.
    + intros key entry Hlook.
      destruct (decide ("images/" +:+ pageFileName fmt (page img) = key))
        as [<-|Hne].
      * rewrite lookup_insert_eq in Hlook. injection Hlook as <-.
        right. exists img. split; [|split; reflexivity].
        apply elem_of_app. right. left.
      * rewrite lookup_insert_ne in Hlook by exact Hne.
        destruct (IHonly _ _ Hlook) as [Hfolder|(img' & Hin & Hkey & Hentry)].
        -- left. exact Hfolder.
        -- right. exists img'. split; [|split; assumption].
           apply elem_of_app. left. exact Hin.
    + rewrite map_size_insert_None by exact Hnew.
      rewrite IHsize, length_app. cbn [length]. lia.
Qed.

Lemma pagesAscending_NoDup (imgs : list Image) :
  pagesAscending imgs -> NoDup (map page imgs).
Proof. unfold pagesAscending. intros ->. apply NoDup_seq. Qed.

(** ** Downloads *)



(** C10.  With no result, [downloadAll] returns without a call of
    [saveAs]: neither delivery is made. *)
Theorem download_nothing {num : Type} `{JsNumber num} (st : App num) :
  convertedImages st = [] ->
  downloadAll st = Resolved None
  /\ deliversSingle st = false /\ deliversBundle st = false.
Proof.
  intros Hnil. unfold deliversSingle, deliversBundle, downloadAll.
  rewrite Hnil. repeat split.
Qed.

Lemma download_nothing_witness :
  downloadAll (loaded (num:=float) "a.pdf" (letterDoc 3)) = Resolved None.
Proof.
  exact (proj1 (download_nothing (loaded (num:=float) "a.pdf" (letterDoc 3))
                  eq_refl)).
Defined.

(** What the bundle delivery hands over in a reachable state with two or
    more results: an archive with one file per result under
    images/page-<pageIndex>.<format>, these files and the folder being all
    its entries, and the name that line 205 computes. *)
Lemma download_bundle {num : Type} `{JsNumber num}
    (st : App num) (f : File num) :
  Reachable st -> file st = Some f ->
  (2 <= length (convertedImages st))%nat ->
  exists zip,
    downloadAll st
    = Resolved (Some {| content := ZipBlob zip;
                        fileName := replaceFirst ".pdf" "" (name f)
                                    +:+ "-images.zip" |})
    /\ (forall img, img ∈ convertedImages st ->
          zip !! ("images/" +:+ pageFileName (format (settings st)) (page img))
          = Some (Data (base64Data img)))
    /\ (forall key entry, zip !! key = Some entry ->
          (key = "images/" /\ entry = Folder)
          \/ exists img, img ∈ convertedImages st
               /\ key = "images/"
                        +:+ pageFileName (format (settings st)) (page img)
               /\ entry = Data (base64Data img))
    /\ size zip = S (length (convertedImages st)).
Proof.
  intros Hreach Hfile Hlen.
  destruct (reachable_wellFormed st Hreach) as (Hasc & _).
  exists (buildZip (format (settings st)) (convertedImages st)).
  split.
  - unfold downloadAll. rewrite Hfile.
    destruct (convertedImages st) as [|img [|img' imgs]];
      cbn [length] in Hlen; [lia|lia|reflexivity].
  - apply buildZip_entries, pagesAscending_NoDup, Hasc.
Qed.

Lemma replaceFirst_cons (pattern replacement : string) (c : ascii) (s : string) :
  replaceFirst pattern replacement (String c s)
  = if String.prefix pattern (String c s)
    then replacement
         +:+ String.substring (String.length pattern)
               (String.length (String c s) - String.length pattern)
               (String c s)
    else String c (replaceFirst pattern replacement s).
Proof. reflexivity. Qed.

(** For a name with no dot before its [.pdf] extension, line 205 does strip
    the extension. *)
Lemma replaceFirst_plain_name (base : string) :
  hasDot base = false ->
  replaceFirst ".pdf" "" (base +:+ ".pdf") = base
  /\ stripExtension (base +:+ ".pdf") = base.
Proof.
  induction base as [|c base IH]; intros Hdot; [split; reflexivity|].
  cbn [hasDot] in Hdot.
  destruct (decide (c = "."%char)) as [|Hc]; [discriminate|].
  destruct (IH Hdot) as (IHr & IHs). split.
  - change (String c base +:+ ".pdf") with (String c (base +:+ ".pdf")).
    rewrite replaceFirst_cons.
    change (String.prefix ".pdf" (String c (base +:+ ".pdf")))
      with (if Ascii.ascii_dec "."%char c
            then String.prefix "pdf" (base +:+ ".pdf") else false).
    destruct (Ascii.ascii_dec "."%char c) as [Heq|_]; [congruence|].
    rewrite IHr. reflexivity.
  - change (String c base +:+ ".pdf") with (String c (base +:+ ".pdf")).
    cbn [stripExtension].
    rewrite bool_decide_eq_false_2 by exact Hc.
    cbn [andb]. rewrite IHs. reflexivity.
Qed.

(** C6.  The archive name of line 205 at a document named
    my.pdf-notes.pdf: the first [.pdf] is removed and the extension is
    kept, where stripping the extension gives my.pdf-notes; at a document
    named REPORT.PDF nothing is removed. *)
Theorem bundle_name_keeps_extension :
  match downloadAll (converted (num:=float) "my.pdf-notes.pdf" (letterDoc 2)) with
  | Resolved (Some saved) => fileName saved = "my-notes.pdf-images.zip"
  | _ => False
  end
  /\ strippedBundleName "my.pdf-notes.pdf" = "my.pdf-notes-images.zip"
  /\ match downloadAll (converted (num:=float) "REPORT.PDF" (letterDoc 2)) with
     | Resolved (Some saved) => fileName saved = "REPORT.PDF-images.zip"
     | _ => False
     end
  /\ strippedBundleName "REPORT.PDF" = "REPORT-images.zip".
Proof. repeat split. Qed.

(** * Further properties of the handlers *)

(** ** What a run publishes *)

Lemma canvasSize_range {num : Type} `{JsNumber num} (default : Z) (x : num) :
  0 <= default <= 2147483647 ->
  0 <= canvasSize default x <= 2147483647.
Proof.
  intros Hd. unfold canvasSize.
  pose proof (Z.mod_pos_bound (toInteger x) (2 ^ 32) ltac:(lia)) as Hmod.
  destruct (Z.leb_spec (toInteger x mod 2 ^ 32) 2147483647); lia.
Qed.

(** The images of a loop that runs to its end are those of its pages. *)
Lemma convertPages_images {num : Type} `{JsNumber num} (doc : PdfDoc num) cfg total pending acc :
  Forall (fun i => converts doc cfg i = true) pending ->
  exists imgs,
    images (convertPages doc cfg total pending acc) = acc ++ imgs
    /\ Forall2 (fun i img => snd (convertPage doc cfg i) = Resolved img)
         pending imgs.
Proof.
  intros Hall. revert acc.
  induction Hall as [|i rest Hi _ IH]; intros acc; simpl.
  - exists []. rewrite app_nil_r. split; [reflexivity|constructor].
  - unfold converts in Hi.
    destruct (convertPage doc cfg i) as [awaits [img|m]] eqn:Hpage;
      simpl in *; [|discriminate].
    destruct (IH (acc ++ [img])) as (imgs & Himgs & Hall2).
    exists (img :: imgs). split.
    + rewrite Himgs, <- app_assoc. reflexivity.
    + constructor; [rewrite Hpage; reflexivity|exact Hall2].
Qed.

(** X1.  After a run in which every page converts, the k-th result is the
    one of page k: it carries the page number k, the data URL of the page
    rendered in its viewport and encoded with the MIME type and the quality
    of the settings the run was started with, and the size of the canvas;
    both sides of that size are between 0 and 2147483647. *)
Theorem published_results {num : Type} `{JsNumber num} (st : App num) (doc : PdfDoc num)
    (k : nat) (pg : Page num) :
  pdfDoc st = Some doc ->
  (forall i, (1 <= i <= numPages doc)%nat ->
             converts doc (settings st) i = true) ->
  (1 <= k <= numPages doc)%nat ->
  getPage doc k = Resolved pg ->
  convertedImages (runEffects st (startConversion st)) !! (k - 1)%nat
  = Some {| page := k;
            dataUrl := toDataURL pg (planViewport pg (settings st))
                         (mimeType (settings st)) (quality (settings st));
            width := canvasWidth (planViewport pg (settings st));
            height := canvasHeight (planViewport pg (settings st)) |}
  /\ 0 <= canvasWidth (planViewport pg (settings st)) <= 2147483647
  /\ 0 <= canvasHeight (planViewport pg (settings st)) <= 2147483647.
Proof.
  intros Hdoc Hall Hk Hpg.
  assert (Forall (fun i => converts doc (settings st) i = true)
            (seq 1 (numPages doc))) as Hforall.
  { apply Forall_forall. intros i Hi. apply elem_of_seq in Hi.
    apply Hall. lia. }
  destruct (convertPages_all doc (settings st) (numPages doc) _ [] Hforall)
    as (Hthr & _).
  destruct (convertPages_images doc (settings st) (numPages doc) _ [] Hforall)
    as (imgs & Himgs & Hall2).
  fold (conversionLoop doc (settings st)) in Hthr, Himgs.
  destruct (startConversion_result st doc Hdoc) as (_ & _ & Hend).
  rewrite Hthr in Hend. destruct Hend as (_ & Hconv & _).
  rewrite Hconv, Himgs. simpl.
  split; [|split; apply canvasSize_range; lia].
  assert (seq 1 (numPages doc) !! (k - 1)%nat = Some k) as Hlook.
  { apply lookup_seq. lia. }
  destruct (Forall2_lookup_l _ _ _ _ _ Hall2 Hlook) as (img & Himg & Hres).
  rewrite Himg. f_equal.
  unfold convertPage in Hres. rewrite Hpg in Hres.
  destruct (render pg (planViewport pg (settings st))); simpl in Hres;
    [|discriminate].
  injection Hres as <-. reflexivity.
Qed.

Lemma published_results_witness :
  convertedImages (converted (num:=float) "a.pdf" (letterDoc 3)) !! 1%nat
  = Some {| page := 2; dataUrl := "data:image/png;base64,AAAA";
            width := 1224; height := 1584 |}.
Proof.
  destruct (published_results (loaded (num:=float) "a.pdf" (letterDoc 3))
              (letterDoc 3) 2 letterPage) as (Hlook & _).
  - reflexivity.
  - intros i _. reflexivity.
  - simpl. lia.
  - reflexivity.
  - exact Hlook.
Defined.

Lemma suspensions_app {num : Type} `{JsNumber num} (st : App num) e1 e2 :
  suspensions st (e1 ++ e2)
  = suspensions st e1 ++ suspensions (runEffects st e1) e2.
Proof.
  revert st. induction e1 as [|e rest IH]; intros st; [reflexivity|].
  destruct e; simpl; rewrite IH; reflexivity.
Qed.

Lemma rendered_suspensions {num : Type} `{JsNumber num} (st : App num) effects :
  rendered st effects = suspensions st effects ++ [runEffects st effects].
Proof.
  revert st. induction effects as [|e rest IH]; intros st; [reflexivity|].
  destruct e; simpl; rewrite IH; reflexivity.
Qed.

Lemma suspensions_quiet {num : Type} `{JsNumber num} (st : App num) effects :
  Forall quiet effects ->
  Forall (fun s => status s = status st
                   /\ convertedImages s = convertedImages st)
         (suspensions st effects).
Proof.
  intros Hq. revert st. induction Hq as [|e rest He _ IH]; intros st.
  - constructor.
  - destruct e as [| | |p| | | | |what]; simpl in He; try contradiction.
    + exact (IH (applyEffect st (SetProgress p))).
    + constructor; [split; reflexivity|exact (IH st)].
Qed.

(** X2.  While a conversion runs nothing is published: at every suspension
    of [startConversion] the status is processing and the result list is
    empty, whether the run then succeeds or fails; the states the component
    is rendered in are these and the final one. *)
Theorem nothing_published_during_run {num : Type} `{JsNumber num} (st : App num) (doc : PdfDoc num) :
  pdfDoc st = Some doc ->
  Forall (fun s => status s = processing /\ convertedImages s = [])
         (suspensions st (startConversion st))
  /\ rendered st (startConversion st)
     = suspensions st (startConversion st)
       ++ [runEffects st (startConversion st)].
Proof.
  intros Hdoc. split; [|apply rendered_suspensions].
  unfold startConversion. rewrite Hdoc.
  rewrite suspensions_app. apply Forall_app. split; [constructor|].
  rewrite suspensions_app. apply Forall_app. split.
  - exact (suspensions_quiet
             (runEffects st
                [SetStatus processing; SetProgress 0; SetConvertedImages []])
             _ (convertPages_quiet doc (settings st) (numPages doc)
                  (seq 1 (numPages doc)) [])).
  - destruct (thrown (conversionLoop doc (settings st))); constructor.
Qed.

Lemma nothing_published_during_run_witness :
  Forall (fun s => status s = processing /\ convertedImages s = [])
         (suspensions (loaded (num:=float) "a.pdf" (letterDoc 3))
            (startConversion (loaded (num:=float) "a.pdf" (letterDoc 3)))).
Proof.
  exact (proj1 (nothing_published_during_run
                  (loaded (num:=float) "a.pdf" (letterDoc 3)) (letterDoc 3)
                  eq_refl)).
Defined.

(** ** Progress during a run *)

(** X3.  Every value passed to [setProgress] by [startConversion] lies
    between 0 and 100, whether a document is loaded or not and whether the
    run succeeds or fails (page counts below 2^53, the integers a Number
    holds exactly). *)
Theorem progress_within_bounds (st : App float) :
  (forall doc, pdfDoc st = Some doc -> Z.of_nat (numPages doc) < 2 ^ 53) ->
  Forall (fun p => 0 <= p <= 100) (progressReports (startConversion st)).
Proof.
  intros Hsize. destruct (pdfDoc st) as [doc|] eqn:Hdoc.
  - specialize (Hsize doc eq_refl).
    destruct (startConversion_result st doc Hdoc) as (Hreports & _).
    destruct (conversionLoop_reports doc (settings st))
      as (n & Hn & _ & Hrep & _).
    rewrite Hreports, Hrep. constructor; [lia|].
    rewrite Forall_map. apply Forall_forall. intros i Hi.
    apply elem_of_seq in Hi.
    apply progressAfter_range_binary64; lia.
  - unfold startConversion. rewrite Hdoc. constructor.
Qed.

Lemma progress_within_bounds_witness :
  Forall (fun p => 0 <= p <= 100)
    (progressReports
       (startConversion (loaded (num:=float) "a.pdf" (brokenDoc 7 5)))).
Proof.
  apply progress_within_bounds.
  intros doc Hdoc. injection Hdoc as <-. vm_compute. reflexivity.
Defined.

(** X4.  When page k is the first that fails, the progress stays where the
    last converted page left it: at the value reported for page k-1, and at
    0 when the first page fails. *)
Theorem progress_after_failure {num : Type} `{JsNumber num}
    (st : App num) (doc : PdfDoc num) (k : nat) (m : string) :
  pdfDoc st = Some doc ->
  (1 <= k <= numPages doc)%nat ->
  (forall i, (1 <= i < k)%nat -> converts doc (settings st) i = true) ->
  snd (convertPage doc (settings st) k) = Rejected m ->
  progress (runEffects st (startConversion st))
  = if decide (k = 1%nat) then 0 else progressAfter (numPages doc) (k - 1).
Proof.
  intros Hdoc Hk Hbefore Hfail.
  assert (Forall (fun i => converts doc (settings st) i = true)
            (seq 1 (k - 1))) as Hforall.
  { apply Forall_forall. intros i Hi. apply elem_of_seq in Hi.
    apply Hbefore. lia. }
  destruct (convertPages_stop doc (settings st) (numPages doc)
              (seq 1 (k - 1)) k (seq (S k) (numPages doc - k)) [] m
              Hforall Hfail) as (_ & _ & Hrep).
  rewrite <- (seq_split_at (numPages doc) k Hk) in Hrep.
  fold (conversionLoop doc (settings st)) in Hrep.
  destruct (startConversion_result st doc Hdoc) as (_ & Hprog & _).
  rewrite Hprog, Hrep.
  destruct (decide (k = 1%nat)) as [->|Hne]; [reflexivity|].
  apply last_map_seq. lia.
Qed.

Lemma progress_after_failure_witness :
  progress (converted (num:=float) "a.pdf" (brokenDoc 3 2)) = 33
  /\ progress (converted (num:=float) "a.pdf" (brokenDoc 3 1)) = 0.
Proof.
  split.
  - exact (progress_after_failure (loaded (num:=float) "a.pdf" (brokenDoc 3 2))
             (brokenDoc 3 2) 2 "Invalid page" eq_refl
             ltac:(simpl; lia)
             ltac:(intros i Hi; assert (i = 1%nat) as -> by lia; reflexivity)
             eq_refl).
  - exact (progress_after_failure (loaded (num:=float) "a.pdf" (brokenDoc 3 1))
             (brokenDoc 3 1) 1 "Invalid page" eq_refl
             ltac:(simpl; lia) ltac:(intros i Hi; lia) eq_refl).
Defined.

(** ** Suspensions *)

Lemma convertPage_suspensions {num : Type} `{JsNumber num}
    (st : App num) (doc : PdfDoc num) cfg i :
  converts doc cfg i = true ->
  length (suspensions st (fst (convertPage doc cfg i))) = 2%nat.
Proof.
  unfold converts, convertPage.
  destruct (getPage doc i) as [pg|m]; simpl; [|discriminate].
  destruct (render pg _); simpl; [reflexivity|discriminate].
Qed.

Lemma convertPages_suspensions {num : Type} `{JsNumber num}
    (doc : PdfDoc num) cfg total pending acc (st : App num) :
  Forall (fun i => converts doc cfg i = true) pending ->
  length (suspensions st (performed (convertPages doc cfg total pending acc)))
  = (3 * length pending)%nat.
Proof.
  intros Hall. revert acc st.
  induction Hall as [|i rest Hi _ IH]; intros acc st; simpl; [reflexivity|].
  pose proof (fun s => convertPage_suspensions s doc cfg i Hi) as Htwo.
  unfold converts in Hi.
  destruct (convertPage doc cfg i) as [awaits [img|m]]; simpl in *;
    [|discriminate].
  rewrite suspensions_app, length_app, Htwo. simpl. rewrite IH. lia.
Qed.

(** X5.  A run in which every page converts is suspended three times per
    page, at [getPage], at the render task and at the animation frame: the
    component can be rendered 3 N times before the run returns. *)
Theorem three_suspensions_per_page {num : Type} `{JsNumber num}
    (st : App num) (doc : PdfDoc num) :
  pdfDoc st = Some doc ->
  (forall i, (1 <= i <= numPages doc)%nat ->
             converts doc (settings st) i = true) ->
  length (suspensions st (startConversion st)) = (3 * numPages doc)%nat
  /\ length (rendered st (startConversion st)) = (3 * numPages doc + 1)%nat.
Proof.
  intros Hdoc Hall.
  assert (Forall (fun i => converts doc (settings st) i = true)
            (seq 1 (numPages doc))) as Hforall.
  { apply Forall_forall. intros i Hi. apply elem_of_seq in Hi.
    apply Hall. lia. }
  assert (length (suspensions st (startConversion st))
          = (3 * numPages doc)%nat) as Hlen.
  { unfold startConversion. rewrite Hdoc.
    rewrite !suspensions_app, !length_app.
    unfold conversionLoop at 1.
    rewrite (convertPages_suspensions doc (settings st) _ _ [] _ Hforall).
    rewrite length_seq.
    destruct (thrown (conversionLoop doc (settings st))); simpl; lia. }
  split; [exact Hlen|].
  rewrite rendered_suspensions, length_app, Hlen. simpl. lia.
Qed.

Lemma three_suspensions_per_page_witness :
  length (rendered (loaded (num:=float) "a.pdf" (letterDoc 3))
            (startConversion (loaded (num:=float) "a.pdf" (letterDoc 3))))
  = 10%nat.
Proof.
  exact (proj2 (three_suspensions_per_page
                  (loaded (num:=float) "a.pdf" (letterDoc 3)) (letterDoc 3)
                  eq_refl ltac:(intros i _; reflexivity))).
Defined.

(** ** The width limit *)

(** X6.  The width limit is not applied when it is zero or negative, nor
    when the page at the base scale is not wider than the limit: the
    viewport is then the page at the base scale, never enlarged to reach
    the limit, and the canvas width is the double product of page width and
    scale with its fraction cut off (sizes a canvas attribute can hold). *)
Theorem limit_not_applied (pg : Page float) (cfg : Settings float) (limit : Z) :
  moderate (pageWidth pg) -> moderate (scale cfg) ->
  maxPageWidth cfg = ofZ limit -> limit < 2 ^ 53 ->
  limit <= 0
  \/ (valueOf (pageWidth pg) * valueOf (scale cfg) <= inject_Z limit)%Q ->
  (valueOf (pageWidth pg) * valueOf (scale cfg) <= inject_Z 2147483647)%Q ->
  planViewport pg cfg = getViewport pg (scale cfg)
  /\ canvasWidth (planViewport pg cfg)
     = Qfloor (valueOf (mul (pageWidth pg) (scale cfg))).
Proof.
  intros (Cw & Lw & Uw) (Cs & Ls & Us) Hmax Hlimit Hcase Hbound.
  destruct (mul_rounds_range _ _ (-200) 200 (-200) 200 Cw Cs Lw Uw Ls Us)
    as (C0 & R0 & _); [lia|lia|].
  assert (planViewport pg cfg = getViewport pg (scale cfg)) as Hplan.
  { apply planViewport_base. rewrite Hmax. cbn [gtb mul ofZ binary64].
    destruct (Z_le_gt_dec limit 0) as [Hle|Hpos].
    - left. apply ltb_zero_nonpositive. exact Hle.
    - right. destruct Hcase as [Hle|Hfits]; [lia|].
      destruct (float_ofZ_exact limit ltac:(lia)) as [Cm Vm].
      destruct (float_ofZ limit <? pageWidth pg * scale cfg)%float eqn:Hgt;
        [|reflexivity].
      apply (ltb_normal _ _ Cm C0) in Hgt. rewrite Vm in Hgt.
      pose proof (rounds_le_integer _ _ limit R0 ltac:(lia) Hfits). lra. }
  split; [exact Hplan|]. rewrite Hplan. unfold canvasWidth.
  cbn [viewportWidth getViewport mul binary64].
  apply canvas_side; [exact C0|exact R0|].
  apply Qle_lt_trans with (inject_Z 2147483647); [|rewrite <- Zlt_Qlt; lia].
  apply (rounds_le_integer _ _ _ R0); [lia|exact Hbound].
Qed.

Lemma limit_not_applied_witness :
  canvasWidth (planViewport (num:=float) letterPage (settingsWith (ofZ 2) (ofZ (-5))))
  = Qfloor (valueOf 1224%float)
  /\ canvasWidth (planViewport (num:=float) letterPage (settingsWith (ofZ 2) (ofZ 1920)))
     = Qfloor (valueOf 1224%float).
Proof.
  destruct (limit_not_applied letterPage (settingsWith (ofZ 2) (ofZ (-5))) (-5))
    as [_ Hnegative].
  - moderate_compute.
  - moderate_compute.
  - reflexivity.
  - lia.
  - left. lia.
  - q_compute.
  - destruct (limit_not_applied letterPage (settingsWith (ofZ 2) (ofZ 1920)) 1920)
      as [_ Hfits].
    + moderate_compute.
    + moderate_compute.
    + reflexivity.
    + lia.
    + right. q_compute.
    + q_compute.
    + exact (conj Hnegative Hfits).
Defined.

(** X7.  With a positive integer width limit the canvas is never wider
    than the limit and the effective scale never above the base scale,
    whether or not the page had to be reduced.  (The viewport itself can
    exceed the limit by a rounding error: a letter page at scale 3 under
    the limit 1024 has a viewport 1024.0000000000002 wide.) *)
Theorem limit_never_exceeded (pg : Page float) (cfg : Settings float) (limit : Z) :
  moderate (pageWidth pg) -> moderate (scale cfg) ->
  maxPageWidth cfg = ofZ limit -> 1 <= limit < 2 ^ 31 ->
  canvasWidth (planViewport pg cfg) <= limit
  /\ (valueOf (viewportScale (planViewport pg cfg)) <= valueOf (scale cfg))%Q.
Proof.
  intros Mw Ms Hmax Hlimit.
  pose proof Mw as (Cw & Lw & Uw). pose proof Ms as (Cs & Ls & Us).
  destruct (float_ofZ_exact limit ltac:(lia)) as [Cm Vm].
  pose proof (moderate_ofZ limit Hlimit) as Ml.
  destruct (mul_rounds_range _ _ (-200) 200 (-200) 200 Cw Cs Lw Uw Ls Us)
    as (C0 & R0 & _); [lia|lia|].
  destruct (float_ofZ limit <? pageWidth pg * scale cfg)%float eqn:Hgt.
  - destruct (limited_viewport (pageWidth pg) (scale cfg) (float_ofZ limit)
                Mw Ms Ml)
      as (_ & _ & _ & _ & _ & CW & RW & W1 & W2 & Hscale).
    destruct (limited_width_integer _ limit _ Hlimit Vm W1 W2) as [_ Hhi].
    assert (planViewport pg cfg
            = getViewport pg
                (scale cfg * (float_ofZ limit / (pageWidth pg * scale cfg)))%float)
      as Hplan.
    { unfold planViewport. cbn [viewportWidth getViewport]. rewrite Hmax.
      cbn [gtb mul div ofZ binary64].
      rewrite (ltb_zero_positive limit ltac:(lia)), Hgt. reflexivity. }
    rewrite Hplan. unfold canvasWidth.
    cbn [viewportScale viewportWidth getViewport mul binary64].
    split.
    + destruct (canvas_side 300 _ _ CW RW) as (Ecw & _).
      { eapply Qlt_le_trans; [exact Hhi|].
        rewrite <- inject_Z_succ, <- Zle_Qle. lia. }
      rewrite Ecw.
      pose proof (Qfloor_le (valueOf (pageWidth pg * (scale cfg * (float_ofZ limit / (pageWidth pg * scale cfg))))%float)) as Hfl.
      assert (inject_Z (Qfloor (valueOf (pageWidth pg * (scale cfg * (float_ofZ limit / (pageWidth pg * scale cfg))))%float))
              < inject_Z (limit + 1))%Q as H by (rewrite inject_Z_succ; lra).
      rewrite <- Zlt_Qlt in H. lia.
    + apply Hscale. apply (ltb_normal _ _ Cm C0). exact Hgt.
  - assert (planViewport pg cfg = getViewport pg (scale cfg)) as Hplan.
    { apply planViewport_base. right. rewrite Hmax.
      cbn [gtb mul ofZ binary64]. exact Hgt. }
    rewrite Hplan. unfold canvasWidth.
    cbn [viewportScale viewportWidth getViewport mul binary64].
    split; [|apply Qle_refl].
    assert (valueOf (pageWidth pg * scale cfg)%float <= inject_Z limit)%Q as Hle.
    { rewrite <- Vm. apply Qnot_lt_le. intros Hlt.
      apply (ltb_normal _ _ Cm C0) in Hlt. congruence. }
    destruct (canvas_side 300 _ _ C0 R0) as (Ecw & _).
    { eapply Qle_lt_trans; [exact Hle|]. rewrite <- Zlt_Qlt. lia. }
    rewrite Ecw. apply Qfloor_resp_le in Hle. rewrite Qfloor_Z in Hle. exact Hle.
Qed.

Lemma limit_never_exceeded_witness :
  canvasWidth (planViewport (num:=float) letterPage
                 (settingsWith (ofZ 3) (ofZ 1024)))
  <= 1024
  /\ viewportWidth (planViewport (num:=float) letterPage
                      (settingsWith (ofZ 3) (ofZ 1024)))
     = 0x1.0000000000001p+10%float.
Proof.
  destruct (limit_never_exceeded letterPage (settingsWith (ofZ 3) (ofZ 1024)) 1024)
    as [Hcw _].
  - moderate_compute.
  - moderate_compute.
  - reflexivity.
  - lia.
  - split; [exact Hcw|vm_compute; reflexivity].
Defined.

(** ** What a conversion leaves alone *)

Lemma startConversion_frame {num : Type} `{JsNumber num} (st : App num) :
  file (runEffects st (startConversion st)) = file st
  /\ pdfDoc (runEffects st (startConversion st)) = pdfDoc st
  /\ settings (runEffects st (startConversion st)) = settings st.
Proof.
  unfold startConversion. destruct (pdfDoc st) as [doc|] eqn:Hdoc;
    [|repeat split; exact Hdoc].
  rewrite !runEffects_app.
  pose proof (convertPages_quiet doc (settings st) (numPages doc)
                (seq 1 (numPages doc)) []) as Hq.
  fold (conversionLoop doc (settings st)) in Hq.
  set (st0 := runEffects st _).
  destruct (runEffects_quiet st0 _ Hq) as (Hfile & Hpdf & _ & _ & _ & Hcfg).
  destruct (thrown (conversionLoop doc (settings st))); simpl;
    rewrite Hfile, Hpdf, Hcfg; repeat split; exact Hdoc.
Qed.

(** X8.  [startConversion] never changes the chosen file, the loaded
    document or the settings; and unless the run ends with status error it
    leaves the error message as it was, so a message set earlier is still
    there after a successful conversion. *)
Theorem conversion_leaves_alone {num : Type} `{JsNumber num} (st : App num) :
  file (runEffects st (startConversion st)) = file st
  /\ pdfDoc (runEffects st (startConversion st)) = pdfDoc st
  /\ settings (runEffects st (startConversion st)) = settings st
  /\ (status (runEffects st (startConversion st)) <> error ->
      errorMsg (runEffects st (startConversion st)) = errorMsg st).
Proof.
  destruct (startConversion_frame st) as (Hfile & Hpdf & Hcfg).
  split; [exact Hfile|]. split; [exact Hpdf|]. split; [exact Hcfg|].
  intros Hok. destruct (pdfDoc st) as [doc|] eqn:Hdoc.
  - destruct (startConversion_result st doc Hdoc) as (_ & _ & Hend).
    destruct (thrown (conversionLoop doc (settings st))).
    + destruct Hend as (Herror & _). contradiction.
    + apply Hend.
  - unfold startConversion. rewrite Hdoc. reflexivity.
Qed.

Lemma conversion_leaves_alone_witness :
  errorMsg
    (runEffects
       (runEffects (loaded (num:=float) "a.pdf" (letterDoc 2))
          (handleFileChange None))
       (startConversion
          (runEffects (loaded (num:=float) "a.pdf" (letterDoc 2))
             (handleFileChange None))))
  = "请上传有效的 PDF 文件。".
Proof.
  destruct (conversion_leaves_alone
              (runEffects (loaded (num:=float) "a.pdf" (letterDoc 2))
                 (handleFileChange None))) as (_ & _ & _ & Hmsg).
  exact (Hmsg ltac:(discriminate)).
Defined.

(** X9.  After a run, the reset button and a second run give the results
    and the status of the first run again: the reset keeps the document and
    the settings, on which alone a run depends. *)
Theorem reset_and_run_again {num : Type} `{JsNumber num}
    (st : App num) (doc : PdfDoc num) :
  pdfDoc st = Some doc ->
  let first := runEffects st (startConversion st) in
  let cleared := runEffects first resetRun in
  let second := runEffects cleared (startConversion cleared) in
  status cleared = idle /\ convertedImages cleared = []
  /\ convertedImages second = convertedImages first
  /\ status second = status first.
Proof.
  intros Hdoc first cleared second.
  destruct (startConversion_frame st) as (_ & Hpdf & Hcfg).
  assert (pdfDoc cleared = Some doc) as Hdoc'
    by (unfold cleared; simpl; fold first; unfold first; rewrite Hpdf; exact Hdoc).
  assert (settings cleared = settings st) as Hcfg'
    by (unfold cleared; simpl; fold first; unfold first; exact Hcfg).
  destruct (startConversion_result st doc Hdoc) as (_ & _ & Hend1).
  destruct (startConversion_result cleared doc Hdoc') as (_ & _ & Hend2).
  rewrite Hcfg' in Hend2.
  fold first in Hend1. fold second in Hend2.
  split; [reflexivity|]. split; [reflexivity|].
  destruct (thrown (conversionLoop doc (settings st))).
  - destruct Hend1 as (-> & -> & _). destruct Hend2 as (-> & -> & _).
    split; reflexivity.
  - destruct Hend1 as (-> & -> & _). destruct Hend2 as (-> & -> & _).
    split; reflexivity.
Qed.

Lemma reset_and_run_again_witness :
  convertedImages
    (runEffects
       (runEffects (converted (num:=float) "a.pdf" (letterDoc 3)) resetRun)
       (startConversion
          (runEffects (converted (num:=float) "a.pdf" (letterDoc 3)) resetRun)))
  = convertedImages (converted (num:=float) "a.pdf" (letterDoc 3)).
Proof.
  destruct (reset_and_run_again (loaded (num:=float) "a.pdf" (letterDoc 3))
              (letterDoc 3) eq_refl) as (_ & _ & Himgs & _).
  exact Himgs.
Defined.

(** ** Reachable states *)

(** Between two handlers the status is never processing, and a status
    other than idle comes with a chosen file. *)
Lemma reachable_status {num : Type} `{JsNumber num} (st : App num) :
  Reachable st ->
  status st <> processing /\ (status st <> idle -> file st <> None).
Proof.
  induction 1 as [|st h _ IH Hen].
  - split; [discriminate|]. intros Hne. contradiction.
  - destruct h as [[f|]| | | | | | |]; simpl in *.
    + unfold handleFileChange.
      destruct (decide (type f = "application/pdf")).
      * destruct (parsed f); simpl; (split; [discriminate|]);
          intros _; discriminate.
      * exact IH.
    + exact IH.
    + destruct Hen as (_ & Hidle). simpl. rewrite Hidle.
      split; [discriminate|]. intros Hne. contradiction.
    + destruct (pdfDoc st) as [doc|] eqn:Hdoc.
      * destruct (startConversion_frame st) as (Hfile & _).
        destruct (startConversion_result st doc Hdoc) as (_ & _ & Hend).
        rewrite Hfile.
        destruct (thrown (conversionLoop doc (settings st)));
          destruct Hend as (-> & _); (split; [discriminate|]);
          intros _; apply Hen.
      * unfold startConversion. rewrite Hdoc. exact IH.
    + split; [discriminate|]. intros Hne. contradiction.
    + exact IH.
    + exact IH.
    + exact IH.
    + exact IH.
Qed.

(** X10.  In every state the component gets into, the results are those of
    the pages 1, 2, ... in this order; there are results only when the
    status is done; the status is idle, done or error; and unless the
    status is idle a file is chosen. *)
Theorem reachable_states {num : Type} `{JsNumber num} (st : App num) :
  Reachable st ->
  map page (convertedImages st) = seq 1 (length (convertedImages st))
  /\ (convertedImages st <> [] -> status st = done)
  /\ (status st = idle \/ status st = done \/ status st = error)
  /\ (status st <> idle -> file st <> None).
Proof.
  intros Hreach.
  destruct (reachable_wellFormed st Hreach) as (Hasc & Hdone).
  destruct (reachable_status st Hreach) as (Hproc & Hfile).
  split; [exact Hasc|]. split; [intros Hne; apply (Hdone Hne)|].
  split; [|exact Hfile].
  destruct (status st); auto. contradiction.
Qed.

Lemma reachable_states_witness :
  status (converted (num:=float) "a.pdf" (brokenDoc 3 2)) = idle
  \/ status (converted (num:=float) "a.pdf" (brokenDoc 3 2)) = done
  \/ status (converted (num:=float) "a.pdf" (brokenDoc 3 2)) = error.
Proof.
  destruct (reachable_states (converted (num:=float) "a.pdf" (brokenDoc 3 2))
              (converted_reachable _ _)) as (_ & _ & Hstatus & _).
  exact Hstatus.
Defined.

(** X11.  A failed run is a dead end: once the status is error, every
    handler the page still offers (only the settings panel) leaves the
    status at error and the result list empty; neither a retry, nor a
    reset, nor another file is offered. *)
Theorem error_is_final {num : Type} `{JsNumber num}
    (st : App num) (h : Handler) :
  Reachable st -> status st = error -> enabled st h ->
  status (runEffects st (handle st h)) = error
  /\ convertedImages (runEffects st (handle st h)) = []
  /\ file (runEffects st (handle st h)) = file st.
Proof.
  intros Hreach Herror Hen.
  destruct (reachable_wellFormed st Hreach) as (_ & Hdone).
  destruct (reachable_status st Hreach) as (_ & Hfile).
  assert (convertedImages st = []) as Hnil.
  { destruct (convertedImages st) as [|img imgs]; [reflexivity|].
    destruct (Hdone ltac:(discriminate)) as (Hd & _). congruence. }
  assert (file st <> None) as Hchosen
    by (apply Hfile; rewrite Herror; discriminate).
  destruct h as [f| | | | | | |]; simpl in Hen.
  - contradiction.
  - destruct Hen as (_ & Hidle). congruence.
  - destruct Hen as (_ & Hidle). congruence.
  - destruct Hen as (_ & Hd). congruence.
  - simpl. repeat split; assumption.
  - simpl. repeat split; assumption.
  - simpl. repeat split; assumption.
  - simpl. repeat split; assumption.
Qed.

Lemma error_is_final_witness :
  status
    (runEffects (converted (num:=float) "a.pdf" (brokenDoc 3 2))
       (handle (converted (num:=float) "a.pdf" (brokenDoc 3 2))
          (OnFormat jpeg)))
  = error.
Proof.
  destruct (error_is_final (converted (num:=float) "a.pdf" (brokenDoc 3 2))
              (OnFormat jpeg) (converted_reachable _ _) eq_refl I)
    as (Hstatus & _).
  exact Hstatus.
Defined.

(** ** A file that cannot be parsed *)

(** X12.  A file of type application/pdf that pdf.js cannot parse becomes
    the chosen file with status idle, while the document parsed before
    stays loaded: [setPdfDoc] is not called and nothing clears [pdfDoc].
    The start button is then offered, and a run started then converts the
    earlier document: it ends with the results and the status that a run
    would have had before the file was chosen, under the new file. *)
Theorem unparsed_file_keeps_document {num : Type} `{JsNumber num}
    (st : App num) (doc : PdfDoc num) (f : File num) (m : string) :
  pdfDoc st = Some doc ->
  type f = "application/pdf" -> parsed f = Rejected m ->
  let chosen := runEffects st (handleFileChange (Some f)) in
  let final := runEffects chosen (startConversion chosen) in
  file chosen = Some f
  /\ pdfDoc chosen = Some doc
  /\ status chosen = idle
  /\ enabled chosen OnStartConversion
  /\ file final = Some f
  /\ convertedImages final
     = convertedImages (runEffects st (startConversion st))
  /\ status final = status (runEffects st (startConversion st)).
Proof.
  intros Hdoc Htype Hparsed chosen final.
  assert (file chosen = Some f /\ pdfDoc chosen = Some doc
          /\ status chosen = idle /\ settings chosen = settings st)
    as (Hfile & Hdoc' & Hidle & Hcfg).
  { unfold chosen, handleFileChange.
    destruct (decide (type f = "application/pdf")); [|contradiction].
    rewrite Hparsed. simpl. repeat split. exact Hdoc. }
  destruct (startConversion_frame chosen) as (Hfile' & _).
  destruct (startConversion_result st doc Hdoc) as (_ & _ & Hend).
  destruct (startConversion_result chosen doc Hdoc') as (_ & _ & Hend').
  rewrite Hcfg in Hend'. fold final in Hend', Hfile'.
  split; [exact Hfile|]. split; [exact Hdoc'|]. split; [exact Hidle|].
  split; [split; [rewrite Hfile; discriminate|exact Hidle]|].
  split; [rewrite Hfile'; exact Hfile|].
  destruct (thrown (conversionLoop doc (settings st)));
    destruct Hend as (-> & -> & _); destruct Hend' as (-> & -> & _);
    split; reflexivity.
Qed.

Lemma unparsed_file_keeps_document_witness :
  let earlier := runEffects (loaded (num:=float) "a.pdf" (letterDoc 2)) removeFile in
  let unparsed := {| name := "b.pdf"; type := "application/pdf";
                     parsed := Rejected "Invalid PDF structure" |} in
  let chosen := runEffects earlier (handleFileChange (Some unparsed)) in
  file (runEffects chosen (startConversion chosen)) = Some unparsed
  /\ map page (convertedImages (runEffects chosen (startConversion chosen)))
     = [1; 2]%nat.
Proof.
  intros earlier unparsed chosen.
  destruct (unparsed_file_keeps_document earlier (letterDoc 2) unparsed
              "Invalid PDF structure" eq_refl eq_refl eq_refl)
    as (_ & _ & _ & _ & Hfile & Himgs & _).
  split; [exact Hfile|]. fold chosen in Himgs. rewrite Himgs. reflexivity.
Defined.

(** ** Downloads of single results *)

Lemma same_page_same_image (imgs : list Image) (img1 img2 : Image) :
  NoDup (map page imgs) -> img1 ∈ imgs -> img2 ∈ imgs ->
  page img1 = page img2 -> img1 = img2.
Proof.
  induction imgs as [|img imgs IH]; intros Hnd H1 H2 Hpage.
  - inversion H1.
  - simpl in Hnd. apply NoDup_cons in Hnd. destruct Hnd as (Hfresh & Hnd).
    apply elem_of_cons in H1. apply elem_of_cons in H2.
    destruct H1 as [->|H1], H2 as [->|H2].
    + reflexivity.
    + exfalso. apply Hfresh. rewrite Hpage.
      apply list_elem_of_fmap_2. exact H2.
    + exfalso. apply Hfresh. rewrite <- Hpage.
      apply list_elem_of_fmap_2. exact H1.
    + apply IH; assumption.
Qed.

(** X13.  In every state the component gets into, the download buttons of
    two different results save under different file names; and when there
    is one result only, the download-all button saves the same data under
    the same name as the button of that result. *)
Theorem image_downloads {num : Type} `{JsNumber num} (st : App num) :
  Reachable st ->
  (forall img1 img2,
     img1 ∈ convertedImages st -> img2 ∈ convertedImages st ->
     fileName (downloadImage st img1) = fileName (downloadImage st img2) ->
     img1 = img2)
  /\ (forall img, convertedImages st = [img] ->
        downloadAll st = Resolved (Some (downloadImage st img))).
Proof.
  intros Hreach. destruct (reachable_wellFormed st Hreach) as (Hasc & _).
  split.
  - intros img1 img2 H1 H2 Hname. simpl in Hname.
    apply pageFileName_inj in Hname.
    exact (same_page_same_image _ _ _ (pagesAscending_NoDup _ Hasc) H1 H2 Hname).
  - intros img Himgs. unfold downloadAll, downloadImage. rewrite Himgs.
    rewrite Himgs in Hasc. unfold pagesAscending in Hasc.
    injection Hasc as Hpage.
    rewrite Hpage, pageFileName_first. reflexivity.
Qed.

Lemma image_downloads_witness :
  downloadAll (converted (num:=float) "a.pdf" (letterDoc 1))
  = Resolved
      (Some (downloadImage (converted (num:=float) "a.pdf" (letterDoc 1))
               {| page := 1; dataUrl := "data:image/png;base64,AAAA";
                  width := 1224; height := 1584 |})).
Proof.
  destruct (image_downloads (converted (num:=float) "a.pdf" (letterDoc 1))
              (converted_reachable _ _)) as (_ & Hsingle).
  exact (Hsingle _ eq_refl).
Defined.

(** ** The entries of a bundle *)

Lemma buildZip_folder (fmt : Format) (imgs : list Image) :
  buildZip fmt imgs !! "images/" = Some Folder.
Proof.
  induction imgs as [|img imgs IH] using rev_ind.
  - unfold buildZip, zipFolder. cbn [fold_left]. apply lookup_insert_eq.
  - rewrite buildZip_snoc. unfold folderFile.
    rewrite lookup_insert_ne; [exact IH|].
    destruct fmt; discriminate.
Qed.

(** X14.  For a reachable state with a chosen file and n >= 2 results, the
    archive handed to [saveAs] has n + 1 entries: the folder images/ and,
    for each k from 1 to n, the file images/page-k.<format>, which holds
    the data of the k-th result. *)
Theorem bundle_of_a_run {num : Type} `{JsNumber num}
    (st : App num) (f : File num) :
  Reachable st -> file st = Some f ->
  (2 <= length (convertedImages st))%nat ->
  exists zip,
    downloadAll st
    = Resolved (Some {| content := ZipBlob zip;
                        fileName := replaceFirst ".pdf" "" (name f)
                                    +:+ "-images.zip" |})
    /\ size zip = S (length (convertedImages st))
    /\ zip !! "images/" = Some Folder
    /\ (forall k, (1 <= k <= length (convertedImages st))%nat ->
          exists img,
            convertedImages st !! (k - 1)%nat = Some img
            /\ zip !! ("images/page-" +:+ pretty k +:+ "."
                       +:+ formatString (format (settings st)))
               = Some (Data (base64Data img))).
Proof.
  intros Hreach Hfile Hlen.
  destruct (download_bundle st f Hreach Hfile Hlen)
    as (zip & Hdown & Hentries & _ & Hsize).
  destruct (reachable_wellFormed st Hreach) as (Hasc & _).
  exists zip. split; [exact Hdown|]. split; [exact Hsize|]. split.
  - unfold downloadAll in Hdown. rewrite Hfile in Hdown.
    destruct (convertedImages st) as [|img [|img' imgs]] eqn:Himgs;
      try discriminate Hdown.
    injection Hdown as <-. apply buildZip_folder.
  - intros k Hk.
    destruct (lookup_lt_is_Some_2 (convertedImages st) (k - 1)%nat
                ltac:(lia)) as (img & Himg).
    exists img. split; [exact Himg|].
    assert (page img = k) as Hpage.
    { unfold pagesAscending in Hasc.
      assert (map page (convertedImages st) !! (k - 1)%nat = Some (page img))
        as Hlook by (rewrite list_lookup_fmap, Himg; reflexivity).
      rewrite Hasc in Hlook. apply lookup_seq in Hlook. lia. }
    rewrite <- Hpage.
    apply Hentries. apply list_elem_of_lookup. exists (k - 1)%nat. exact Himg.
Qed.

Lemma bundle_of_a_run_witness :
  exists zip,
    downloadAll (converted (num:=float) "scan.pdf" (letterDoc 3))
    = Resolved (Some {| content := ZipBlob zip;
                        fileName := "scan-images.zip" |})
    /\ size zip = 4%nat
    /\ zip !! "images/page-3.png" = Some (Data (Some "AAAA")).
Proof.
  destruct (bundle_of_a_run (converted (num:=float) "scan.pdf" (letterDoc 3))
              (sampleFile "scan.pdf" (letterDoc 3))
              (converted_reachable _ _) eq_refl ltac:(vm_compute; lia))
    as (zip & Hdown & Hsize & _ & Hfiles).
  exists zip. split; [exact Hdown|]. split; [exact Hsize|].
  destruct (Hfiles 3%nat ltac:(vm_compute; lia)) as (img & Himg & Hentry).
  vm_compute in Himg. injection Himg as <-. exact Hentry.
Defined.

(** ** The data put into the archive *)

Lemma split_nonempty (sep : ascii) (s : string) : split sep s <> [].
Proof.
  destruct s as [|c rest]; simpl; [discriminate|].
  destruct (decide (c = sep)); [discriminate|].
  destruct (split sep rest); discriminate.
Qed.

Lemma split_without (sep : ascii) (s : string) :
  occurs sep s = false -> split sep s = [s].
Proof.
  induction s as [|c rest IH]; simpl; [reflexivity|].
  destruct (decide (c = sep)); [discriminate|].
  intros Hrest. rewrite (IH Hrest). reflexivity.
Qed.

Lemma split_at_first (sep : ascii) (before after : string) :
  occurs sep before = false ->
  split sep (before +:+ String sep after) = before :: split sep after.
Proof.
  induction before as [|c rest IH]; simpl.
  - intros _. destruct (decide (sep = sep)); [reflexivity|contradiction].
  - destruct (decide (c = sep)); [discriminate|].
    intros Hrest. rewrite (IH Hrest). reflexivity.
Qed.

(** X15.  The data archived for a result is the part of its data URL
    between the first and the second comma: for a data URL
    <header>,<payload> with no other comma it is the payload, which is
    empty for the URL data:, of a canvas that could not be encoded; for a
    URL with no comma there is no data ([undefined]). *)
Theorem archived_data (img : Image) :
  (forall header payload,
     dataUrl img = header +:+ String "," payload ->
     occurs "," header = false -> occurs "," payload = false ->
     base64Data img = Some payload)
  /\ (occurs "," (dataUrl img) = false -> base64Data img = None).
Proof.
  unfold base64Data. split.
  - intros header payload -> Hh Hp.
    rewrite (split_at_first _ _ _ Hh), (split_without _ _ Hp). reflexivity.
  - intros Hnone. rewrite (split_without _ _ Hnone). reflexivity.
Qed.

Lemma archived_data_witness :
  base64Data {| page := 1; dataUrl := "data:image/jpeg;base64,/9j/4AAQ";
                width := 10; height := 10 |} = Some "/9j/4AAQ"
  /\ base64Data {| page := 1; dataUrl := "data:,"; width := 0; height := 0 |}
     = Some ""
  /\ base64Data {| page := 1; dataUrl := "blob"; width := 0; height := 0 |}
     = None.
Proof.
  split; [|split].
  - exact (proj1 (archived_data
                    {| page := 1; dataUrl := "data:image/jpeg;base64,/9j/4AAQ";
                       width := 10; height := 10 |})
             "data:image/jpeg;base64" "/9j/4AAQ" eq_refl eq_refl eq_refl).
  - exact (proj1 (archived_data
                    {| page := 1; dataUrl := "data:,"; width := 0; height := 0 |})
             "data:" "" eq_refl eq_refl eq_refl).
  - exact (proj2 (archived_data
                    {| page := 1; dataUrl := "blob"; width := 0; height := 0 |})
             eq_refl).
Defined.

(** ** The name of the archive *)

(** [replaceFirst] is [s.slice(0, i) + replacement + s.slice(i + n)] for
    the index [i] of the first occurrence of the pattern, of length [n],
    and [s] when there is none. *)
Lemma replaceFirst_index (pattern replacement s : string) :
  replaceFirst pattern replacement s
  = match String.index 0 pattern s with
    | Some i =>
        String.substring 0 i s +:+ replacement
        +:+ String.substring (i + String.length pattern)
              (String.length s - (i + String.length pattern)) s
    | None => s
    end.
Proof.
  induction s as [|c s IH].
  - destruct pattern; reflexivity.
  - rewrite replaceFirst_cons.
    change (String.index 0 pattern (String c s))
      with (if String.prefix pattern (String c s) then Some 0%nat
            else match String.index 0 pattern s with
                 | Some n => Some (S n)
                 | None => None
                 end).
    destruct (String.prefix pattern (String c s)); [reflexivity|].
    rewrite IH. destruct (String.index 0 pattern s) as [i|]; reflexivity.
Qed.

(** X16.  The archive is named after the document with the first
    occurrence of .pdf removed, wherever it stands, and with nothing
    removed when .pdf does not occur: with i the index of the first
    occurrence, the name is the first i characters of the document name,
    then the characters from i + 4 on, then -images.zip. *)
Theorem bundle_name {num : Type} `{JsNumber num}
    (st : App num) (f : File num) (saved : Saved) :
  file st = Some f ->
  (2 <= length (convertedImages st))%nat ->
  downloadAll st = Resolved (Some saved) ->
  fileName saved
  = match String.index 0 ".pdf" (name f) with
    | Some i =>
        String.substring 0 i (name f)
        +:+ String.substring (i + 4) (String.length (name f) - (i + 4)) (name f)
    | None => name f
    end +:+ "-images.zip".
Proof.
  intros Hfile Hlen Hdown. unfold downloadAll in Hdown. rewrite Hfile in Hdown.
  destruct (convertedImages st) as [|img [|img' imgs]];
    cbn [length] in Hlen; [lia|lia|].
  injection Hdown as <-. cbn [fileName].
  rewrite replaceFirst_index.
  destruct (String.index 0 ".pdf" (name f)); reflexivity.
Qed.

Lemma bundle_name_witness :
  match downloadAll (converted (num:=float) "q3.pdf.report.pdf" (letterDoc 2)) with
  | Resolved (Some saved) => fileName saved = "q3.report.pdf-images.zip"
  | _ => False
  end.
Proof.
  pose proof (bundle_name
                (converted (num:=float) "q3.pdf.report.pdf" (letterDoc 2))
                (sampleFile "q3.pdf.report.pdf" (letterDoc 2))) as Hname.
  destruct (downloadAll
              (converted (num:=float) "q3.pdf.report.pdf" (letterDoc 2)))
    as [[saved|]|message] eqn:Hdown.
  - exact (Hname saved eq_refl ltac:(vm_compute; lia) eq_refl).
  - vm_compute in Hdown. discriminate Hdown.
  - vm_compute in Hdown. discriminate Hdown.
Defined.


(** ** Loading the libraries *)

(** No script has listeners for the hook [hook]. *)
Lemma setAttributeFromEvent_other (hook : nat) url event (d : Scripts) :
  (forall u el, scripts d !! u = Some el -> listener el <> Some hook) ->
  statuses (setAttributeFromEvent url event d) !! hook = statuses d !! hook
  /\ (forall u el, scripts (setAttributeFromEvent url event d) !! u = Some el ->
                   listener el <> Some hook).
Proof.
  intros Hnone. unfold setAttributeFromEvent.
  destruct (scripts d !! url) as [[attr [h|]]|] eqn:Hurl;
    [|split; [reflexivity|exact Hnone]..].
  assert (h <> hook) as Hne.
  { intros ->. exact (Hnone _ _ Hurl eq_refl). }
  split.
  - cbn [statuses]. apply lookup_insert_ne. exact Hne.
  - cbn [scripts]. intros u el Hu.
    destruct (decide (url = u)) as [->|Hu'].
    + rewrite lookup_insert_eq in Hu. injection Hu as <-. cbn [listener].
      congruence.
    + rewrite lookup_insert_ne in Hu by exact Hu'. exact (Hnone _ _ Hu).
Qed.

(** X17.  A [useScript] hook mounted for a [src] whose script another hook
    has appended and that is still loading takes the status loading and
    keeps it, whatever load or error events follow: the listeners belong
    to the hook that appended the script, and none is attached for the
    second hook. *)
Theorem second_hook_not_notified (d : Scripts) (url : string)
    (first second : nat) (events : list (string * ScriptEvent)) :
  scripts d !! url = None ->
  (forall u el, scripts d !! u = Some el -> listener el <> Some second) ->
  first <> second ->
  statuses
    (fireEvents events
       (useScript second (Some url) (useScript first (Some url) d)))
  !! second
  = Some (Some "loading").
Proof.
  intros Hfresh Hnone Hne.
  set (mounted := useScript second (Some url) (useScript first (Some url) d)).
  assert (statuses mounted !! second = Some (Some "loading")
          /\ (forall u el, scripts mounted !! u = Some el ->
                           listener el <> Some second)) as (Hstatus & Hnone').
  { unfold mounted, useScript, useScriptState, useScriptEffect.
    cbn [scripts statuses]. rewrite Hfresh. cbn [scripts statuses].
    rewrite lookup_insert_eq. cbn [scripts statuses dataStatus]. split.
    - apply lookup_insert_eq.
    - intros u el Hu. destruct (decide (url = u)) as [->|Hu'].
      + rewrite lookup_insert_eq in Hu. injection Hu as <-. cbn [listener].
        congruence.
      + rewrite lookup_insert_ne in Hu by exact Hu'. exact (Hnone _ _ Hu). }
  clearbody mounted. revert mounted Hstatus Hnone'.
  unfold fireEvents.
  induction events as [|[u event] rest IH]; intros mounted Hstatus Hnone';
    [exact Hstatus|].
  cbn [fold_left fst snd].
  destruct (setAttributeFromEvent_other second u event mounted Hnone')
    as (Hsame & Hnone'').
  apply IH; [rewrite Hsame; exact Hstatus|exact Hnone''].
Qed.

Lemma second_hook_not_notified_witness :
  statuses
    (fireEvents [("lib.js", LoadEvent)]
       (useScript 1 (Some "lib.js")
          (useScript 0 (Some "lib.js") {| scripts := ∅; statuses := ∅ |})))
  !! 1%nat
  = Some (Some "loading").
Proof.
  apply second_hook_not_notified.
  - apply lookup_empty.
  - intros u el Hu. cbn [scripts] in Hu. rewrite lookup_empty in Hu.
    discriminate Hu.
  - lia.
Defined.

Lemma mountLibraries_scripts : libraryScripts mountLibraries.
Proof.
  split.
  - intros url el i Hurl Hlistener.
    apply elem_of_map_to_list in Hurl. vm_compute in Hurl.
    repeat (apply elem_of_cons in Hurl; destruct Hurl as [Hurl|Hurl];
            [injection Hurl as -> ->; simpl in Hlistener;
             injection Hlistener as <-; reflexivity|]).
    inversion Hurl.
  - intros i url Hi.
    destruct i as [|[|[|[|i]]]]; simpl in Hi; try discriminate Hi;
      injection Hi as <-; eexists; vm_compute; reflexivity.
Qed.

Lemma mountLibraries_statuses (i : nat) :
  statuses mountLibraries !! i <> Some (Some "ready").
Proof.
  intros Hi. apply elem_of_map_to_list in Hi. vm_compute in Hi.
  repeat (apply elem_of_cons in Hi; destruct Hi as [Hi|Hi];
          [discriminate Hi|]).
  inversion Hi.
Qed.

Lemma setAttributeFromEvent_scripts url event (d : Scripts) :
  libraryScripts d -> libraryScripts (setAttributeFromEvent url event d).
Proof.
  intros (Hown & Hall). unfold setAttributeFromEvent.
  destruct (scripts d !! url) as [[attr [h|]]|] eqn:Hurl;
    [|split; assumption..].
  split; cbn [scripts].
  - intros u el i Hu Hl. destruct (decide (url = u)) as [->|Hne].
    + rewrite lookup_insert_eq in Hu. injection Hu as <-. cbn [listener] in Hl.
      exact (Hown _ _ _ Hurl Hl).
    + rewrite lookup_insert_ne in Hu by exact Hne. exact (Hown _ _ _ Hu Hl).
  - intros i u Hi. destruct (Hall i u Hi) as (value & Hu).
    destruct (decide (url = u)) as [->|Hne].
    + rewrite Hurl in Hu. injection Hu as -> ->.
      eexists. apply lookup_insert_eq.
    + exists value. rewrite lookup_insert_ne by exact Hne. exact Hu.
Qed.

(** A status is ready only after a load event of its library. *)
Lemma setAttributeFromEvent_ready url event (d : Scripts) seen :
  libraryScripts d ->
  (forall i, statuses d !! i = Some (Some "ready") ->
             exists u, libraries !! i = Some u /\ (u, LoadEvent) ∈ seen) ->
  forall i, statuses (setAttributeFromEvent url event d) !! i
            = Some (Some "ready") ->
            exists u, libraries !! i = Some u
                      /\ (u, LoadEvent) ∈ seen ++ [(url, event)].
Proof.
  intros (Hown & _) Hready i Hi. unfold setAttributeFromEvent in Hi.
  assert (statuses d !! i = Some (Some "ready") ->
          exists u, libraries !! i = Some u
                    /\ (u, LoadEvent) ∈ seen ++ [(url, event)]) as Hold.
  { intros Hd. destruct (Hready i Hd) as (u & Hu & Hin).
    exists u. split; [exact Hu|]. apply elem_of_app. left. exact Hin. }
  destruct (scripts d !! url) as [[attr [h|]]|] eqn:Hurl;
    [|exact (Hold Hi)..].
  cbn [statuses] in Hi. destruct (decide (h = i)) as [->|Hne].
  - rewrite lookup_insert_eq in Hi.
    destruct event; [|discriminate Hi].
    exists url. split; [exact (Hown _ _ _ Hurl eq_refl)|].
    apply elem_of_app. right. left.
  - rewrite lookup_insert_ne in Hi by exact Hne. exact (Hold Hi).
Qed.

Lemma allReady_loaded (d : Scripts) seen :
  (forall i, statuses d !! i = Some (Some "ready") ->
             exists u, libraries !! i = Some u /\ (u, LoadEvent) ∈ seen) ->
  allReady d = true -> allLoaded seen.
Proof.
  intros Hready Hall url Hurl. unfold allReady in Hall.
  rewrite forallb_forall in Hall.
  apply list_elem_of_lookup in Hurl. destruct Hurl as (i & Hi).
  assert (i < length libraries)%nat as Hlt by (eapply lookup_lt_Some; exact Hi).
  specialize (Hall i ltac:(apply in_seq; lia)).
  apply bool_decide_eq_true in Hall.
  destruct (Hready i Hall) as (u & Hu & Hin). congruence.
Qed.

Lemma isReadyAfter_loaded pdfjsLib events :
  forall (d : Scripts) seen isReady,
    libraryScripts d ->
    (forall i, statuses d !! i = Some (Some "ready") ->
               exists u, libraries !! i = Some u /\ (u, LoadEvent) ∈ seen) ->
    (isReady = true -> pdfjsLib = true /\ allLoaded seen) ->
    isReadyAfter pdfjsLib events d isReady = true ->
    pdfjsLib = true /\ allLoaded (seen ++ events).
Proof.
  induction events as [|[url event] rest IH];
    intros d seen isReady Hscripts Hready Hsticky Hafter.
  - rewrite app_nil_r. simpl in Hafter.
    apply orb_true_iff in Hafter. destruct Hafter as [Hr|Hnow];
      [exact (Hsticky Hr)|].
    apply andb_true_iff in Hnow. destruct Hnow as (Hall & Hlib).
    split; [exact Hlib|]. exact (allReady_loaded d seen Hready Hall).
  - cbn [isReadyAfter fst snd] in Hafter.
    replace (seen ++ (url, event) :: rest)
      with ((seen ++ [(url, event)]) ++ rest)
      by (rewrite <- app_assoc; reflexivity).
    apply (IH (setAttributeFromEvent url event d) (seen ++ [(url, event)])
              (isReady || allReady d && pdfjsLib)
              (setAttributeFromEvent_scripts _ _ _ Hscripts)
              (setAttributeFromEvent_ready _ _ _ _ Hscripts Hready));
      [|exact Hafter].
    intros Hr. apply orb_true_iff in Hr.
    assert (pdfjsLib = true /\ allLoaded seen) as (Hlib & Hseen).
    { destruct Hr as [Hr|Hnow]; [exact (Hsticky Hr)|].
      apply andb_true_iff in Hnow. destruct Hnow as (Hall & Hlib).
      split; [exact Hlib|]. exact (allReady_loaded d seen Hready Hall). }
    split; [exact Hlib|]. intros u Hu. apply elem_of_app. left.
    exact (Hseen u Hu).
Qed.

(** When only load events come, a hook whose library has had its event, or
    that was ready before, is ready at the end. *)
Lemma fireEvents_ready events :
  forall (d : Scripts) i url,
    libraryScripts d ->
    (forall e, e ∈ events -> snd e = LoadEvent) ->
    libraries !! i = Some url ->
    (url, LoadEvent) ∈ events \/ statuses d !! i = Some (Some "ready") ->
    statuses (fireEvents events d) !! i = Some (Some "ready").
Proof.
  unfold fireEvents.
  induction events as [|[u event] rest IH];
    intros d i url Hscripts Hloads Hi Hcase.
  - destruct Hcase as [Hin|Hready]; [inversion Hin|exact Hready].
  - cbn [fold_left fst snd].
    assert (event = LoadEvent) as -> by (apply (Hloads (u, event)); left).
    apply (IH _ i url (setAttributeFromEvent_scripts _ _ _ Hscripts));
      [intros e He; apply Hloads; right; exact He|exact Hi|].
    destruct Hscripts as (Hown & Hall).
    assert (u <> url -> (url, LoadEvent) ∈ (u, LoadEvent) :: rest ->
            (url, LoadEvent) ∈ rest) as Hrest.
    { intros Hne Hin. apply elem_of_cons in Hin.
      destruct Hin as [Heq|Hin]; [congruence|exact Hin]. }
    unfold setAttributeFromEvent.
    destruct (decide (u = url)) as [->|Hne].
    + right. destruct (Hall i url Hi) as (value & Hurl). rewrite Hurl.
      cbn [statuses]. apply lookup_insert_eq.
    + destruct Hcase as [Hin|Hready]; [left; exact (Hrest Hne Hin)|].
      right.
      destruct (scripts d !! u) as [[attr [h|]]|] eqn:Hu;
        [|exact Hready..].
      cbn [statuses]. destruct (decide (h = i)) as [->|Hhi].
      * apply lookup_insert_eq.
      * rewrite lookup_insert_ne by exact Hhi. exact Hready.
Qed.

Lemma isReadyAfter_final pdfjsLib events :
  forall (d : Scripts) isReady,
    allReady (fireEvents events d) && pdfjsLib = true ->
    isReadyAfter pdfjsLib events d isReady = true.
Proof.
  unfold fireEvents.
  induction events as [|e rest IH]; intros d isReady Hfinal.
  - simpl in *. rewrite Hfinal. apply orb_true_r.
  - cbn [isReadyAfter]. apply IH. exact Hfinal.
Qed.

(** X18.  The component leaves its loading screen only if [window.pdfjsLib]
    is defined and a load event has come for each of the four libraries;
    an error event for one of them, or none, keeps it there.  And it does
    leave it when [window.pdfjsLib] is defined and the events are load
    events, one at least for each library, in any order. *)
Theorem ready_when_all_loaded (pdfjsLib : bool)
    (events : list (string * ScriptEvent)) :
  (isReadyAfter pdfjsLib events mountLibraries false = true ->
   pdfjsLib = true /\ allLoaded events)
  /\ (pdfjsLib = true -> allLoaded events ->
      (forall e, e ∈ events -> snd e = LoadEvent) ->
      isReadyAfter pdfjsLib events mountLibraries false = true).
Proof.
  split.
  - intros Hafter.
    apply (isReadyAfter_loaded pdfjsLib events mountLibraries [] false
             mountLibraries_scripts); [| |exact Hafter].
    + intros i Hi. exfalso. exact (mountLibraries_statuses i Hi).
    + discriminate.
  - intros -> Hloaded Hloads. apply isReadyAfter_final.
    rewrite andb_true_r. unfold allReady. apply forallb_forall.
    intros i Hi. apply in_seq in Hi. apply bool_decide_eq_true.
    destruct (lookup_lt_is_Some_2 libraries i ltac:(lia)) as (url & Hurl).
    apply (fireEvents_ready events mountLibraries i url
             mountLibraries_scripts Hloads Hurl).
    left. apply Hloaded. apply list_elem_of_lookup. exists i. exact Hurl.
Qed.

Lemma ready_when_all_loaded_witness :
  isReadyAfter true (map (fun url => (url, LoadEvent)) (rev libraries))
    mountLibraries false
  = true.
Proof.
  apply (proj2 (ready_when_all_loaded true
                  (map (fun url => (url, LoadEvent)) (rev libraries)))).
  - reflexivity.
  - intros url Hurl. vm_compute in Hurl. vm_compute.
    repeat (apply elem_of_cons in Hurl; destruct Hurl as [->|Hurl];
            [repeat (first [left; reflexivity|right])|]).
    inversion Hurl.
  - intros e He. vm_compute in He.
    repeat (apply elem_of_cons in He; destruct He as [->|He]; [reflexivity|]).
    inversion He.
Defined.
